(** * ZeroPadding3D: zero-padding of a rank-4 tensor

    A shallow embedding of [src/layers/convolutional/ZeroPadding3D.js] and of
    the collaborators it calls, followed by the properties of the padding
    operator.

    Conventions.
    - JavaScript numbers that hold extents, paddings and offsets are modelled
      as [Z]; the [|0] coercions of ndarray are the identity on them.
    - A run in which the source reads [undefined] where it needs a number or
      an object (wrong rank, malformed padding, missing texture), or in
      which a collaborator throws, has no usable result; such runs are
      [None] in the model.
    - Tensor objects live in a store and are named by their location, so
      that the in-place updates of the caller's tensor and the identity of
      the cached objects are visible. *)

From Stdlib Require Import ZArith List Lia String.
From stdpp Require Import base option list list_numbers.

Open Scope Z_scope.

(** ** Typed arrays *)

(** The element type of a typed array: the value a fresh array is filled
    with, and the value stored when [undefined] is written into it
    (NaN for [Float32Array], 0 for [Int32Array]). *)
Class TypedArray (A : Type) := {
  zero : A;
  of_undefined : A
}.

#[export] Instance Int32Array : TypedArray Z :=
  {| zero := 0; of_undefined := 0 |}.

(** ** ndarray views *)

(** Modelled from the spec: the strided view of the [ndarray] package, which
    the source imports and [src/] does not contain: a flat buffer, a shape,
    one stride per axis and an offset. *)
Record ndarray (A : Type) := NdArray {
  data : list A;
  shape : list Z;
  stride : list Z;
  offset : Z
}.

Arguments NdArray {A} _ _ _ _.
Arguments data {A} _.
Arguments shape {A} _.
Arguments stride {A} _.
Arguments offset {A} _.

(** [shape.reduce((a, b) => a * b, 1)] *)
Definition shape_size (sh : list Z) : Z := fold_left Z.mul sh 1.

(** Modelled from the spec: the default (row-major) strides [ndarray(data,
    shape)] computes: the stride of an axis is the product of the extents of
    the axes after it. *)
Fixpoint row_major (sh : list Z) : list Z :=
  match sh with
  | [] => []
  | _ :: t => shape_size t :: row_major t
  end.

Definition ndarray_of {A} (d : list A) (sh : list Z) : ndarray A :=
  NdArray d sh (row_major sh) 0.

Fixpoint dot (st idx : list Z) : Z :=
  match st, idx with
  | s :: st', i :: idx' => s * i + dot st' idx'
  | _, _ => 0
  end.

(** Position in the buffer of the element at [idx]. *)
Definition index {A} (v : ndarray A) (idx : list Z) : Z :=
  offset v + dot (stride v) idx.

(** Reading a typed array out of range gives [undefined]. *)
Definition read {A} (d : list A) (p : Z) : option A :=
  if p <? 0 then None else d !! Z.to_nat p.

(** Writing a typed array out of range does nothing. *)
Definition write {A} (d : list A) (p : Z) (a : A) : list A :=
  if p <? 0 then d else <[Z.to_nat p := a]> d.

Definition get {A} (v : ndarray A) (idx : list Z) : option A :=
  read (data v) (index v idx).

Definition with_data {A} (v : ndarray A) (d : list A) : ndarray A :=
  NdArray d (shape v) (stride v) (offset v).

(** Modelled from the spec: [view.hi(i0, i1, ...)] of the ndarray package:
    the extent of an axis becomes the argument, unless the argument is
    negative or absent. *)
Fixpoint hi_shape (sh args : list Z) : list Z :=
  match sh, args with
  | n :: sh', i :: args' => (if i <? 0 then n else i) :: hi_shape sh' args'
  | _, _ => sh
  end.

Definition hi {A} (args : list Z) (v : ndarray A) : ndarray A :=
  NdArray (data v) (hi_shape (shape v) args) (stride v) (offset v).

(** Modelled from the spec: [view.lo(i0, i1, ...)] of the ndarray package:
    a non-negative argument moves the start of its axis forward and shortens
    the axis by as much. *)
Fixpoint lo_shape (sh args : list Z) : list Z :=
  match sh, args with
  | n :: sh', i :: args' => (if 0 <=? i then n - i else n) :: lo_shape sh' args'
  | _, _ => sh
  end.

Fixpoint lo_offset (st args : list Z) : Z :=
  match st, args with
  | s :: st', i :: args' => (if 0 <=? i then s * i else 0) + lo_offset st' args'
  | _, _ => 0
  end.

Definition lo {A} (args : list Z) (v : ndarray A) : ndarray A :=
  NdArray (data v) (lo_shape (shape v) args) (stride v)
          (offset v + lo_offset (stride v) args).

(** Modelled from the spec: [view.transpose(a0, a1, ...)] of the ndarray
    package: axis [k] of the result is axis [a_k] of the view; arguments
    beyond the rank are ignored and a missing argument is the axis itself. *)
Definition transpose {A} (axes : list nat) (v : ndarray A)
    : option (ndarray A) :=
  let n := length (shape v) in
  let ax := take n (axes ++ seq (length axes) (n - length axes)) in
  sh ← mapM (λ a, shape v !! a) ax;
  st ← mapM (λ a, stride v !! a) ax;
  Some (NdArray (data v) sh st (offset v)).

(** All index vectors of a shape, in the order of nested loops with the last
    axis innermost. *)
Fixpoint indices (sh : list Z) : list (list Z) :=
  match sh with
  | [] => [[]]
  | n :: t => i ← seqZ 0 n; cons i <$> indices t
  end.

(** [idx] is an index vector of the shape [sh]. *)
Definition in_box (idx sh : list Z) : Prop :=
  Forall2 (λ i n, 0 ≤ i < n) idx sh.

(** Every element the view can name lies inside its buffer. *)
Definition in_bounds {A} (v : ndarray A) : bool :=
  forallb (λ idx, match get v idx with Some _ => true | None => false end)
          (indices (shape v)).

(** The region of extents [ish] starting at [start] lies inside [osh]. *)
Definition fits (start ish osh : list Z) : Prop :=
  Forall3 (λ b s o, 0 ≤ b ∧ 0 ≤ s ∧ b + s ≤ o) start ish osh.

Definition write_all {A} (d : list A) (ws : list (Z * A)) : list A :=
  foldl (λ d w, write d w.1 w.2) d ws.

(** Modelled from the spec: [ops.assign(dest, src)] of ndarray-ops: for every
    index vector of [dest]'s shape, the element of [src] is stored into
    [dest]. The result is the buffer of [dest], which [dest] shares with the
    view it was cut from. *)
Definition assign {A} `{TypedArray A} (dest src : ndarray A) : list A :=
  write_all (data dest)
    ((λ idx, (index dest idx, default of_undefined (get src idx)))
       <$> indices (shape dest)).

(** Modelled from the spec: [ops.assigns(dest, c)] of ndarray-ops: every
    element of [dest] becomes [c]. *)
Definition assigns {A} (dest : ndarray A) (c : A) : list A :=
  write_all (data dest) ((λ idx, (index dest idx, c)) <$> indices (shape dest)).

(** ** The Tensor collaborator *)

(** The per-element table a tensor records when it is laid out as a 2D
    texture: an array-like object with [data] and [shape]. *)
Record IndexTable := {
  table_data : list Z;
  table_shape : list Z
}.

(** Modelled from the spec: the fields of a [Tensor] (Tensor.js is not under
    [src/]) that the layer reads or writes: the host-side ndarray, the
    GPU-resident texture with its [rows; cols] shape, the shape the tensor
    had before it was laid out in 2D, the linear-offset table produced by
    that layout, and the flag that tells the row-major layout from the
    square one. *)
Record Tensor (A : Type) := mkTensor {
  tensor : ndarray A;
  glTexture : option (list A);
  glTextureShape : option (list Z);
  originalShape : option (list Z);
  indicesForReshaped : option IndexTable;
  is2DReshaped : bool
}.

Arguments mkTensor {A} _ _ _ _ _ _.
Arguments tensor {A} _.
Arguments glTexture {A} _.
Arguments glTextureShape {A} _.
Arguments originalShape {A} _.
Arguments indicesForReshaped {A} _.
Arguments is2DReshaped {A} _.

Definition set_tensor {A} (t : Tensor A) (v : ndarray A) : Tensor A :=
  mkTensor v (glTexture t) (glTextureShape t) (originalShape t)
           (indicesForReshaped t) (is2DReshaped t).

Definition set_glTexture {A} (t : Tensor A) (tex : list A) : Tensor A :=
  mkTensor (tensor t) (Some tex) (glTextureShape t) (originalShape t)
           (indicesForReshaped t) (is2DReshaped t).

(** Modelled from the spec: [new Tensor(data, shape, {type})]: with empty
    [data] and a shape, "a new buffer of that shape, fully zero-initialized";
    with data, an ndarray over that data. *)
Definition new_Tensor {A} `{TypedArray A} (d : list A) (sh : list Z)
    : Tensor A :=
  let v :=
    match d, sh with
    | [], [] => ndarray_of [] []
    | [], _ => ndarray_of (replicate (Z.to_nat (shape_size sh)) zero) sh
    | _, _ => ndarray_of d sh
    end in
  mkTensor v None None None None false.

(** The elements of a view in the order of its index vectors. *)
Definition flatten {A} `{TypedArray A} (v : ndarray A) : list A :=
  (λ idx, default of_undefined (get v idx)) <$> indices (shape v).

(** Modelled from the spec: the table "describing, for each element of the
    original (unpadded, un-reshaped) input, its position in the input's 2D
    texture encoding": both layouts keep the elements in row-major order, so
    the element with flat index [n] sits at linear offset [n]. *)
Definition linear_table (sh : list Z) : IndexTable :=
  {| table_data := seqZ 0 (shape_size sh); table_shape := sh |}.

(** Modelled from the spec: [reshapeTo2D], "a row-major linearization of the
    flattened 4D buffer": one texture row per index of the leading axes, one
    column per index of the last axis. *)
Definition reshapeTo2D {A} `{TypedArray A} (t : Tensor A) : Tensor A :=
  let sh := shape (tensor t) in
  let rows := shape_size (removelast sh) in
  let cols := default 1 (last sh) in
  mkTensor (ndarray_of (flatten (tensor t)) [rows; cols])
           (glTexture t) (glTextureShape t)
           (Some sh) (Some (linear_table sh)) true.

Definition ceil_sqrt (n : Z) : Z :=
  let r := Z.sqrt n in if r * r =? n then r else r + 1.

(** Modelled from the spec: [reshapeTo2DSquare], "a square tiling of it": the
    flat buffer of the tensor is copied, as it lies, to the start of a zeroed
    square of side [ceil (sqrt size)]; the strides and the offset of the host
    view play no part in the copy. *)
Definition reshapeTo2DSquare {A} `{TypedArray A} (t : Tensor A) : Tensor A :=
  let sh := shape (tensor t) in
  let dim := ceil_sqrt (shape_size sh) in
  let d := data (tensor t) in
  mkTensor (ndarray_of
              (d ++ replicate (Z.to_nat (dim * dim) - length d) zero)
              [dim; dim])
           (glTexture t) (glTextureShape t)
           (Some sh) (Some (linear_table sh)) false.

(** Modelled from the spec: the copy into the square is a typed-array [set],
    which throws when the buffer is longer than the square. *)
Definition fits_square {A} (t : Tensor A) : bool :=
  let dim := ceil_sqrt (shape_size (shape (tensor t))) in
  Z.of_nat (length (data (tensor t))) <=? dim * dim.

(** Modelled from the spec: [createGLTexture]: the 2D ndarray is uploaded as
    it is; the texture has its shape. *)
Definition createGLTexture {A} (t : Tensor A) : Tensor A :=
  mkTensor (tensor t) (Some (data (tensor t))) (Some (shape (tensor t)))
           (originalShape t) (indicesForReshaped t) (is2DReshaped t).

(** Modelled from the spec: [transferFromGLTexture], "transfer the result
    texture back to host memory". *)
Definition transferFromGLTexture {A} (t : Tensor A) : option (Tensor A) :=
  tex ← glTexture t;
  sh ← glTextureShape t;
  Some (set_tensor t (ndarray_of tex sh)).

(** Modelled from the spec: [reshapeFrom2D] and [reshapeFrom2DSquare], "decode
    it from its 2D encoding back into the logical 4D shape": the first [size]
    elements of the 2D buffer, under the original shape. *)
Definition reshapeFrom2D {A} (t : Tensor A) : option (Tensor A) :=
  sh ← originalShape t;
  Some (set_tensor t
          (ndarray_of (take (Z.to_nat (shape_size sh)) (data (tensor t))) sh)).

Definition reshapeFrom2DSquare {A} (t : Tensor A) : option (Tensor A) :=
  sh ← originalShape t;
  Some (set_tensor t
          (ndarray_of (take (Z.to_nat (shape_size sh)) (data (tensor t))) sh)).

(** ** The GPU execution engine *)

(** [texelFetch(tex, ivec2(col, row), 0).r]; a fetch outside the texture
    yields zero. *)
Definition texelFetch {A} `{TypedArray A} (tex : list A) (cols col row : Z)
    : A :=
  default zero (read tex (row * cols + col)).

(** Modelled from the spec: the body of the remap program (mapInput.glsl is
    not under [src/]): "for each output texel, the value at the source offset
    named by the index map, or zero if the sentinel is present"; the offset
    is split into a row and a column with the [inputCols] uniform. *)
Definition mapInput {A} `{TypedArray A}
    (x : list A) (xcols inputCols : Z) (idx : Z) : A :=
  if idx =? -1 then zero
  else texelFetch x xcols (idx mod inputCols) (idx / inputCols).

(** Modelled from the spec: [webgl2.runProgram] with the remap program: every
    texel of the output texture is recomputed from the texel of the index
    map at the same position (a fetch outside the index map yields 0). *)
Definition runProgram {A} `{TypedArray A}
    (out x : Tensor A) (imap : Tensor Z) (inputCols : Z) : option (Tensor A) :=
  osh ← glTextureShape out;
  _ ← glTexture out;
  xtex ← glTexture x;
  xsh ← glTextureShape x;
  xcols ← xsh !! 1%nat;
  itex ← glTexture imap;
  Some (set_glTexture out
          ((λ t : nat, mapInput xtex xcols inputCols (default 0 (itex !! t)))
             <$> seq 0 (Z.to_nat (shape_size osh)))).

(** ** The store and the monad of the layer's methods *)

Abbreviation loc := nat (only parsing).

(** Tensor objects by location; [Float32Array] tensors and [Int32Array]
    tensors are kept apart. A new object is appended, so the length of a
    store counts the allocations. *)
Record World (A : Type) := mkWorld {
  floats : list (Tensor A);
  ints : list (Tensor Z)
}.

Arguments mkWorld {A} _ _.
Arguments floats {A} _.
Arguments ints {A} _.

(** The methods of the layer thread the store and may fail. *)
Definition M (A T : Type) : Type := World A → option (T * World A).

#[export] Instance M_ret {A} : MRet (M A) := λ T (t : T) w, Some (t, w).

#[export] Instance M_bind {A} : MBind (M A) :=
  λ T U (k : T → M A U) (c : M A T) w,
    match c w with
    | Some (t, w') => k t w'
    | None => None
    end.

Definition lift {A T} (o : option T) : M A T :=
  λ w, match o with Some t => Some (t, w) | None => None end.

Definition getF {A} (l : loc) : M A (Tensor A) :=
  λ w, match floats w !! l with Some t => Some (t, w) | None => None end.

Definition putF {A} (l : loc) (t : Tensor A) : M A unit :=
  λ w, match floats w !! l with
       | Some _ => Some (tt, mkWorld (<[l := t]> (floats w)) (ints w))
       | None => None
       end.

Definition allocF {A} (t : Tensor A) : M A loc :=
  λ w, Some (length (floats w), mkWorld (floats w ++ [t]) (ints w)).

Definition getI {A} (l : loc) : M A (Tensor Z) :=
  λ w, match ints w !! l with Some t => Some (t, w) | None => None end.

Definition putI {A} (l : loc) (t : Tensor Z) : M A unit :=
  λ w, match ints w !! l with
       | Some _ => Some (tt, mkWorld (floats w) (<[l := t]> (ints w)))
       | None => None
       end.

Definition allocI {A} (t : Tensor Z) : M A loc :=
  λ w, Some (length (ints w), mkWorld (floats w) (ints w ++ [t])).

(** ** The layer *)

(** The values the [padding] attribute can hold. *)
#[warnings="-register-all"]
Inductive jsval :=
| JNum (n : Z)
| JArr (l : list jsval)
| JUndef.

Definition isArray (v : jsval) : bool :=
  match v with JArr _ => true | _ => false end.

(** [v[i]] *)
Definition js_at (v : jsval) (i : nat) : jsval :=
  match v with
  | JArr l => default JUndef (l !! i)
  | _ => JUndef
  end.

Definition pair_of (v : jsval) : jsval := JArr [v; v].

Record Attrs := {
  attr_padding : option jsval;
  attr_data_format : option string;
  attr_gpu : bool   (* what the Layer base class makes of [attrs.gpu] *)
}.

(** The fields of a layer instance. Modelled from the spec: [gpu] and
    [outbound] are set by the Layer base class (Layer.js is not under
    [src/]): the ambient capability flag that selects the GPU path, and the
    downstream consumers of the layer. *)
Record ZeroPadding3D := mkLayer {
  padding : jsval;
  dataFormat : string;
  gpu : bool;
  outbound : list string;
  inputShape : option (list Z);
  outputShape : option (list Z);
  output : option loc;
  indexMap : option loc
}.

Definition set_shapes (L : ZeroPadding3D) (i o : list Z) : ZeroPadding3D :=
  mkLayer (padding L) (dataFormat L) (gpu L) (outbound L)
          (Some i) (Some o) (output L) (indexMap L).

Definition set_output (L : ZeroPadding3D) (o : loc) : ZeroPadding3D :=
  mkLayer (padding L) (dataFormat L) (gpu L) (outbound L)
          (inputShape L) (outputShape L) (Some o) (indexMap L).

Definition set_indexMap (L : ZeroPadding3D) (m : loc) : ZeroPadding3D :=
  mkLayer (padding L) (dataFormat L) (gpu L) (outbound L)
          (inputShape L) (outputShape L) (output L) (Some m).

(** [constructor(attrs = {})] *)
Definition new_ZeroPadding3D (attrs : Attrs) : ZeroPadding3D :=
  let padding :=
    match attr_padding attrs with
    | None | Some JUndef =>
        JArr [pair_of (JNum 1); pair_of (JNum 1); pair_of (JNum 1)]
    | Some p => p
    end in
  let data_format := default "channels_last"%string (attr_data_format attrs) in
  mkLayer
    (if isArray padding then
       if isArray (js_at padding 0) then padding
       else JArr [pair_of (js_at padding 0); pair_of (js_at padding 1);
                  pair_of (js_at padding 2)]
     else JArr [pair_of padding; pair_of padding; pair_of padding])
    data_format (attr_gpu attrs) [] None None None None.

(** [this.padding[i][j]], when it is a number. *)
Definition pad (L : ZeroPadding3D) (i j : nat) : option Z :=
  match js_at (js_at (padding L) i) j with
  | JNum n => Some n
  | _ => None
  end.

Definition channels_first (L : ZeroPadding3D) : bool :=
  String.eqb (dataFormat L) "channels_first".

(** The output shape with the channel axis last (lines 74-79 and 165-170). *)
Definition padded_last (L : ZeroPadding3D) (sh : list Z) : option (list Z) :=
  s0 ← sh !! 0%nat; s1 ← sh !! 1%nat; s2 ← sh !! 2%nat; s3 ← sh !! 3%nat;
  p00 ← pad L 0 0; p01 ← pad L 0 1;
  p10 ← pad L 1 0; p11 ← pad L 1 1;
  p20 ← pad L 2 0; p21 ← pad L 2 1;
  Some [s0 + p00 + p01; s1 + p10 + p11; s2 + p20 + p21; s3].

(** The output shape with the channel axis first (lines 159-164). *)
Definition padded_first (L : ZeroPadding3D) (sh : list Z) : option (list Z) :=
  s0 ← sh !! 0%nat; s1 ← sh !! 1%nat; s2 ← sh !! 2%nat; s3 ← sh !! 3%nat;
  p00 ← pad L 0 0; p01 ← pad L 0 1;
  p10 ← pad L 1 0; p11 ← pad L 1 1;
  p20 ← pad L 2 0; p21 ← pad L 2 1;
  Some [s0; s1 + p00 + p01; s2 + p10 + p11; s3 + p20 + p21].

(** Start and end of the copied region with the channel axis last. *)
Definition slice_last (L : ZeroPadding3D) (sh : list Z)
    : option (list Z * list Z) :=
  s0 ← sh !! 0%nat; s1 ← sh !! 1%nat; s2 ← sh !! 2%nat; s3 ← sh !! 3%nat;
  p00 ← pad L 0 0; p10 ← pad L 1 0; p20 ← pad L 2 0;
  Some ([p00; p10; p20; 0], [s0 + p00; s1 + p10; s2 + p20; s3]).

(** Start and end of the copied region with the channel axis first. *)
Definition slice_first (L : ZeroPadding3D) (sh : list Z)
    : option (list Z * list Z) :=
  s0 ← sh !! 0%nat; s1 ← sh !! 1%nat; s2 ← sh !! 2%nat; s3 ← sh !! 3%nat;
  p00 ← pad L 0 0; p10 ← pad L 1 0; p20 ← pad L 2 0;
  Some ([0; p00; p10; p20], [s0; s1 + p00; s2 + p10; s3 + p20]).

(** [_callCPU(x)] *)
Definition _callCPU {A} `{TypedArray A} (L : ZeroPadding3D) (x : loc)
    : M A ZeroPadding3D :=
  (if channels_first L then
     xt ← getF x;
     v ← lift (transpose [1; 2; 3; 0]%nat (tensor xt));
     putF x (set_tensor xt v)
   else mret ());;
  xt ← getF x;
  let ishape := shape (tensor xt) in
  oshape ← lift (padded_last L ishape);
  let L := set_shapes L ishape oshape in
  o ← allocF (new_Tensor [] oshape);
  let L := set_output L o in
  ot ← getF o;
  sl ← lift (slice_last L ishape);
  putF o (set_tensor ot
            (with_data (tensor ot)
               (assign (lo sl.1 (hi sl.2 (tensor ot))) (tensor xt))));;
  (if channels_first L then
     xt ← getF x;
     v ← lift (transpose [3; 0; 1; 2]%nat (tensor xt));
     putF x (set_tensor xt v);;
     ot ← getF o;
     v ← lift (transpose [3; 0; 1; 2]%nat (tensor ot));
     putF o (set_tensor ot v)
   else mret ());;
  mret L.

(** Lines 111-135 of [_createIndexMap]: the index tensor before it is laid
    out in 2D. *)
Definition indexMap_tensor (L : ZeroPadding3D) (tb : IndexTable)
    : option (ndarray Z) :=
  let indices := new_Tensor (table_data tb) (table_shape tb) in
  oshape ← outputShape L;
  let m := tensor (new_Tensor [] oshape) in
  ishape ← inputShape L;
  sl ← (if channels_first L then slice_first L ishape else slice_last L ishape);
  let m := with_data m (assigns m (-1)) in
  Some (with_data m (assign (lo sl.1 (hi sl.2 m)) (tensor indices))).

(** [_createIndexMap(indicesForReshaped, is2DReshaped)] *)
Definition _createIndexMap {A} (L : ZeroPadding3D)
    (indicesForReshaped : option IndexTable) (is2D : bool) : M A ZeroPadding3D :=
  match indexMap L with
  | Some _ => mret L
  | None =>
      tb ← lift indicesForReshaped;
      _ ← allocI (new_Tensor (table_data tb) (table_shape tb));
      oshape ← lift (outputShape L);
      m ← allocI (new_Tensor [] oshape);
      let L := set_indexMap L m in
      v ← lift (indexMap_tensor L tb);
      mt ← getI m;
      putI m (set_tensor mt v);;
      mt ← getI m;
      putI m (if is2D then reshapeTo2D mt else reshapeTo2DSquare mt);;
      mt ← getI m;
      putI m (createGLTexture mt);;
      mret L
  end.

(** Lines 151-155 of [_callGPU]: an input without a texture is laid out as
    a square and uploaded; the run breaks off when the layout throws. *)
Definition ensureGLTexture {A} `{TypedArray A} (x : loc) : M A unit :=
  xt ← getF x;
  match glTexture xt with
  | None =>
      if fits_square xt then putF x (createGLTexture (reshapeTo2DSquare xt))
      else lift None
  | Some _ => mret ()
  end.

(** Lines 156-199 of [_callGPU]: shapes, caches, the remap program and the
    readback. *)
Definition remap {A} `{TypedArray A} (L : ZeroPadding3D) (x : loc)
    : M A ZeroPadding3D :=
  xt ← getF x;
  ishape ← lift (originalShape xt);
  oshape ← lift (if channels_first L then padded_first L ishape
                 else padded_last L ishape);
  let L := set_shapes L ishape oshape in
  L ← _createIndexMap L (indicesForReshaped xt) (is2DReshaped xt);
  L ← (match output L with
       | Some _ => mret L
       | None =>
           o ← allocF (new_Tensor [] oshape);
           ot ← getF o;
           putF o (createGLTexture
                     (if is2DReshaped xt then reshapeTo2D ot
                      else reshapeTo2DSquare ot));;
           mret (set_output L o)
       end);
  o ← lift (output L);
  m ← lift (indexMap L);
  ot ← getF o;
  mt ← getI m;
  xsh ← lift (glTextureShape xt);
  inputCols ← lift (xsh !! 1%nat);
  ot ← lift (runProgram ot xt mt inputCols);
  putF o ot;;
  (match outbound L with
   | [] =>
       ot ← getF o;
       ot ← lift (transferFromGLTexture ot);
       ot ← lift (if is2DReshaped ot then reshapeFrom2D ot
                  else reshapeFrom2DSquare ot);
       putF o ot
   | _ => mret ()
   end);;
  mret L.

(** [_callGPU(x)] *)
Definition _callGPU {A} `{TypedArray A} (L : ZeroPadding3D) (x : loc)
    : M A ZeroPadding3D :=
  ensureGLTexture x;; remap L x.

(** [call(x)]: the layer after the call and [this.output]. *)
Definition call {A} `{TypedArray A} (L : ZeroPadding3D) (x : loc)
    : M A (ZeroPadding3D * option loc) :=
  L ← (if gpu L then _callGPU L x else _callCPU L x);
  mret (L, output L).

(** Repeated invocation of one instance: the inputs in order. *)
Fixpoint calls {A} `{TypedArray A} (L : ZeroPadding3D) (xs : list loc)
    : M A ZeroPadding3D :=
  match xs with
  | [] => mret L
  | x :: xs' => r ← call L x; calls r.1 xs'
  end.

(** ** Vocabulary of the statements *)

(** The normalized padding spec [[b0, a0], [b1, a1], [b2, a2]] with
    non-negative entries. *)
Definition normalized (L : ZeroPadding3D) (b0 a0 b1 a1 b2 a2 : Z) : Prop :=
  padding L = JArr [JArr [JNum b0; JNum a0]; JArr [JNum b1; JNum a1];
                    JArr [JNum b2; JNum a2]]
  ∧ 0 ≤ b0 ∧ 0 ≤ a0 ∧ 0 ≤ b1 ∧ 0 ≤ a1 ∧ 0 ≤ b2 ∧ 0 ≤ a2.

(** The extents of a rank-4 tensor in buffer order: the channel axis first
    or last. *)
Definition layout (first : bool) (s0 s1 s2 c : Z) : list Z :=
  if first then [c; s0; s1; s2] else [s0; s1; s2; c].

(** A rank-4 view with spatial extents [s0, s1, s2] and [c] channels, in
    the given axis order. *)
Definition rank4 {A} (first : bool) (v : ndarray A) (s0 s1 s2 c : Z) : Prop :=
  shape v = layout first s0 s1 s2 c ∧ length (stride v) = 4%nat
  ∧ 0 ≤ s0 ∧ 0 ≤ s1 ∧ 0 ≤ s2 ∧ 0 ≤ c.

(** The operator as configured with the padding spec
    [[b0, a0], [b1, a1], [b2, a2]], an axis order and an execution path. *)
Definition configured (df : option string) (b0 a0 b1 a1 b2 a2 : Z) (g : bool)
    : ZeroPadding3D :=
  new_ZeroPadding3D
    {| attr_padding :=
         Some (JArr [JArr [JNum b0; JNum a0]; JArr [JNum b1; JNum a1];
                     JArr [JNum b2; JNum a2]]);
       attr_data_format := df;
       attr_gpu := g |}.

(** A GPU-path instance that has not been called yet. *)
Definition fresh_gpu (L : ZeroPadding3D) : Prop :=
  gpu L = true ∧ indexMap L = None ∧ output L = None.

(** The output tensor of a call, read from the final store. *)
Definition output_of {A} (r : option (ZeroPadding3D * option loc * World A))
    : option (ndarray A) :=
  match r with
  | Some (_, Some o, w) => tensor <$> floats w !! o
  | _ => None
  end.

(** The output tensor of a run of the CPU path. *)
Definition cpu_result {A} `{TypedArray A} (L : ZeroPadding3D) (x : loc)
    (w : World A) : option (ndarray A) :=
  match _callCPU L x w with
  | Some (L', w') =>
      match output L' with
      | Some o => tensor <$> floats w' !! o
      | None => None
      end
  | None => None
  end.

(** [out] is [src] zero-padded: it holds [src] on the region of extents [ish]
    at [start], and zero on the rest of the shape [osh]. *)
Definition pads_to {A} `{TypedArray A} (start ish osh : list Z)
    (src out : list Z → option A) : Prop :=
  (∀ j, in_box j ish → out (zip_with Z.add start j) = src j) ∧
  (∀ idx, in_box idx osh →
          (∀ j, in_box j ish → idx ≠ zip_with Z.add start j) →
          out idx = Some zero).

(** The element of a tensor at [idx]: in the host buffer or, once the tensor
    is on the GPU, in its texture at the offset its table names. *)
Definition element {A} (t : Tensor A) (idx : list Z) : option A :=
  match glTexture t with
  | None => get (tensor t) idx
  | Some tex =>
      tb ← indicesForReshaped t;
      q ← get (ndarray_of (table_data tb) (table_shape tb)) idx;
      read tex q
  end.

(** A host tensor as the Tensor constructor builds it: the row-major view of
    its whole buffer, which has one element per index of the shape. *)
Definition contiguous {A} (v : ndarray A) : Prop :=
  stride v = row_major (shape v) ∧ offset v = 0 ∧
  Z.of_nat (length (data v)) = shape_size (shape v).

(** An input the GPU path accepts, of logical shape [sh]: a host tensor that
    is the row-major view of its whole buffer, or a tensor already laid out
    as a texture that holds all its elements, with its offset table. *)
Definition gpu_input {A} (sh : list Z) (t : Tensor A) : Prop :=
  match glTexture t with
  | None => shape (tensor t) = sh ∧ in_bounds (tensor t) = true
            ∧ contiguous (tensor t)
  | Some tex =>
      originalShape t = Some sh ∧
      indicesForReshaped t = Some (linear_table sh) ∧
      (∃ rows cols, glTextureShape t = Some [rows; cols]) ∧
      ∀ idx, in_box idx sh → is_Some (read tex (dot (row_major sh) idx))
  end.

(** [y] names an input of logical shape [sh] in the store [w]. *)
Definition is_input {A} (sh : list Z) (w : World A) (y : loc) : Prop :=
  ∃ yt, floats w !! y = Some yt ∧ gpu_input sh yt.

(** The elements of a tensor at index [i] along axis 0, in row-major order
    of the remaining axes. *)
Definition slice0 {A} (v : ndarray A) (i : Z) : list (option A) :=
  (λ idx, get v (i :: idx)) <$> indices (tail (shape v)).

(** ** Auxiliary definitions of the proofs *)

(** The tensor of shape [osh] that is zero except for the region of extents
    [ish] at [start], which holds [src]. *)
Definition padded {A} `{TypedArray A} (osh start ish : list Z) (src : ndarray A)
    : ndarray A :=
  ndarray_of
    (assign (NdArray (replicate (Z.to_nat (shape_size osh)) zero) ish
                     (row_major osh) (dot (row_major osh) start))
            src)
    osh.

(** The view [v] with its axes re-ordered: what [transpose] returns on a
    view that has all the axes named. *)
Definition permute {A} (axes : list nat) (v : ndarray A) : ndarray A :=
  NdArray (data v)
          ((λ a, default 0 (shape v !! a)) <$> axes)
          ((λ a, default 0 (stride v !! a)) <$> axes)
          (offset v).

(** The index tensor of shape [osh]: the sentinel [-1] everywhere, except on
    the region of extents [ish] at [start], which holds [table]. *)
Definition sentinel_map (osh start ish : list Z) (table : ndarray Z)
    : ndarray Z :=
  ndarray_of
    (assign
       (NdArray
          (assigns (ndarray_of (replicate (Z.to_nat (shape_size osh)) 0) osh)
                   (-1))
          ish (row_major osh) (dot (row_major osh) start))
       table)
    osh.

(** The first step of the GPU path: a tensor that has no texture yet is laid
    out as a square and uploaded. *)
Definition upload {A} `{TypedArray A} (t : Tensor A) : Tensor A :=
  match glTexture t with
  | None => createGLTexture (reshapeTo2DSquare t)
  | Some _ => t
  end.

(** The last step of the GPU path: the readback, done when the layer has no
    downstream consumer. *)
Definition readback {A} (outbound : list string) (t : Tensor A)
    : option (Tensor A) :=
  match outbound with
  | [] =>
      t ← transferFromGLTexture t;
      if is2DReshaped t then reshapeFrom2D t else reshapeFrom2DSquare t
  | _ => Some t
  end.

(** The texture of [t] holds the element [f idx] of each index vector of
    [sh] at its row-major offset, and [t] carries the offset table of
    [sh]. *)
Definition uploaded {A} (sh : list Z) (f : list Z → option A) (t : Tensor A)
    : Prop :=
  ∃ tex rows cols,
    glTexture t = Some tex ∧ glTextureShape t = Some [rows; cols] ∧
    originalShape t = Some sh ∧
    indicesForReshaped t = Some (linear_table sh) ∧
    ∀ idx, in_box idx sh →
           read tex (dot (row_major sh) idx) = f idx ∧ is_Some (f idx).

(** The texture of the index map names, for each output element, the offset
    of its source element or the sentinel. *)
Definition index_map_ok (start ish osh : list Z) (t : Tensor Z) : Prop :=
  ∃ tex,
    glTexture t = Some tex ∧
    ∀ idx, in_box idx osh →
           read tex (dot (row_major osh) idx)
           = get (sentinel_map osh start ish
                    (ndarray_of (seqZ 0 (shape_size ish)) ish)) idx.

(** The output object has a texture large enough for the shape [osh], and
    the offset table of [osh]. *)
Definition output_ok {A} (osh : list Z) (t : Tensor A) : Prop :=
  ∃ tex rows cols,
    glTexture t = Some tex ∧ glTextureShape t = Some [rows; cols] ∧
    shape_size osh ≤ shape_size [rows; cols] ∧
    originalShape t = Some osh ∧
    indicesForReshaped t = Some (linear_table osh).

(** Every tensor that was an input of logical shape [sh] in the store [w0] is
    still one in [w], with the same elements. *)
Definition inputs_kept {A} (sh : list Z) (w0 w : World A) : Prop :=
  ∀ y yt0,
    floats w0 !! y = Some yt0 → gpu_input sh yt0 →
    ∃ yt, floats w !! y = Some yt ∧ gpu_input sh yt ∧
          ∀ idx, in_box idx sh → element yt idx = element yt0 idx.

(** The state of a GPU-path instance between two calls on inputs of one
    shape: the index map [m] and the output object [o] are cached and fit
    that shape, and the inputs found in the initial store [w0] are intact. *)
Definition gpu_inv {A} (first : bool) (b0 a0 b1 a1 b2 a2 s0 s1 s2 c : Z)
    (w0 : World A) (m o : loc) (L : ZeroPadding3D) (w : World A) : Prop :=
  channels_first L = first ∧ normalized L b0 a0 b1 a1 b2 a2 ∧ gpu L = true ∧
  indexMap L = Some m ∧ output L = Some o ∧
  (length (floats w0) ≤ o)%nat ∧
  (∃ mt, ints w !! m = Some mt ∧
         index_map_ok (layout first b0 b1 b2 0) (layout first s0 s1 s2 c)
           (layout first (s0 + b0 + a0) (s1 + b1 + a1) (s2 + b2 + a2) c) mt) ∧
  (∃ ot, floats w !! o = Some ot ∧
         output_ok (layout first (s0 + b0 + a0) (s1 + b1 + a1) (s2 + b2 + a2) c)
           ot) ∧
  inputs_kept (layout first s0 s1 s2 c) w0 w.

(** ** The concrete scenario *)

(** The numbers of the scenario: integer-valued floats, and NaN. *)
Inductive sample :=
| Num (n : Z)
| NaN.

#[export] Instance Float32Array : TypedArray sample :=
  {| zero := Num 0; of_undefined := NaN |}.

(** Input of shape [2,2,2,1] filled with 1s. *)
Definition ones : Tensor sample :=
  new_Tensor (replicate 8 (Num 1)) [2; 2; 2; 1].

Definition scenario_world : World sample := mkWorld [ones] [].

(** Padding [[1,0],[0,1],[0,0]], channels-last, on the CPU. *)
Definition scenario_layer : ZeroPadding3D :=
  new_ZeroPadding3D
    {| attr_padding :=
         Some (JArr [JArr [JNum 1; JNum 0]; JArr [JNum 0; JNum 1];
                     JArr [JNum 0; JNum 0]]);
       attr_data_format := Some "channels_last"%string;
       attr_gpu := false |}.

Definition scenario_output : option (ndarray sample) :=
  output_of (call scenario_layer 0%nat scenario_world).

(** The scenario's configuration on the GPU path. *)
Definition gpu_layer : ZeroPadding3D :=
  new_ZeroPadding3D
    {| attr_padding :=
         Some (JArr [JArr [JNum 1; JNum 0]; JArr [JNum 0; JNum 1];
                     JArr [JNum 0; JNum 0]]);
       attr_data_format := Some "channels_last"%string;
       attr_gpu := true |}.

(** A second input of the scenario's shape, and one of another shape. *)
Definition counting : Tensor sample :=
  new_Tensor (Num <$> seqZ 1 8) [2; 2; 2; 1].

Definition small : Tensor sample := new_Tensor [Num 5; Num 7] [1; 1; 2; 1].

Definition three_inputs : World sample := mkWorld [ones; counting; small] [].

(** The scenario's GPU configuration inside a pipeline: the layer has a
    downstream consumer. *)
Definition gpu_inner_layer : ZeroPadding3D :=
  mkLayer (padding gpu_layer) (dataFormat gpu_layer) (gpu gpu_layer)
          ["conv"%string] None None None None.

(** A host tensor that is not the row-major view of its buffer: the counting
    input with its first two axes exchanged, strides [2,4,1,1] over the
    buffer 1..8. *)
Definition strided : Tensor sample :=
  mkTensor (NdArray (Num <$> seqZ 1 8) [2; 2; 2; 1] [2; 4; 1; 1] 0)
           None None None None false.

Definition strided_world : World sample := mkWorld [strided] [].

(** * Properties *)

(** ** Shapes, index vectors and row-major positions *)

Lemma fold_left_mul (l : list Z) (a : Z) :
  fold_left Z.mul l a = a * fold_left Z.mul l 1.
Proof.
  revert a. induction l as [|n l IH]; intros a; simpl; [lia|].
  rewrite (IH (a * n)), (IH (1 * n)). lia.
Qed.

Lemma shape_size_cons n t : shape_size (n :: t) = n * shape_size t.
Proof. unfold shape_size. simpl. rewrite fold_left_mul. lia. Qed.

Lemma shape_size_nil : shape_size [] = 1.
Proof. reflexivity. Qed.

Lemma shape_size_nonneg sh : Forall (λ n, 0 ≤ n) sh → 0 ≤ shape_size sh.
Proof.
  induction 1 as [|n t Hn _ IH]; [rewrite shape_size_nil; lia|].
  rewrite shape_size_cons. lia.
Qed.

Lemma in_box_length idx sh : in_box idx sh → length idx = length sh.
Proof. apply Forall2_length. Qed.

Lemma in_box_nonneg idx sh : in_box idx sh → Forall (λ n, 0 ≤ n) sh.
Proof. induction 1; constructor; auto; lia. Qed.

Lemma elem_of_indices idx sh : idx ∈ indices sh ↔ in_box idx sh.
Proof.
  revert idx. induction sh as [|n t IH]; intros idx; simpl.
  - rewrite list_elem_of_singleton. split.
    + intros ->. constructor.
    + intros Hb. by inversion Hb.
  - rewrite list_elem_of_bind. split.
    + intros (i & Hin & Hi). apply list_elem_of_fmap in Hin as (r & -> & Hr).
      apply elem_of_seqZ in Hi. constructor; [lia|]. by apply IH.
    + intros Hb. inversion Hb as [|i m r t' Hi Hr]; subst.
      exists i. split; [|apply elem_of_seqZ; lia].
      apply list_elem_of_fmap. exists r. split; [done|]. by apply IH.
Qed.

Lemma dot_row_major_bounds idx sh :
  in_box idx sh → 0 ≤ dot (row_major sh) idx < shape_size sh.
Proof.
  induction 1 as [|i n idx t Hi _ IH]; simpl.
  - rewrite shape_size_nil. lia.
  - rewrite shape_size_cons. nia.
Qed.

Lemma dot_row_major_inj idx idx' sh :
  in_box idx sh → in_box idx' sh →
  dot (row_major sh) idx = dot (row_major sh) idx' → idx = idx'.
Proof.
  intros Hb. revert idx'.
  induction Hb as [|i n idx t Hi Hb IH]; intros idx' Hb' Heq.
  - by inversion Hb'.
  - inversion Hb' as [|i' n' r' t' Hi' Hr']; subst. simpl in Heq.
    pose proof (dot_row_major_bounds _ _ Hb) as B1.
    pose proof (dot_row_major_bounds _ _ Hr') as B2.
    assert (i = i') as -> by nia.
    f_equal. apply IH; [done|lia].
Qed.

Lemma dot_add st a b :
  length a = length b →
  dot st (zip_with Z.add a b) = dot st a + dot st b.
Proof.
  revert a b. induction st as [|s st IH]; intros [|x a] [|y b] Hl;
    simpl in *; try lia.
  rewrite IH by lia. lia.
Qed.

(** The position of an index vector in the enumeration is its row-major
    position. *)
Lemma lookup_bind_block {X Y} (f : X → list Y) (l : list X) (m k r : nat) x :
  (∀ y, length (f y) = m) → l !! k = Some x → (r < m)%nat →
  (l ≫= f) !! (k * m + r)%nat = f x !! r.
Proof.
  intros Hm. revert k. induction l as [|y l IH]; intros k Hk Hr; [done|].
  rewrite bind_cons. destruct k as [|k]; simpl in *.
  - injection Hk as ->. rewrite lookup_app_l; [done|]. by rewrite Hm.
  - rewrite lookup_app_r; rewrite Hm; [|lia].
    replace (m + k * m + r - m)%nat with (k * m + r)%nat by lia. by apply IH.
Qed.

Lemma length_bind_block {X Y} (f : X → list Y) (l : list X) (m : nat) :
  (∀ y, length (f y) = m) → length (l ≫= f) = (length l * m)%nat.
Proof.
  intros Hm. induction l as [|y l IH]; [done|].
  rewrite bind_cons, length_app, Hm, IH. simpl. lia.
Qed.

Lemma length_indices sh :
  Forall (λ n, 0 ≤ n) sh → length (indices sh) = Z.to_nat (shape_size sh).
Proof.
  induction 1 as [|n t Hn Ht IH]; [done|].
  cbn [indices]. rewrite shape_size_cons.
  rewrite (length_bind_block _ _ (Z.to_nat (shape_size t))).
  - rewrite length_seqZ. pose proof (shape_size_nonneg _ Ht). nia.
  - intros y. by rewrite length_fmap.
Qed.

Lemma lookup_indices idx sh :
  in_box idx sh →
  indices sh !! Z.to_nat (dot (row_major sh) idx) = Some idx.
Proof.
  induction 1 as [|i n idx t Hi Hb IH]; [done|].
  cbn [indices row_major dot]. pose proof (dot_row_major_bounds _ _ Hb) as B.
  pose proof (in_box_nonneg _ _ Hb) as Hnn.
  replace (Z.to_nat (shape_size t * i + dot (row_major t) idx))
    with (Z.to_nat i * Z.to_nat (shape_size t)
          + Z.to_nat (dot (row_major t) idx))%nat by nia.
  rewrite (lookup_bind_block _ _ (Z.to_nat (shape_size t)) _ _ i).
  - by rewrite list_lookup_fmap, IH.
  - intros y. by rewrite length_fmap, length_indices.
  - rewrite lookup_seqZ_lt by lia. f_equal. lia.
  - lia.
Qed.

(** ** Writes into a typed array *)

Section buffers.
Context {A : Type}.
Implicit Types (d : list A) (ws : list (Z * A)).

Lemma length_write d p a : length (write d p a) = length d.
Proof. unfold write. destruct (p <? 0); [done|]. apply length_insert. Qed.

Lemma write_all_snoc d ws w :
  write_all d (ws ++ [w]) = write (write_all d ws) w.1 w.2.
Proof. unfold write_all. by rewrite foldl_snoc. Qed.

Lemma length_write_all d ws : length (write_all d ws) = length d.
Proof.
  induction ws as [|w ws IH] using rev_ind; [done|].
  by rewrite write_all_snoc, length_write.
Qed.

Lemma read_write_eq d p a :
  0 ≤ p < Z.of_nat (length d) → read (write d p a) p = Some a.
Proof.
  intros Hp. unfold read, write.
  destruct (p <? 0) eqn:E; [lia|]. apply list_lookup_insert_eq. lia.
Qed.

Lemma read_write_ne d p q a : p ≠ q → read (write d p a) q = read d q.
Proof.
  intros Hne. unfold read, write.
  destruct (q <? 0) eqn:Eq; [done|]. destruct (p <? 0) eqn:Ep; [done|].
  apply list_lookup_insert_ne. lia.
Qed.

(** A position no write names keeps its element. *)
Lemma read_write_all_miss d ws q :
  (∀ w, w ∈ ws → w.1 ≠ q) → read (write_all d ws) q = read d q.
Proof.
  induction ws as [|w ws IH] using rev_ind; intros Hq; [done|].
  rewrite write_all_snoc, read_write_ne.
  - apply IH. intros w' Hw'. apply Hq, elem_of_app. by left.
  - apply Hq, elem_of_app. right. by apply list_elem_of_singleton.
Qed.

(** A position that is written, always with the same element, holds it. *)
Lemma read_write_all_hit d ws q a :
  0 ≤ q < Z.of_nat (length d) →
  (q, a) ∈ ws → (∀ a', (q, a') ∈ ws → a' = a) →
  read (write_all d ws) q = Some a.
Proof.
  intros Hq. induction ws as [|[p b] ws IH] using rev_ind; intros Hin Hfun.
  - by apply elem_of_nil in Hin.
  - rewrite write_all_snoc. simpl. destruct (decide (p = q)) as [->|Hne].
    + rewrite (Hfun b)
        by (apply elem_of_app; right; by apply list_elem_of_singleton).
      apply read_write_eq. by rewrite length_write_all.
    + rewrite read_write_ne by done. apply IH.
      * apply elem_of_app in Hin as [Hin|Hin]; [done|].
        apply list_elem_of_singleton in Hin. congruence.
      * intros a' Ha'. apply Hfun, elem_of_app. by left.
Qed.
End buffers.

(** ** The rectangular copy *)

Lemma hi_shape_fits start ish osh :
  fits start ish osh →
  hi_shape osh (zip_with Z.add ish start) = zip_with Z.add ish start.
Proof.
  induction 1 as [|b s o start ish osh Hb _ IH]; [done|].
  simpl. rewrite IH. destruct (s + b <? 0) eqn:E; [lia|done].
Qed.

Lemma lo_shape_fits start ish osh :
  fits start ish osh → lo_shape (zip_with Z.add ish start) start = ish.
Proof.
  induction 1 as [|b s o start ish osh Hb _ IH]; [done|].
  simpl. rewrite IH. destruct (0 <=? b) eqn:E; [f_equal; lia|lia].
Qed.

Lemma lo_offset_dot st start :
  Forall (λ b, 0 ≤ b) start → lo_offset st start = dot st start.
Proof.
  intros Hs. revert st. induction Hs as [|b start Hb _ IH]; intros [|s st];
    simpl; try done.
  rewrite IH. destruct (0 <=? b) eqn:E; lia.
Qed.

Lemma fits_start_nonneg start ish osh :
  fits start ish osh → Forall (λ b, 0 ≤ b) start.
Proof. induction 1; constructor; auto; lia. Qed.

Lemma fits_lengths start ish osh :
  fits start ish osh → length start = length ish ∧ length ish = length osh.
Proof. induction 1; simpl; lia. Qed.

Lemma in_box_shift start ish osh j :
  fits start ish osh → in_box j ish → in_box (zip_with Z.add start j) osh.
Proof.
  intros Hf. revert j. unfold in_box.
  induction Hf as [|b s o start ish osh Hb _ IH]; intros j Hj.
  - inversion Hj. constructor.
  - inversion Hj as [|i n j' t Hi Hj']; subst. simpl. constructor; [lia|auto].
Qed.

Lemma zip_add_inj (start j j' : list Z) :
  length j = length start → length j' = length start →
  zip_with Z.add start j = zip_with Z.add start j' → j = j'.
Proof.
  revert j j'. induction start as [|b start IH]; intros [|x j] [|y j'] H1 H2 He;
    simpl in *; try done.
  injection He as Hx He. f_equal; [lia|]. apply IH; auto.
Qed.

(** The view [m.hi(...end).lo(...start)] of a row-major tensor. *)
Lemma hi_lo_view {A} (d : list A) start ish osh :
  fits start ish osh →
  lo start (hi (zip_with Z.add ish start) (ndarray_of d osh))
  = NdArray d ish (row_major osh) (dot (row_major osh) start).
Proof.
  intros Hf. unfold lo, hi, ndarray_of. simpl.
  rewrite (hi_shape_fits _ _ _ Hf), (lo_shape_fits _ _ _ Hf).
  rewrite lo_offset_dot by eauto using fits_start_nonneg. done.
Qed.

Section copy.
Context {A : Type} `{TypedArray A}.
Variables (d : list A) (start ish osh : list Z) (src : ndarray A).
Hypothesis Hfits : fits start ish osh.
Hypothesis Hlen : length d = Z.to_nat (shape_size osh).

Let dest := NdArray d ish (row_major osh) (dot (row_major osh) start).

Lemma index_region j :
  in_box j ish →
  index dest j = dot (row_major osh) (zip_with Z.add start j).
Proof.
  intros Hj. unfold index. simpl. rewrite dot_add; [done|].
  apply in_box_length in Hj. destruct (fits_lengths _ _ _ Hfits). lia.
Qed.

(** Inside the region the buffer holds the elements of the source. *)
Lemma assign_inside j :
  in_box j ish →
  read (assign dest src) (dot (row_major osh) (zip_with Z.add start j))
  = Some (default of_undefined (get src j)).
Proof.
  intros Hj. unfold assign.
  pose proof (in_box_shift _ _ _ _ Hfits Hj) as Hsj.
  pose proof (dot_row_major_bounds _ _ Hsj) as Hb.
  apply read_write_all_hit.
  - unfold dest. simpl. rewrite Hlen. lia.
  - apply list_elem_of_fmap. exists j. split.
    + by rewrite index_region.
    + by apply elem_of_indices.
  - intros a' Ha'. apply list_elem_of_fmap in Ha' as (j' & Heq & Hj').
    apply elem_of_indices in Hj'. change (in_box j' ish) in Hj'.
    injection Heq as Hi ->.
    rewrite index_region in Hi by done.
    apply dot_row_major_inj in Hi; eauto using in_box_shift.
    apply zip_add_inj in Hi; [by subst| |].
    + apply in_box_length in Hj. destruct (fits_lengths _ _ _ Hfits). lia.
    + apply in_box_length in Hj'. destruct (fits_lengths _ _ _ Hfits). lia.
Qed.

(** Outside the region the buffer is untouched. *)
Lemma assign_outside idx :
  in_box idx osh →
  (∀ j, in_box j ish → idx ≠ zip_with Z.add start j) →
  read (assign dest src) (dot (row_major osh) idx)
  = read d (dot (row_major osh) idx).
Proof.
  intros Hidx Hout. unfold assign. apply read_write_all_miss.
  intros w Hw. apply list_elem_of_fmap in Hw as (j & -> & Hj).
  apply elem_of_indices in Hj. change (in_box j ish) in Hj.
  simpl. rewrite index_region by done.
  intros Heq. apply dot_row_major_inj in Heq; eauto using in_box_shift.
  by apply (Hout j).
Qed.
End copy.

(** A freshly allocated buffer reads zero everywhere inside its shape. *)
Lemma read_replicate {A} (a : A) (n p : Z) :
  0 ≤ p < n → read (replicate (Z.to_nat n) a) p = Some a.
Proof.
  intros Hp. unfold read. destruct (p <? 0) eqn:E; [lia|].
  apply lookup_replicate. split; [done|lia].
Qed.

(** ** The CPU path *)

Lemma get_ndarray_of {A} (d : list A) sh idx :
  get (ndarray_of d sh) idx = read d (dot (row_major sh) idx).
Proof. unfold get, index, ndarray_of. simpl. f_equal. Qed.

Lemma in_bounds_get {A} (v : ndarray A) idx :
  in_bounds v = true → in_box idx (shape v) → is_Some (get v idx).
Proof.
  unfold in_bounds. rewrite forallb_forall. intros Hall Hidx.
  apply elem_of_indices, list_elem_of_In, Hall in Hidx.
  destruct (get v idx); [eauto|done].
Qed.

Section padded.
Context {A : Type} `{TypedArray A}.
Variables (start ish osh : list Z) (src : ndarray A).
Hypothesis Hfits : fits start ish osh.

Lemma padded_inside j :
  in_box j ish →
  get (padded osh start ish src) (zip_with Z.add start j)
  = Some (default of_undefined (get src j)).
Proof.
  intros Hj. unfold padded. rewrite get_ndarray_of.
  apply assign_inside; [done| |done]. by rewrite length_replicate.
Qed.

Lemma padded_outside idx :
  in_box idx osh →
  (∀ j, in_box j ish → idx ≠ zip_with Z.add start j) →
  get (padded osh start ish src) idx = Some zero.
Proof.
  intros Hidx Hout. unfold padded. rewrite get_ndarray_of.
  rewrite assign_outside; [|done|by rewrite length_replicate|done|done].
  apply read_replicate. by apply dot_row_major_bounds.
Qed.
End padded.

Lemma pad_normalized L b0 a0 b1 a1 b2 a2 :
  normalized L b0 a0 b1 a1 b2 a2 →
  pad L 0 0 = Some b0 ∧ pad L 0 1 = Some a0 ∧ pad L 1 0 = Some b1 ∧
  pad L 1 1 = Some a1 ∧ pad L 2 0 = Some b2 ∧ pad L 2 1 = Some a2.
Proof. intros [Hp _]. unfold pad. rewrite Hp. by repeat split. Qed.

Lemma padded_last_normalized L b0 a0 b1 a1 b2 a2 s0 s1 s2 c :
  normalized L b0 a0 b1 a1 b2 a2 →
  padded_last L [s0; s1; s2; c]
  = Some [s0 + b0 + a0; s1 + b1 + a1; s2 + b2 + a2; c].
Proof.
  intros Hn.
  destruct (pad_normalized _ _ _ _ _ _ _ Hn)
    as (P00 & P01 & P10 & P11 & P20 & P21).
  unfold padded_last. rewrite P00, P01, P10, P11, P20, P21. done.
Qed.

Lemma slice_last_normalized L b0 a0 b1 a1 b2 a2 s0 s1 s2 c :
  normalized L b0 a0 b1 a1 b2 a2 →
  slice_last L [s0; s1; s2; c]
  = Some ([b0; b1; b2; 0], [s0 + b0; s1 + b1; s2 + b2; c]).
Proof.
  intros Hn.
  destruct (pad_normalized _ _ _ _ _ _ _ Hn)
    as (P00 & P01 & P10 & P11 & P20 & P21).
  unfold slice_last. rewrite P00, P10, P20. done.
Qed.

Lemma lookup_snoc_new {X} (l : list X) t :
  (l ++ [t]) !! length l = Some t.
Proof. by apply list_lookup_middle. Qed.

Lemma insert_snoc_new {X} (l : list X) t t' :
  <[length l := t']> (l ++ [t]) = l ++ [t'].
Proof. rewrite insert_app_r_alt by lia. by rewrite Nat.sub_diag. Qed.

Lemma fits_last b0 a0 b1 a1 b2 a2 s0 s1 s2 c :
  0 ≤ b0 → 0 ≤ a0 → 0 ≤ b1 → 0 ≤ a1 → 0 ≤ b2 → 0 ≤ a2 →
  0 ≤ s0 → 0 ≤ s1 → 0 ≤ s2 → 0 ≤ c →
  fits [b0; b1; b2; 0] [s0; s1; s2; c]
       [s0 + b0 + a0; s1 + b1 + a1; s2 + b2 + a2; c].
Proof. intros. repeat constructor; lia. Qed.


Lemma list4_eq {X} (a b c d a' b' c' d' : X) :
  a = a' → b = b' → c = c' → d = d' → [a; b; c; d] = [a'; b'; c'; d'].
Proof. by intros -> -> -> ->. Qed.

Lemma in_box4_inv idx n0 n1 n2 n3 :
  in_box idx [n0; n1; n2; n3] →
  ∃ i j k l, idx = [i; j; k; l]
             ∧ 0 ≤ i < n0 ∧ 0 ≤ j < n1 ∧ 0 ≤ k < n2 ∧ 0 ≤ l < n3.
Proof.
  intros Hb. inversion Hb as [|i ? r1 ? ? Hb1]; subst.
  inversion Hb1 as [|j ? r2 ? ? Hb2]; subst.
  inversion Hb2 as [|k ? r3 ? ? Hb3]; subst.
  inversion Hb3 as [|l ? r4 ? ? Hb4]; subst. inversion Hb4; subst.
  by exists i, j, k, l.
Qed.

Lemma in_box4 i j k l n0 n1 n2 n3 :
  0 ≤ i < n0 → 0 ≤ j < n1 → 0 ≤ k < n2 → 0 ≤ l < n3 →
  in_box [i; j; k; l] [n0; n1; n2; n3].
Proof.
  intros. unfold in_box. repeat (constructor; [lia|]). constructor.
Qed.

Lemma list_length4 {X} (l : list X) :
  length l = 4%nat → ∃ a b c d, l = [a; b; c; d].
Proof.
  destruct l as [|a [|b [|c [|d [|e l]]]]]; try done. intros _. eauto.
Qed.

Section transpose4.
Context {A : Type}.
Variable v : ndarray A.
Hypothesis Hshape : length (shape v) = 4%nat.
Hypothesis Hstride : length (stride v) = 4%nat.

Lemma transpose_permute_1230 :
  transpose [1; 2; 3; 0]%nat v = Some (permute [1; 2; 3; 0]%nat v).
Proof.
  destruct (list_length4 _ Hshape) as (n0 & n1 & n2 & n3 & Hs).
  destruct (list_length4 _ Hstride) as (t0 & t1 & t2 & t3 & Ht).
  unfold transpose, permute. by rewrite Hs, Ht.
Qed.

Lemma transpose_permute_3012 :
  transpose [3; 0; 1; 2]%nat v = Some (permute [3; 0; 1; 2]%nat v).
Proof.
  destruct (list_length4 _ Hshape) as (n0 & n1 & n2 & n3 & Hs).
  destruct (list_length4 _ Hstride) as (t0 & t1 & t2 & t3 & Ht).
  unfold transpose, permute. by rewrite Hs, Ht.
Qed.

(** The two transpositions of the CPU path undo each other. *)
Lemma permute_3012_1230 :
  permute [3; 0; 1; 2]%nat (permute [1; 2; 3; 0]%nat v) = v.
Proof.
  destruct (list_length4 _ Hshape) as (n0 & n1 & n2 & n3 & Hs).
  destruct (list_length4 _ Hstride) as (t0 & t1 & t2 & t3 & Ht).
  destruct v as [d sh st off]. simpl in *. subst. reflexivity.
Qed.

Lemma permute_1230_3012 :
  permute [1; 2; 3; 0]%nat (permute [3; 0; 1; 2]%nat v) = v.
Proof.
  destruct (list_length4 _ Hshape) as (n0 & n1 & n2 & n3 & Hs).
  destruct (list_length4 _ Hstride) as (t0 & t1 & t2 & t3 & Ht).
  destruct v as [d sh st off]. simpl in *. subst. reflexivity.
Qed.

Lemma get_permute_1230 i j k ch :
  get (permute [1; 2; 3; 0]%nat v) [i; j; k; ch] = get v [ch; i; j; k].
Proof.
  destruct (list_length4 _ Hstride) as (t0 & t1 & t2 & t3 & Ht).
  unfold get, index, permute. simpl. rewrite Ht. simpl. f_equal. lia.
Qed.

Lemma get_permute_3012 i j k ch :
  get (permute [3; 0; 1; 2]%nat v) [ch; i; j; k] = get v [i; j; k; ch].
Proof.
  destruct (list_length4 _ Hstride) as (t0 & t1 & t2 & t3 & Ht).
  unfold get, index, permute. simpl. rewrite Ht. simpl. f_equal. lia.
Qed.
End transpose4.

Lemma set_tensor_id {A} (t : Tensor A) : set_tensor t (tensor t) = t.
Proof. by destruct t. Qed.

Lemma set_tensor_twice {A} (t : Tensor A) v v' :
  set_tensor (set_tensor t v) v' = set_tensor t v'.
Proof. done. Qed.

Section cpu.
Context {A : Type} `{TypedArray A}.
Implicit Types (L : ZeroPadding3D) (x : loc) (xt : Tensor A) (w : World A).

(** The buffer the CPU path fills is the padded tensor. *)
Lemma padded_view b0 a0 b1 a1 b2 a2 s0 s1 s2 c (src : ndarray A) :
  0 ≤ b0 → 0 ≤ a0 → 0 ≤ b1 → 0 ≤ a1 → 0 ≤ b2 → 0 ≤ a2 →
  0 ≤ s0 → 0 ≤ s1 → 0 ≤ s2 → 0 ≤ c →
  with_data
    (tensor (new_Tensor [] [s0 + b0 + a0; s1 + b1 + a1; s2 + b2 + a2; c]))
    (assign
       (lo [b0; b1; b2; 0]
           (hi [s0 + b0; s1 + b1; s2 + b2; c]
               (tensor (new_Tensor []
                          [s0 + b0 + a0; s1 + b1 + a1; s2 + b2 + a2; c]))))
       src)
  = padded [s0 + b0 + a0; s1 + b1 + a1; s2 + b2 + a2; c]
           [b0; b1; b2; 0] [s0; s1; s2; c] src.
Proof.
  intros.
  change (tensor (new_Tensor [] ?o)) with
    (ndarray_of (replicate (Z.to_nat (shape_size o)) (zero : A)) o).
  replace [s0 + b0; s1 + b1; s2 + b2; c]
    with (zip_with Z.add [s0; s1; s2; c] [b0; b1; b2; 0])
    by (simpl; repeat f_equal; lia).
  rewrite (hi_lo_view _ [b0; b1; b2; 0] [s0; s1; s2; c])
    by (by apply fits_last).
  reflexivity.
Qed.

(** The run of [_callCPU] on a channels-last layer. *)
Lemma callCPU_last L x xt w b0 a0 b1 a1 b2 a2 s0 s1 s2 c :
channels_first L = false →
normalized L b0 a0 b1 a1 b2 a2 →
floats w !! x = Some xt →
shape (tensor xt) = [s0; s1; s2; c] →
0 ≤ s0 → 0 ≤ s1 → 0 ≤ s2 → 0 ≤ c →
_callCPU L x w =
Some (set_output (set_shapes L [s0; s1; s2; c]
                    [s0 + b0 + a0; s1 + b1 + a1; s2 + b2 + a2; c])
                 (length (floats w)),
      mkWorld
        (floats w ++
         [set_tensor
            (new_Tensor [] [s0 + b0 + a0; s1 + b1 + a1; s2 + b2 + a2; c])
            (padded [s0 + b0 + a0; s1 + b1 + a1; s2 + b2 + a2; c]
                    [b0; b1; b2; 0] [s0; s1; s2; c] (tensor xt))])
        (ints w)).
Proof.
intros Hcf Hn Hx Hsh ? ? ? ?.
pose proof Hn as (_ & ? & ? & ? & ? & ? & ?).
unfold _callCPU, mbind, M_bind, mret, M_ret, getF, putF, allocF, lift.
rewrite Hcf, Hx, Hsh, (padded_last_normalized _ _ _ _ _ _ _ _ _ _ _ Hn).
cbn [floats ints]. rewrite lookup_snoc_new.
rewrite (slice_last_normalized _ b0 a0 b1 a1 b2 a2) by exact Hn.
cbn [floats ints fst snd]. rewrite lookup_snoc_new, insert_snoc_new.
change (channels_first (set_output _ _)) with (channels_first L).
rewrite Hcf. by rewrite padded_view.
Qed.

(** The run of [_callCPU] on a channels-first layer: the input object is
    back in its original state in the final store. *)
Lemma callCPU_first L x xt w b0 a0 b1 a1 b2 a2 s0 s1 s2 c :
  channels_first L = true →
  normalized L b0 a0 b1 a1 b2 a2 →
  floats w !! x = Some xt →
  shape (tensor xt) = [c; s0; s1; s2] →
  length (stride (tensor xt)) = 4%nat →
  0 ≤ s0 → 0 ≤ s1 → 0 ≤ s2 → 0 ≤ c →
  _callCPU L x w =
  Some (set_output (set_shapes L [s0; s1; s2; c]
                      [s0 + b0 + a0; s1 + b1 + a1; s2 + b2 + a2; c])
                   (length (floats w)),
        mkWorld
          (floats w ++
           [set_tensor
              (new_Tensor [] [s0 + b0 + a0; s1 + b1 + a1; s2 + b2 + a2; c])
              (permute [3; 0; 1; 2]%nat
                 (padded [s0 + b0 + a0; s1 + b1 + a1; s2 + b2 + a2; c]
                         [b0; b1; b2; 0] [s0; s1; s2; c]
                         (permute [1; 2; 3; 0]%nat (tensor xt))))])
          (ints w)).
Proof.
  intros Hcf Hn Hx Hsh Hst ? ? ? ?.
  pose proof Hn as (_ & ? & ? & ? & ? & ? & ?).
  assert (Hlt : (x < length (floats w))%nat) by (eapply lookup_lt_Some; eauto).
  assert (Hsl : length (shape (tensor xt)) = 4%nat) by (by rewrite Hsh).
  unfold _callCPU, mbind, M_bind, mret, M_ret, getF, putF, allocF, lift.
  rewrite Hcf, Hx, (transpose_permute_1230 _ Hsl Hst), Hx.
  cbn [floats ints].
  set (xt1 := set_tensor xt (permute [1; 2; 3; 0]%nat (tensor xt))).
  assert (Hfl1 : length (<[x:=xt1]> (floats w)) = length (floats w))
    by apply length_insert.
  assert (Hx1 : <[x:=xt1]> (floats w) !! x = Some xt1)
    by (by apply list_lookup_insert_eq).
  assert (Hback : <[x:=xt]> (<[x:=xt1]> (floats w)) = floats w)
    by (by rewrite list_insert_insert_eq, list_insert_id).
  revert Hfl1 Hx1 Hback. generalize (<[x:=xt1]> (floats w)).
  intros fl1 Hfl1 Hx1 Hback.
  assert (Hsh1 : shape (tensor xt1) = [s0; s1; s2; c])
    by (unfold xt1; cbn [tensor set_tensor permute shape]; by rewrite Hsh).
  rewrite Hx1, Hsh1.
  rewrite (padded_last_normalized _ _ _ _ _ _ _ _ _ _ _ Hn).
  cbn [floats ints]. rewrite lookup_snoc_new.
  rewrite (slice_last_normalized _ b0 a0 b1 a1 b2 a2) by exact Hn.
  cbn [floats ints fst snd]. rewrite lookup_snoc_new, insert_snoc_new.
  change (channels_first (set_output _ _)) with (channels_first L).
  rewrite Hcf. cbn [floats ints].
  rewrite padded_view by done.
  assert (Hl1 : length (shape (tensor xt1)) = 4%nat) by (by rewrite Hsh1).
  assert (Hs1 : length (stride (tensor xt1)) = 4%nat).
  { unfold xt1. cbn [tensor set_tensor permute stride].
    destruct (list_length4 _ Hst) as (t0 & t1 & t2 & t3 & ->). done. }
  assert (Hxt : set_tensor xt1 (permute [3; 0; 1; 2]%nat (tensor xt1)) = xt).
  { unfold xt1. rewrite set_tensor_twice. cbn [tensor set_tensor].
    rewrite permute_3012_1230 by done. by rewrite set_tensor_id. }
  rewrite !(lookup_app_l_Some _ _ _ _ Hx1).
  rewrite (transpose_permute_3012 _ Hl1 Hs1), Hxt.
  cbn [floats ints].
  rewrite !(lookup_app_l_Some _ _ _ _ Hx1).
  cbn [floats ints].
  rewrite insert_app_l by (apply lookup_lt_Some in Hx1; lia).
  rewrite Hback, !Hfl1, lookup_snoc_new.
  cbn [tensor set_tensor].
  rewrite transpose_permute_3012 by done.
  cbn [floats ints]. by rewrite lookup_snoc_new, insert_snoc_new.
Qed.

End cpu.

(** ** Claims about the CPU path *)

(** C1. For a rank-4 channels-last input and a normalized non-negative
    padding spec, the CPU path returns an output that equals the input on the
    copied region (which starts at [before_i] along each spatial axis, has
    the input's extent, and spans all channels) and is zero everywhere else. *)
Theorem cpu_output_copies_input_zero_elsewhere {A} `{TypedArray A}
    (L : ZeroPadding3D) (x : loc) (xt : Tensor A) (w : World A)
    (b0 a0 b1 a1 b2 a2 s0 s1 s2 c : Z) :
  channels_first L = false →
  normalized L b0 a0 b1 a1 b2 a2 →
  floats w !! x = Some xt →
  rank4 false (tensor xt) s0 s1 s2 c →
  in_bounds (tensor xt) = true →
  ∃ L' w' o ot,
    _callCPU L x w = Some (L', w') ∧ output L' = Some o ∧
    floats w' !! o = Some ot ∧
    (∀ i j k ch,
       0 ≤ i < s0 → 0 ≤ j < s1 → 0 ≤ k < s2 → 0 ≤ ch < c →
       get (tensor ot) [i + b0; j + b1; k + b2; ch]
       = get (tensor xt) [i; j; k; ch]) ∧
    (∀ i j k ch,
       0 ≤ i < s0 + b0 + a0 → 0 ≤ j < s1 + b1 + a1 →
       0 ≤ k < s2 + b2 + a2 → 0 ≤ ch < c →
       ¬ (b0 ≤ i < b0 + s0 ∧ b1 ≤ j < b1 + s1 ∧ b2 ≤ k < b2 + s2) →
       get (tensor ot) [i; j; k; ch] = Some zero).
Proof.
  intros Hcf Hn Hx (Hsh & Hst & ? & ? & ? & ?) Hb. unfold layout in Hsh.
  pose proof Hn as (_ & ? & ? & ? & ? & ? & ?).
  eexists _, _, _, _. split; [by apply (callCPU_last L x xt w b0 a0 b1 a1 b2 a2)|].
  split; [done|]. split; [apply lookup_snoc_new|].
  cbn [tensor set_tensor].
  assert (Hf := fits_last b0 a0 b1 a1 b2 a2 s0 s1 s2 c
    ltac:(lia) ltac:(lia) ltac:(lia) ltac:(lia) ltac:(lia) ltac:(lia)
    ltac:(lia) ltac:(lia) ltac:(lia) ltac:(lia)).
  split.
  - intros i j k ch ? ? ? ?.
    assert (Hj : in_box [i; j; k; ch] [s0; s1; s2; c]) by (by apply in_box4).
    replace [i + b0; j + b1; k + b2; ch]
      with (zip_with Z.add [b0; b1; b2; 0] [i; j; k; ch])
      by (apply list4_eq; lia).
    rewrite (padded_inside _ _ _ _ Hf _ Hj).
    rewrite <- Hsh in Hj. by destruct (in_bounds_get _ _ Hb Hj) as [a ->].
  - intros i j k ch ? ? ? ? Hout.
    apply (padded_outside _ _ _ _ Hf); [by apply in_box4|].
    intros idx Hidx Heq. apply Hout.
    apply in_box4_inv in Hidx as (i' & j' & k' & l' & -> & ? & ? & ? & ?).
    simpl in Heq. injection Heq as -> -> -> ->. lia.
Qed.

Lemma cpu_output_copies_input_zero_elsewhere_witness :
  (channels_first scenario_layer = false
   ∧ normalized scenario_layer 1 0 0 1 0 0
   ∧ floats scenario_world !! 0%nat = Some ones
   ∧ rank4 false (tensor ones) 2 2 2 1
   ∧ in_bounds (tensor ones) = true)
  ∧ ∃ L' w' o ot,
      _callCPU scenario_layer 0%nat scenario_world = Some (L', w') ∧
      output L' = Some o ∧ floats w' !! o = Some ot ∧
      (∀ i j k ch,
         0 ≤ i < 2 → 0 ≤ j < 2 → 0 ≤ k < 2 → 0 ≤ ch < 1 →
         get (tensor ot) [i + 1; j + 0; k + 0; ch]
         = get (tensor ones) [i; j; k; ch]) ∧
      (∀ i j k ch,
         0 ≤ i < 2 + 1 + 0 → 0 ≤ j < 2 + 0 + 1 → 0 ≤ k < 2 + 0 + 0 →
         0 ≤ ch < 1 →
         ¬ (1 ≤ i < 1 + 2 ∧ 0 ≤ j < 0 + 2 ∧ 0 ≤ k < 0 + 2) →
         get (tensor ot) [i; j; k; ch] = Some zero).
Proof.
  assert (Hn : normalized scenario_layer 1 0 0 1 0 0)
    by (unfold normalized; repeat split; try reflexivity; lia).
  assert (Hr : rank4 false (tensor ones) 2 2 2 1)
    by (unfold rank4; repeat split; try reflexivity; lia).
  split; [repeat split; try reflexivity; try apply Hn; apply Hr|].
  apply (cpu_output_copies_input_zero_elsewhere
           scenario_layer 0%nat ones scenario_world 1 0 0 1 0 0 2 2 2 1);
    [reflexivity | exact Hn | reflexivity | exact Hr | reflexivity].
Defined.

(** Both runs of the CPU path at once: the output object and its tensor. *)
Lemma callCPU_result {A} `{TypedArray A} (L : ZeroPadding3D) (x : loc)
    (xt : Tensor A) (w : World A) (b0 a0 b1 a1 b2 a2 s0 s1 s2 c : Z) :
  normalized L b0 a0 b1 a1 b2 a2 →
  floats w !! x = Some xt →
  rank4 (channels_first L) (tensor xt) s0 s1 s2 c →
  let osh := [s0 + b0 + a0; s1 + b1 + a1; s2 + b2 + a2; c] in
  let v := if channels_first L
           then permute [3; 0; 1; 2]%nat
                  (padded osh [b0; b1; b2; 0] [s0; s1; s2; c]
                          (permute [1; 2; 3; 0]%nat (tensor xt)))
           else padded osh [b0; b1; b2; 0] [s0; s1; s2; c] (tensor xt) in
  _callCPU L x w
  = Some (set_output (set_shapes L [s0; s1; s2; c] osh) (length (floats w)),
          mkWorld (floats w ++ [set_tensor (new_Tensor [] osh) v]) (ints w)).
Proof.
  intros Hn Hx (Hsh & Hst & ? & ? & ? & ?). unfold layout in Hsh.
  destruct (channels_first L) eqn:Hcf; simpl.
  - by apply callCPU_first.
  - by apply callCPU_last.
Qed.

(** C2. The CPU-path output shape is the input shape with each spatial axis
    [i] enlarged by [before_i + after_i] and the channel axis unchanged, in
    the channels-last and in the channels-first configuration. *)
Theorem cpu_output_shape {A} `{TypedArray A}
    (L : ZeroPadding3D) (x : loc) (xt : Tensor A) (w : World A)
    (b0 a0 b1 a1 b2 a2 s0 s1 s2 c : Z) :
  normalized L b0 a0 b1 a1 b2 a2 →
  floats w !! x = Some xt →
  rank4 (channels_first L) (tensor xt) s0 s1 s2 c →
  ∃ v, cpu_result L x w = Some v ∧
       shape v = layout (channels_first L)
                   (s0 + b0 + a0) (s1 + b1 + a1) (s2 + b2 + a2) c.
Proof.
  intros Hn Hx Hr. unfold cpu_result.
  rewrite (callCPU_result L x xt w b0 a0 b1 a1 b2 a2 s0 s1 s2 c Hn Hx Hr).
  cbn [output set_output floats]. rewrite lookup_snoc_new.
  eexists. split; [reflexivity|]. cbn [tensor set_tensor].
  by destruct (channels_first L).
Qed.

Lemma cpu_output_shape_witness :
  (normalized scenario_layer 1 0 0 1 0 0
   ∧ floats scenario_world !! 0%nat = Some ones
   ∧ rank4 (channels_first scenario_layer) (tensor ones) 2 2 2 1)
  ∧ ∃ v, cpu_result scenario_layer 0%nat scenario_world = Some v ∧
         shape v = layout (channels_first scenario_layer)
                     (2 + 1 + 0) (2 + 0 + 1) (2 + 0 + 0) 1.
Proof.
  assert (Hn : normalized scenario_layer 1 0 0 1 0 0)
    by (unfold normalized; repeat split; try reflexivity; lia).
  assert (Hr : rank4 (channels_first scenario_layer) (tensor ones) 2 2 2 1)
    by (unfold rank4; repeat split; try reflexivity; lia).
  split; [repeat split; try reflexivity; try apply Hn; apply Hr|].
  apply (cpu_output_shape scenario_layer 0%nat ones scenario_world
           1 0 0 1 0 0 2 2 2 1); [exact Hn | reflexivity | exact Hr].
Defined.

(** C5. Padding configured as channels-first equals transposing the input to
    channels-last order, padding in channels-last order and transposing the
    result back; and transposing the channels-first result to channels-last
    order gives the result of padding directly in channels-last order. *)
Theorem channels_first_is_transposed_channels_last {A} `{TypedArray A}
    (Lf Ll : ZeroPadding3D) (x : loc) (xt : Tensor A) (w : World A)
    (b0 a0 b1 a1 b2 a2 s0 s1 s2 c : Z) :
  channels_first Lf = true →
  channels_first Ll = false →
  normalized Lf b0 a0 b1 a1 b2 a2 →
  normalized Ll b0 a0 b1 a1 b2 a2 →
  floats w !! x = Some xt →
  rank4 true (tensor xt) s0 s1 s2 c →
  ∃ x_last out_first out_last,
    transpose [1; 2; 3; 0]%nat (tensor xt) = Some x_last ∧
    cpu_result Lf x w = Some out_first ∧
    cpu_result Ll x (mkWorld (<[x := set_tensor xt x_last]> (floats w)) (ints w))
    = Some out_last ∧
    transpose [3; 0; 1; 2]%nat out_last = Some out_first ∧
    transpose [1; 2; 3; 0]%nat out_first = Some out_last.
Proof.
  intros Hf Hl Hnf Hnl Hx Hr.
  pose proof Hr as (Hsh & Hst & ? & ? & ? & ?). unfold layout in Hsh.
  assert (Hlen : length (shape (tensor xt)) = 4%nat) by (by rewrite Hsh).
  assert (Hlt : (x < length (floats w))%nat) by (by eapply lookup_lt_Some).
  set (osh := [s0 + b0 + a0; s1 + b1 + a1; s2 + b2 + a2; c]).
  set (p := padded osh [b0; b1; b2; 0] [s0; s1; s2; c]
                   (permute [1; 2; 3; 0]%nat (tensor xt))).
  exists (permute [1; 2; 3; 0]%nat (tensor xt)), (permute [3; 0; 1; 2]%nat p), p.
  split; [by apply transpose_permute_1230|].
  split.
  { unfold cpu_result.
    rewrite (callCPU_result Lf x xt w b0 a0 b1 a1 b2 a2 s0 s1 s2 c) by (by rewrite ?Hf).
    cbn [output set_output floats]. by rewrite lookup_snoc_new, Hf. }
  split.
  { unfold cpu_result.
    rewrite (callCPU_result Ll x (set_tensor xt (permute [1; 2; 3; 0]%nat (tensor xt)))
               _ b0 a0 b1 a1 b2 a2 s0 s1 s2 c).
    - cbn [output set_output floats]. by rewrite lookup_snoc_new, Hl.
    - done.
    - cbn [floats]. by apply list_lookup_insert_eq.
    - rewrite Hl. unfold rank4, layout. cbn [tensor set_tensor permute shape stride].
      destruct (list_length4 _ Hst) as (t0 & t1 & t2 & t3 & ->). rewrite Hsh.
      by repeat split. }
  assert (Hps : length (shape p) = 4%nat) by done.
  assert (Hpt : length (stride p) = 4%nat) by done.
  split; [by apply transpose_permute_3012|].
  rewrite transpose_permute_1230 by done. by rewrite permute_1230_3012.
Qed.

(** The scenario input in channels-first order: shape [1,2,2,2]. *)
Lemma channels_first_is_transposed_channels_last_witness :
  let Lf := new_ZeroPadding3D
              {| attr_padding := Some (JNum 1);
                 attr_data_format := Some "channels_first"%string;
                 attr_gpu := false |} in
  let Ll := new_ZeroPadding3D
              {| attr_padding := Some (JNum 1);
                 attr_data_format := Some "channels_last"%string;
                 attr_gpu := false |} in
  let xt : Tensor sample := new_Tensor (Num <$> seqZ 1 8) [1; 2; 2; 2] in
  let w := mkWorld [xt] [] in
  (channels_first Lf = true ∧ channels_first Ll = false
   ∧ normalized Lf 1 1 1 1 1 1 ∧ normalized Ll 1 1 1 1 1 1
   ∧ floats w !! 0%nat = Some xt ∧ rank4 true (tensor xt) 2 2 2 1)
  ∧ ∃ x_last out_first out_last,
      transpose [1; 2; 3; 0]%nat (tensor xt) = Some x_last ∧
      cpu_result Lf 0%nat w = Some out_first ∧
      cpu_result Ll 0%nat
        (mkWorld (<[0%nat := set_tensor xt x_last]> (floats w)) (ints w))
      = Some out_last ∧
      transpose [3; 0; 1; 2]%nat out_last = Some out_first ∧
      transpose [1; 2; 3; 0]%nat out_first = Some out_last.
Proof.
  intros Lf Ll xt w.
  assert (Hnf : normalized Lf 1 1 1 1 1 1)
    by (unfold normalized; repeat split; try reflexivity; lia).
  assert (Hnl : normalized Ll 1 1 1 1 1 1)
    by (unfold normalized; repeat split; try reflexivity; lia).
  assert (Hr : rank4 true (tensor xt) 2 2 2 1)
    by (unfold rank4; repeat split; try reflexivity; lia).
  split; [repeat split; try reflexivity; try apply Hnf; apply Hr|].
  apply (channels_first_is_transposed_channels_last Lf Ll 0%nat xt w
           1 1 1 1 1 1 2 2 2 1);
    [reflexivity | reflexivity | exact Hnf | exact Hnl | reflexivity | exact Hr].
Defined.

(** C10. After a CPU-path call the caller's input tensor is as it was before
    the call, in both configurations; in channels-first mode the two in-place
    transpositions compose to the identity. *)
Theorem cpu_call_leaves_input_unchanged {A} `{TypedArray A}
    (L : ZeroPadding3D) (x : loc) (xt : Tensor A) (w : World A)
    (b0 a0 b1 a1 b2 a2 s0 s1 s2 c : Z) :
  normalized L b0 a0 b1 a1 b2 a2 →
  floats w !! x = Some xt →
  rank4 (channels_first L) (tensor xt) s0 s1 s2 c →
  ∃ L' w',
    _callCPU L x w = Some (L', w') ∧
    floats w' !! x = Some xt ∧
    ∃ v, transpose [1; 2; 3; 0]%nat (tensor xt) = Some v ∧
         transpose [3; 0; 1; 2]%nat v = Some (tensor xt).
Proof.
  intros Hn Hx Hr. eexists _, _. split; [by eapply callCPU_result|].
  cbn [floats]. split; [by apply lookup_app_l_Some|].
  destruct Hr as (Hsh & Hst & _).
  assert (Hlen : length (shape (tensor xt)) = 4%nat)
    by (rewrite Hsh; by destruct (channels_first L)).
  exists (permute [1; 2; 3; 0]%nat (tensor xt)).
  split; [by apply transpose_permute_1230|].
  rewrite transpose_permute_3012.
  - by rewrite permute_3012_1230.
  - done.
  - done.
Qed.

Lemma cpu_call_leaves_input_unchanged_witness :
  let Lf := new_ZeroPadding3D
              {| attr_padding := Some (JNum 1);
                 attr_data_format := Some "channels_first"%string;
                 attr_gpu := false |} in
  let xt : Tensor sample := new_Tensor (Num <$> seqZ 1 8) [1; 2; 2; 2] in
  let w := mkWorld [xt] [] in
  (normalized Lf 1 1 1 1 1 1 ∧ floats w !! 0%nat = Some xt
   ∧ rank4 (channels_first Lf) (tensor xt) 2 2 2 1)
  ∧ ∃ L' w',
      _callCPU Lf 0%nat w = Some (L', w') ∧
      floats w' !! 0%nat = Some xt ∧
      ∃ v, transpose [1; 2; 3; 0]%nat (tensor xt) = Some v ∧
           transpose [3; 0; 1; 2]%nat v = Some (tensor xt).
Proof.
  intros Lf xt w.
  assert (Hn : normalized Lf 1 1 1 1 1 1)
    by (unfold normalized; repeat split; try reflexivity; lia).
  assert (Hr : rank4 (channels_first Lf) (tensor xt) 2 2 2 1)
    by (unfold rank4; repeat split; try reflexivity; lia).
  split; [repeat split; try reflexivity; try apply Hn; apply Hr|].
  apply (cpu_call_leaves_input_unchanged Lf 0%nat xt w 1 1 1 1 1 1 2 2 2 1);
    [exact Hn | reflexivity | exact Hr].
Defined.

(** C9. The scalar padding 2 is normalized to [[2,2],[2,2],[2,2]], and the
    layer it configures behaves on every input as the layer configured with
    that explicit form. *)
Theorem scalar_padding_expands (df : option string) (g : bool) :
  let pairs := JArr [JArr [JNum 2; JNum 2]; JArr [JNum 2; JNum 2];
                     JArr [JNum 2; JNum 2]] in
  let Ls := new_ZeroPadding3D
              {| attr_padding := Some (JNum 2); attr_data_format := df;
                 attr_gpu := g |} in
  let Le := new_ZeroPadding3D
              {| attr_padding := Some pairs; attr_data_format := df;
                 attr_gpu := g |} in
  padding Ls = pairs ∧
  ∀ (A : Type) (TA : TypedArray A) (x : loc) (w : World A),
    call Ls x w = call Le x w.
Proof. split; [reflexivity|]. intros A TA x w. reflexivity. Qed.

(** C6, as stated: the output shape of the scenario is not [3,2,2,1]. *)
Lemma scenario_shape_is_not_3221 :
  ¬ (shape <$> scenario_output = Some [3; 2; 2; 1]).
Proof. vm_compute. discriminate. Qed.

(** C6, amended. In the scenario (input [2,2,2,1] of 1s, padding
    [[1,0],[0,1],[0,0]], channels-last) the output shape is [3,3,2,1]; the
    slice at index 0 along axis 0 is all zeros; each slice at indices 1-2
    along axis 0 is the matching slice of the input followed by a zero row at
    the far end of axis 1. *)
Theorem scenario_output_padded :
  ∃ v, scenario_output = Some v ∧
       shape v = [3; 3; 2; 1] ∧
       slice0 v 0 = replicate 6 (Some (Num 0)) ∧
       slice0 v 1 = slice0 (tensor ones) 0 ++ replicate 2 (Some (Num 0)) ∧
       slice0 v 2 = slice0 (tensor ones) 1 ++ replicate 2 (Some (Num 0)).
Proof. eexists. split; [vm_compute; reflexivity|]. by vm_compute. Qed.

(** ** The index map *)

Lemma tensor_new_zero {A} `{TypedArray A} n sh :
  tensor (new_Tensor [] (n :: sh))
  = ndarray_of (replicate (Z.to_nat (shape_size (n :: sh))) zero) (n :: sh).
Proof. reflexivity. Qed.

Lemma tensor_new_data {A} `{TypedArray A} (d : list A) n sh :
  length d = Z.to_nat (shape_size (n :: sh)) →
  tensor (new_Tensor d (n :: sh)) = ndarray_of d (n :: sh).
Proof. intros Hl. destruct d; [|done]. simpl in Hl. simpl. by rewrite <- Hl. Qed.

Lemma length_assigns {A} (v : ndarray A) z :
  length (assigns v z) = length (data v).
Proof. unfold assigns. by rewrite length_write_all. Qed.

(** After [ops.assigns(m, z)] every element of a row-major tensor is [z]. *)
Lemma read_assigns {A} (d : list A) osh z idx :
  length d = Z.to_nat (shape_size osh) →
  in_box idx osh →
  read (assigns (ndarray_of d osh) z) (dot (row_major osh) idx) = Some z.
Proof.
  intros Hlen Hidx. unfold assigns.
  pose proof (dot_row_major_bounds _ _ Hidx).
  apply read_write_all_hit.
  - simpl. lia.
  - apply list_elem_of_fmap. exists idx. split; [|by apply elem_of_indices].
    unfold index. simpl. f_equal.
  - intros a' Ha'. apply list_elem_of_fmap in Ha' as (j & Heq & _).
    by injection Heq.
Qed.

Lemma fits_layout first b0 a0 b1 a1 b2 a2 s0 s1 s2 c :
  0 ≤ b0 → 0 ≤ a0 → 0 ≤ b1 → 0 ≤ a1 → 0 ≤ b2 → 0 ≤ a2 →
  0 ≤ s0 → 0 ≤ s1 → 0 ≤ s2 → 0 ≤ c →
  fits (layout first b0 b1 b2 0) (layout first s0 s1 s2 c)
       (layout first (s0 + b0 + a0) (s1 + b1 + a1) (s2 + b2 + a2) c).
Proof. intros. destruct first; repeat constructor; lia. Qed.

Lemma padded_first_normalized L b0 a0 b1 a1 b2 a2 s0 s1 s2 c :
  normalized L b0 a0 b1 a1 b2 a2 →
  padded_first L [c; s0; s1; s2]
  = Some [c; s0 + b0 + a0; s1 + b1 + a1; s2 + b2 + a2].
Proof.
  intros Hn.
  destruct (pad_normalized _ _ _ _ _ _ _ Hn)
    as (P00 & P01 & P10 & P11 & P20 & P21).
  unfold padded_first. by rewrite P00, P01, P10, P11, P20, P21.
Qed.

Lemma slice_first_normalized L b0 a0 b1 a1 b2 a2 s0 s1 s2 c :
  normalized L b0 a0 b1 a1 b2 a2 →
  slice_first L [c; s0; s1; s2]
  = Some ([0; b0; b1; b2], [c; s0 + b0; s1 + b1; s2 + b2]).
Proof.
  intros Hn.
  destruct (pad_normalized _ _ _ _ _ _ _ Hn)
    as (P00 & P01 & P10 & P11 & P20 & P21).
  unfold slice_first. by rewrite P00, P10, P20.
Qed.

(** Start and end of the copied region, in either axis order. *)
Lemma slice_layout L b0 a0 b1 a1 b2 a2 s0 s1 s2 c :
  normalized L b0 a0 b1 a1 b2 a2 →
  (if channels_first L then slice_first L (layout (channels_first L) s0 s1 s2 c)
   else slice_last L (layout (channels_first L) s0 s1 s2 c))
  = Some (layout (channels_first L) b0 b1 b2 0,
          zip_with Z.add (layout (channels_first L) s0 s1 s2 c)
                   (layout (channels_first L) b0 b1 b2 0)).
Proof.
  intros Hn. destruct (channels_first L); unfold layout.
  - rewrite (slice_first_normalized _ _ _ _ _ _ _ _ _ _ _ Hn). simpl.
    do 2 f_equal. apply list4_eq; lia.
  - rewrite (slice_last_normalized _ _ _ _ _ _ _ _ _ _ _ Hn). simpl.
    do 2 f_equal. apply list4_eq; lia.
Qed.

(** The output shape the GPU path computes, in either axis order. *)
Lemma padded_layout L b0 a0 b1 a1 b2 a2 s0 s1 s2 c :
  normalized L b0 a0 b1 a1 b2 a2 →
  (if channels_first L then padded_first L (layout (channels_first L) s0 s1 s2 c)
   else padded_last L (layout (channels_first L) s0 s1 s2 c))
  = Some (layout (channels_first L)
            (s0 + b0 + a0) (s1 + b1 + a1) (s2 + b2 + a2) c).
Proof.
  intros Hn. destruct (channels_first L); unfold layout.
  - by apply padded_first_normalized.
  - by apply padded_last_normalized.
Qed.

(** The index tensor of lines 111-135: the sentinel everywhere, then the
    table copied into the region. *)
Lemma indexMap_tensor_eq L tb start ish osh :
  inputShape L = Some ish →
  outputShape L = Some osh →
  (if channels_first L then slice_first L ish else slice_last L ish)
  = Some (start, zip_with Z.add ish start) →
  fits start ish osh →
  ish ≠ [] →
  table_shape tb = ish →
  length (table_data tb) = Z.to_nat (shape_size ish) →
  indexMap_tensor L tb
  = Some (sentinel_map osh start ish (ndarray_of (table_data tb) ish)).
Proof.
  intros Hin Hout Hsl Hfits Hne Hts Htl.
  unfold indexMap_tensor. rewrite Hout, Hin. cbn [mbind option_bind].
  rewrite Hsl. cbn [mbind option_bind fst snd]. f_equal.
  rewrite Hts. destruct ish as [|n' t']; [done|].
  assert (∃ n t, osh = n :: t) as (n & t & ->).
  { destruct (fits_lengths _ _ _ Hfits) as [_ Hl].
    destruct osh; [done|eauto]. }
  rewrite (tensor_new_data _ _ _ Htl), tensor_new_zero.
  change (with_data (ndarray_of ?d ?sh) ?d') with (ndarray_of d' sh).
  by rewrite (hi_lo_view _ start (n' :: t') (n :: t)).
Qed.

Section sentinel.
Variables (start ish osh : list Z) (table : ndarray Z).
Hypothesis Hfits : fits start ish osh.

Lemma sentinel_map_inside j :
  in_box j ish →
  get (sentinel_map osh start ish table) (zip_with Z.add start j)
  = Some (default 0 (get table j)).
Proof.
  intros Hj. unfold sentinel_map. rewrite get_ndarray_of.
  change (default 0 (get table j))
    with (default (of_undefined : Z) (get table j)).
  apply (assign_inside _ _ _ _ _ Hfits); [|done].
  rewrite length_assigns. cbn [ndarray_of data]. by rewrite length_replicate.
Qed.

Lemma sentinel_map_outside idx :
  in_box idx osh →
  (∀ j, in_box j ish → idx ≠ zip_with Z.add start j) →
  get (sentinel_map osh start ish table) idx = Some (-1).
Proof.
  intros Hidx Hout. unfold sentinel_map. rewrite get_ndarray_of.
  rewrite (assign_outside _ _ _ _ _ Hfits); [| |done|done].
  2:{ rewrite length_assigns. cbn [ndarray_of data].
      by rewrite length_replicate. }
  apply read_assigns; [by rewrite length_replicate|done].
Qed.
End sentinel.

(** ** Claims about the index map *)

(** C4. On the GPU path the index map is a tensor of the output shape; every
    element outside the copy region is the sentinel -1, and the copy region,
    which starts at [0, b0, b1, b2] under channels-first and at
    [b0, b1, b2, 0] under channels-last and has the extents of the input,
    holds the supplied linear-offset table. *)
Theorem index_map_is_sentinel_around_table
    (L : ZeroPadding3D) (tb : IndexTable)
    (b0 a0 b1 a1 b2 a2 s0 s1 s2 c : Z) :
  normalized L b0 a0 b1 a1 b2 a2 →
  0 ≤ s0 → 0 ≤ s1 → 0 ≤ s2 → 0 ≤ c →
  inputShape L = Some (layout (channels_first L) s0 s1 s2 c) →
  outputShape L
  = (if channels_first L
     then padded_first L (layout (channels_first L) s0 s1 s2 c)
     else padded_last L (layout (channels_first L) s0 s1 s2 c)) →
  table_shape tb = layout (channels_first L) s0 s1 s2 c →
  length (table_data tb)
  = Z.to_nat (shape_size (layout (channels_first L) s0 s1 s2 c)) →
  ∃ v,
    indexMap_tensor L tb = Some v ∧
    outputShape L = Some (shape v) ∧
    shape v = layout (channels_first L)
                (s0 + b0 + a0) (s1 + b1 + a1) (s2 + b2 + a2) c ∧
    (∀ j, in_box j (layout (channels_first L) s0 s1 s2 c) →
          get v (zip_with Z.add (layout (channels_first L) b0 b1 b2 0) j)
          = get (ndarray_of (table_data tb) (table_shape tb)) j) ∧
    (∀ idx, in_box idx (shape v) →
            (∀ j, in_box j (layout (channels_first L) s0 s1 s2 c) →
                  idx ≠ zip_with Z.add (layout (channels_first L) b0 b1 b2 0) j) →
            get v idx = Some (-1)).
Proof.
  intros Hn ? ? ? ? Hin Hout Hts Htl.
  pose proof Hn as (_ & ? & ? & ? & ? & ? & ?).
  rewrite (padded_layout L b0 a0 b1 a1 b2 a2) in Hout by done.
  assert (Hfits := fits_layout (channels_first L) b0 a0 b1 a1 b2 a2 s0 s1 s2 c
    ltac:(lia) ltac:(lia) ltac:(lia) ltac:(lia) ltac:(lia) ltac:(lia)
    ltac:(lia) ltac:(lia) ltac:(lia) ltac:(lia)).
  eexists. split.
  { eapply indexMap_tensor_eq; eauto.
    - by apply slice_layout with a0 a1 a2.
    - by destruct (channels_first L). }
  split; [done|]. split; [done|]. split.
  - intros j Hj. rewrite (sentinel_map_inside _ _ _ _ Hfits _ Hj), Hts.
    rewrite get_ndarray_of. pose proof (dot_row_major_bounds _ _ Hj).
    unfold read. destruct (_ <? 0) eqn:E; [lia|].
    destruct (lookup_lt_is_Some_2 (table_data tb)
                (Z.to_nat (dot (row_major (layout (channels_first L) s0 s1 s2 c)) j)))
      as [q ->]; [lia|done].
  - intros idx Hidx Hout'. by apply (sentinel_map_outside _ _ _ _ Hfits).
Qed.

(** ** Caching on the GPU path *)

Section caching.
Context {A : Type} `{TypedArray A}.
Implicit Types (L : ZeroPadding3D) (w : World A).

Ltac run_in H :=
  unfold _callGPU, ensureGLTexture, remap, _createIndexMap, mbind, M_bind, mret, M_ret, getF, putF,
    getI, putI, allocF, allocI, lift in H;
  repeat (case_match; simplify_eq; cbn [floats ints] in * ).

(** With both caches present, [_callGPU] keeps them, allocates nothing and
    leaves the store of index tensors alone. *)
Lemma callGPU_cached_frame L x w L' w' m o :
  indexMap L = Some m → output L = Some o →
  _callGPU L x w = Some (L', w') →
  indexMap L' = Some m ∧ output L' = Some o ∧ gpu L' = gpu L ∧
  ints w' = ints w ∧ length (floats w') = length (floats w).
Proof.
  intros Hm Ho Hrun. run_in Hrun.
  all: cbn [indexMap output gpu set_shapes set_output set_indexMap] in *.
  all: simplify_eq.
  all: rewrite ?length_insert; done.
Qed.

(** A GPU call that returns has built both caches. *)
Lemma callGPU_builds L x w L' w' :
  _callGPU L x w = Some (L', w') →
  is_Some (indexMap L') ∧ is_Some (output L') ∧ gpu L' = gpu L.
Proof.
  intros Hrun. run_in Hrun.
  all: cbn [indexMap output gpu set_shapes set_output set_indexMap] in *.
  all: simplify_eq.
  all: eauto.
Qed.

Lemma calls_cached_frame L xs w L' w' m o :
  gpu L = true → indexMap L = Some m → output L = Some o →
  calls L xs w = Some (L', w') →
  indexMap L' = Some m ∧ output L' = Some o ∧
  ints w' = ints w ∧ length (floats w') = length (floats w).
Proof.
  revert L w. induction xs as [|x xs IH]; intros L w Hg Hm Ho Hrun.
  - cbn [calls] in Hrun. unfold mret, M_ret in Hrun. by simplify_eq.
  - cbn [calls] in Hrun. unfold call, mbind, M_bind, mret, M_ret in Hrun.
    rewrite Hg in Hrun.
    destruct (_callGPU L x w) as [[L1 w1]|] eqn:Hone; [|done].
    destruct (callGPU_cached_frame _ _ _ _ _ _ _ Hm Ho Hone)
      as (Hm1 & Ho1 & Hg1 & Hi1 & Hl1).
    cbn [fst] in Hrun.
    destruct (IH L1 w1 ltac:(congruence) Hm1 Ho1 Hrun) as (? & ? & ? & ?).
    repeat split; congruence.
Qed.
End caching.

(** ** Claims about caching *)

(** C7. Once a first GPU-path invocation has built the index map and the
    output buffer, every later invocation, whatever the shape of its input,
    leaves the two fields naming the same objects, allocates no tensor, and
    leaves the index map itself as it was. *)
Theorem caches_built_once_and_kept {A} `{TypedArray A}
    (L0 L1 L2 : ZeroPadding3D) (x0 : loc) (xs : list loc) (o1 : option loc)
    (w0 w1 w2 : World A) :
  gpu L0 = true →
  call L0 x0 w0 = Some (L1, o1, w1) →
  calls L1 xs w1 = Some (L2, w2) →
  ∃ m o,
    indexMap L1 = Some m ∧ output L1 = Some o ∧
    indexMap L2 = Some m ∧ output L2 = Some o ∧
    ints w2 = ints w1 ∧ length (floats w2) = length (floats w1).
Proof.
  intros Hg Hfirst Hrest.
  unfold call, mbind, M_bind, mret, M_ret in Hfirst. rewrite Hg in Hfirst.
  destruct (_callGPU L0 x0 w0) as [[L w]|] eqn:Hone; [|done].
  simplify_eq.
  destruct (callGPU_builds _ _ _ _ _ Hone) as ([m Hm] & [o Ho] & Hg1).
  exists m, o.
  destruct (calls_cached_frame L1 xs w1 L2 w2 m o ltac:(congruence) Hm Ho Hrest)
    as (? & ? & ? & ?).
  done.
Qed.

(** ** Textures *)

Lemma read_app_l {A} (d d' : list A) p :
  p < Z.of_nat (length d) → read (d ++ d') p = read d p.
Proof.
  intros Hp. unfold read. destruct (p <? 0) eqn:E; [done|].
  apply lookup_app_l. lia.
Qed.

Lemma read_take {A} (d : list A) n p :
  p < n → read (take (Z.to_nat n) d) p = read d p.
Proof.
  intros Hp. unfold read. destruct (p <? 0) eqn:E; [done|].
  apply lookup_take_lt. lia.
Qed.

Lemma read_seqZ n p : 0 ≤ p < n → read (seqZ 0 n) p = Some p.
Proof.
  intros Hp. unfold read. destruct (p <? 0) eqn:E; [lia|].
  rewrite lookup_seqZ_lt by lia. f_equal. lia.
Qed.

Lemma read_is_Some {A} (d : list A) p :
  0 ≤ p < Z.of_nat (length d) → is_Some (read d p).
Proof.
  intros Hp. unfold read. destruct (p <? 0) eqn:E; [lia|].
  apply lookup_lt_is_Some_2. lia.
Qed.

(** The offset table names the row-major position of every element. *)
Lemma get_linear_table sh idx :
  in_box idx sh →
  get (ndarray_of (seqZ 0 (shape_size sh)) sh) idx
  = Some (dot (row_major sh) idx).
Proof.
  intros Hidx. rewrite get_ndarray_of.
  apply read_seqZ. by apply dot_row_major_bounds.
Qed.

Lemma length_flatten {A} `{TypedArray A} (v : ndarray A) :
  Forall (λ n, 0 ≤ n) (shape v) →
  length (flatten v) = Z.to_nat (shape_size (shape v)).
Proof. intros Hnn. unfold flatten. by rewrite length_fmap, length_indices. Qed.

(** Flattening puts every element at its row-major position. *)
Lemma read_flatten {A} `{TypedArray A} (v : ndarray A) idx :
  in_box idx (shape v) →
  read (flatten v) (dot (row_major (shape v)) idx)
  = Some (default of_undefined (get v idx)).
Proof.
  intros Hidx. pose proof (dot_row_major_bounds _ _ Hidx).
  unfold read, flatten. destruct (_ <? 0) eqn:E; [lia|].
  by rewrite list_lookup_fmap, lookup_indices.
Qed.

Lemma ceil_sqrt_square n : 0 ≤ n → n ≤ ceil_sqrt n * ceil_sqrt n.
Proof.
  intros Hn. unfold ceil_sqrt. pose proof (Z.sqrt_spec n Hn).
  generalize dependent (Z.sqrt n). intros r [Hr1 Hr2].
  destruct (Z.eqb_spec (r * r) n) as [E|E]; [lia|].
  unfold Z.succ in Hr2. lia.
Qed.

Lemma shape_size_2 rows cols : shape_size [rows; cols] = rows * cols.
Proof. rewrite !shape_size_cons, shape_size_nil. lia. Qed.

Lemma shape_size_removelast sh :
  shape_size (removelast sh) * default 1 (last sh) = shape_size sh.
Proof.
  induction sh as [|n [|m t] IH]; [done| |].
  - simpl. rewrite shape_size_cons, !shape_size_nil. lia.
  - change (removelast (n :: m :: t)) with (n :: removelast (m :: t)).
    change (last (n :: m :: t)) with (last (m :: t)).
    rewrite !(shape_size_cons n), <- IH. lia.
Qed.

Section textures.
Context {A : Type} `{TypedArray A}.
Implicit Types (t : Tensor A) (sh : list Z).

(** Through its table, an uploaded tensor reads the elements its texture
    holds. *)
Lemma element_uploaded sh f t idx :
  uploaded sh f t → in_box idx sh → element t idx = f idx.
Proof.
  intros (tex & rows & cols & Ht & _ & _ & Htb & Hf) Hidx.
  unfold element. rewrite Ht, Htb. cbn [mbind option_bind linear_table
    table_data table_shape].
  rewrite get_linear_table by done. cbn [mbind option_bind].
  by apply Hf.
Qed.

(** A contiguous view reads its buffer in row-major order. *)
Lemma get_contiguous (v : ndarray A) idx :
  contiguous v → get v idx = read (data v) (dot (row_major (shape v)) idx).
Proof. intros (Hst & Hoff & _). unfold get, index. by rewrite Hst, Hoff. Qed.

Lemma contiguous_in_bounds (v : ndarray A) idx :
  contiguous v → in_box idx (shape v) → is_Some (get v idx).
Proof.
  intros Hc Hidx. rewrite (get_contiguous _ _ Hc).
  destruct Hc as (_ & _ & Hlen).
  pose proof (dot_row_major_bounds _ _ Hidx). apply read_is_Some. lia.
Qed.

Lemma contiguous_ndarray_of (d : list A) sh :
  Z.of_nat (length d) = shape_size sh → contiguous (ndarray_of d sh).
Proof. by intros Hlen. Qed.

(** A contiguous buffer is never longer than its square. *)
Lemma contiguous_fits_square t : contiguous (tensor t) → fits_square t = true.
Proof.
  intros (_ & _ & Hlen). unfold fits_square. apply Z.leb_le. rewrite Hlen.
  apply ceil_sqrt_square. lia.
Qed.

(** The 2D layouts keep the elements in row-major order and record the
    original shape and its table; the square layout copies the buffer, so
    it does so for a contiguous tensor. *)
Lemma layout2D_texture (square : bool) t :
  let t' := createGLTexture (if square then reshapeTo2DSquare t
                             else reshapeTo2D t) in
  Forall (λ n, 0 ≤ n) (shape (tensor t)) →
  (square = true → contiguous (tensor t)) →
  ∃ tex rows cols,
    glTexture t' = Some tex ∧ glTextureShape t' = Some [rows; cols] ∧
    shape_size (shape (tensor t)) ≤ shape_size [rows; cols] ∧
    originalShape t' = Some (shape (tensor t)) ∧
    indicesForReshaped t' = Some (linear_table (shape (tensor t))) ∧
    ∀ idx, in_box idx (shape (tensor t)) →
           read tex (dot (row_major (shape (tensor t))) idx)
           = Some (default of_undefined (get (tensor t) idx)).
Proof.
  intros t' Hnn Hcont. pose proof (shape_size_nonneg _ Hnn) as Hsz.
  destruct square; subst t';
    cbn [createGLTexture reshapeTo2DSquare reshapeTo2D glTexture glTextureShape
         data tensor originalShape indicesForReshaped is2DReshaped ndarray_of
         shape negb].
  - specialize (Hcont eq_refl). eexists _, _, _. repeat split.
    + rewrite shape_size_2. by apply ceil_sqrt_square.
    + intros idx Hidx. pose proof (dot_row_major_bounds _ _ Hidx).
      destruct (contiguous_in_bounds _ _ Hcont Hidx) as [a Ha].
      rewrite Ha. cbn [default from_option id].
      rewrite (get_contiguous _ _ Hcont) in Ha.
      destruct Hcont as (_ & _ & Hlen).
      by rewrite read_app_l by lia.
  - eexists _, _, _. repeat split.
    + rewrite shape_size_2, shape_size_removelast. lia.
    + intros idx Hidx. by apply read_flatten.
Qed.

(** The first step of the GPU path leaves an uploaded tensor that holds the
    elements of the input. *)
Lemma upload_uploaded sh t :
  Forall (λ n, 0 ≤ n) sh → gpu_input sh t →
  uploaded sh (element t) (upload t).
Proof.
  intros Hnn Hin. unfold gpu_input, upload, element in *.
  destruct (glTexture t) as [tex|] eqn:Ht.
  - destruct Hin as (Ho & Htb & (rows & cols & Hs) & Hlen).
    exists tex, rows, cols. split_and!; try done.
    intros idx Hidx. rewrite Htb.
    cbn [mbind option_bind linear_table table_data table_shape].
    rewrite get_linear_table by done. cbn [mbind option_bind].
    split; [done|]. by apply Hlen.
  - destruct Hin as (<- & Hb & Hc).
    destruct (layout2D_texture true t Hnn (λ _, Hc))
      as (tex & rows & cols & ? & ? & ? & ? & ? & Hread).
    exists tex, rows, cols. split_and!; try done.
    intros idx Hidx. rewrite Hread by done.
    by destruct (in_bounds_get _ _ Hb Hidx) as [a ->].
Qed.

(** A host input of the GPU path fits its square. *)
Lemma gpu_input_fits_square sh t :
  gpu_input sh t → glTexture t = None → fits_square t = true.
Proof.
  unfold gpu_input. intros Hin Ht. rewrite Ht in Hin.
  destruct Hin as (_ & _ & Hc). by apply contiguous_fits_square.
Qed.

(** The remap program writes the zero-padded input into the texture of the
    output. *)
Lemma runProgram_pads start ish osh fx (ot xt : Tensor A) (mt : Tensor Z) :
  fits start ish osh →
  uploaded ish fx xt → index_map_ok start ish osh mt → output_ok osh ot →
  ∃ xsh cols ot' f,
    glTextureShape xt = Some xsh ∧ xsh !! 1%nat = Some cols ∧
    runProgram ot xt mt cols = Some ot' ∧
    tensor ot' = tensor ot ∧ is2DReshaped ot' = is2DReshaped ot ∧
    output_ok osh ot' ∧ uploaded osh f ot' ∧ pads_to start ish osh fx f.
Proof.
  intros Hfits (xtex & xrows & cols & Hxt & Hxs & _ & _ & Hfx)
    (itex & Hit & Him) (otex & rows & ocols & Hot & Hos & Hsz & Hoo & Hotb).
  set (texels := (λ p : nat, mapInput xtex cols cols (default 0 (itex !! p)))
                   <$> seq 0 (Z.to_nat (shape_size [rows; ocols]))).
  assert (Hread : ∀ idx, in_box idx osh →
            read texels (dot (row_major osh) idx)
            = Some (mapInput xtex cols cols
                      (default 0 (get (sentinel_map osh start ish
                         (ndarray_of (seqZ 0 (shape_size ish)) ish)) idx)))).
  { intros idx Hidx. pose proof (dot_row_major_bounds _ _ Hidx) as Hb.
    rewrite <- (Him _ Hidx). unfold read, texels.
    destruct (_ <? 0) eqn:E; [lia|].
    rewrite list_lookup_fmap, lookup_seq_lt by lia. done. }
  exists [xrows; cols], cols, (set_glTexture ot texels),
    (λ idx, read texels (dot (row_major osh) idx)).
  split; [done|]. split; [done|]. split.
  { unfold runProgram. rewrite Hos, Hot, Hxt, Hxs, Hit. done. }
  split; [done|]. split; [done|]. split.
  { exists texels, rows, ocols. by repeat split. }
  split.
  { exists texels, rows, ocols. repeat split; try done.
    rewrite Hread by done. eauto. }
  split.
  - intros j Hj. rewrite Hread by eauto using in_box_shift.
    rewrite (sentinel_map_inside _ _ _ _ Hfits _ Hj), get_linear_table by done.
    cbn [default from_option id].
    pose proof (dot_row_major_bounds _ _ Hj) as Hb.
    destruct (Hfx _ Hj) as [Hr [a Ha]].
    unfold mapInput, texelFetch.
    destruct (Z.eqb_spec (dot (row_major ish) j) (-1)) as [E|E]; [lia|].
    replace (dot (row_major ish) j / cols * cols + dot (row_major ish) j mod cols)
      with (dot (row_major ish) j)
      by (rewrite (Z_div_mod_eq_full (dot (row_major ish) j) cols) at 1; lia).
    rewrite Hr, Ha. done.
  - intros idx Hidx Hout. rewrite Hread by done.
    by rewrite (sentinel_map_outside _ _ _ _ Hfits _ Hidx Hout).
Qed.

(** The readback decodes the texture into the logical shape. *)
Lemma readback_pads ob osh f (ot : Tensor A) :
  uploaded osh f ot →
  ∃ ot',
    readback ob ot = Some ot' ∧ uploaded osh f ot' ∧
    (output_ok osh ot → output_ok osh ot') ∧
    (ob = [] → shape (tensor ot') = osh ∧
               ∀ idx, in_box idx osh → get (tensor ot') idx = f idx).
Proof.
  intros (tex & rows & cols & Ht & Hs & Ho & Htb & Hf).
  destruct ob as [|b ob].
  - unfold readback, transferFromGLTexture. rewrite Ht, Hs.
    cbn [mbind option_bind]. unfold reshapeFrom2D, reshapeFrom2DSquare.
    cbn [originalShape set_tensor is2DReshaped]. rewrite Ho.
    cbn [mbind option_bind].
    eexists. split; [by destruct (is2DReshaped ot)|].
    split; [by exists tex, rows, cols|]. split; [done|].
    intros _. split; [done|]. intros idx Hidx.
    cbn [tensor set_tensor]. rewrite get_ndarray_of.
    pose proof (dot_row_major_bounds _ _ Hidx).
    cbn [ndarray_of data]. rewrite read_take by lia. by apply Hf.
  - exists ot. repeat split; try done. by exists tex, rows, cols.
Qed.
Lemma uploaded_gpu_input sh f t : uploaded sh f t → gpu_input sh t.
Proof.
  intros (tex & rows & cols & Ht & Hs & Ho & Htb & Hf).
  unfold gpu_input. rewrite Ht. repeat split; eauto.
  intros idx Hidx. destruct (Hf _ Hidx) as [-> ?]. done.
Qed.
End textures.

(** ** The GPU path *)

Section gpu.
Context {A : Type} `{TypedArray A}.
Implicit Types (L : ZeroPadding3D) (w : World A) (xt ot : Tensor A).

Lemma upload_None xt :
  glTexture xt = None → upload xt = createGLTexture (reshapeTo2DSquare xt).
Proof. intros Hg. unfold upload. by rewrite Hg. Qed.

Lemma upload_Some xt tex : glTexture xt = Some tex → upload xt = xt.
Proof. intros Hg. unfold upload. by rewrite Hg. Qed.

(** Stepping through a method, one bind at a time. *)
Lemma bind_Some {T U} (c : M A T) (k : T → M A U) w t w1 :
  c w = Some (t, w1) → (c ≫= k) w = k t w1.
Proof. intros Hc. unfold mbind, M_bind. by rewrite Hc. Qed.

Lemma ret_Some {T} (t : T) w : (mret t : M A T) w = Some (t, w).
Proof. done. Qed.

Lemma lift_Some {T} (o : option T) t w : o = Some t → lift o w = Some (t, w).
Proof. by intros ->. Qed.

Lemma getF_Some (l : loc) t w :
  floats w !! l = Some t → getF l w = Some (t, w).
Proof. intros Hl. unfold getF. by rewrite Hl. Qed.

Lemma getI_Some (l : loc) t w :
  ints w !! l = Some t → getI l w = Some (t, w).
Proof. intros Hl. unfold getI. by rewrite Hl. Qed.

Lemma putF_Some (l : loc) t t0 w :
  floats w !! l = Some t0 →
  putF l t w = Some ((), mkWorld (<[l := t]> (floats w)) (ints w)).
Proof. intros Hl. unfold putF. by rewrite Hl. Qed.

Lemma putI_Some (l : loc) t t0 w :
  ints w !! l = Some t0 →
  putI l t w = Some ((), mkWorld (floats w) (<[l := t]> (ints w))).
Proof. intros Hl. unfold putI. by rewrite Hl. Qed.

Lemma ensureGLTexture_run x xt w :
  floats w !! x = Some xt →
  (glTexture xt = None → fits_square xt = true) →
  ensureGLTexture x w
  = Some ((), mkWorld (<[x := upload xt]> (floats w)) (ints w)).
Proof.
  intros Hx Hfit. unfold ensureGLTexture, mbind, M_bind, mret, M_ret, getF, putF.
  rewrite Hx. destruct (glTexture xt) as [tex|] eqn:Hg.
  - rewrite (upload_Some _ _ Hg), list_insert_id by done. by destruct w.
  - by rewrite (Hfit eq_refl), Hx, (upload_None _ Hg).
Qed.

Lemma readback_run (o : loc) ot ot' ob w :
  floats w !! o = Some ot →
  readback ob ot = Some ot' →
  match ob with
  | [] =>
      (ot ← getF o;
       ot ← lift (transferFromGLTexture ot);
       ot ← lift (if is2DReshaped ot then reshapeFrom2D ot
                  else reshapeFrom2DSquare ot);
       putF o ot)
  | _ => mret ()
  end w = Some ((), mkWorld (<[o := ot']> (floats w)) (ints w)).
Proof.
  intros Ho Hback. unfold readback in Hback. destruct ob as [|b ob].
  - unfold mbind, M_bind, getF, putF, lift. rewrite Ho.
    destruct (transferFromGLTexture ot) as [t1|]; [|done].
    cbn [mbind option_bind] in Hback. by rewrite Hback, Ho.
  - injection Hback as <-. unfold mret, M_ret.
    rewrite list_insert_id by done. by destruct w.
Qed.

(** The run of [remap] with both caches present. *)
Lemma remap_cached_run L x xt w m o ot mt ish osh xsh cols ot1 ot2 :
  indexMap L = Some m → output L = Some o →
  floats w !! x = Some xt →
  floats w !! o = Some ot → ints w !! m = Some mt →
  originalShape xt = Some ish →
  (if channels_first L then padded_first L ish else padded_last L ish)
  = Some osh →
  glTextureShape xt = Some xsh → xsh !! 1%nat = Some cols →
  runProgram ot xt mt cols = Some ot1 →
  readback (outbound L) ot1 = Some ot2 →
  remap L x w
  = Some (set_shapes L ish osh, mkWorld (<[o := ot2]> (floats w)) (ints w)).
Proof.
  intros Hm Ho Hx Hot Hmt Hish Hosh Hxsh Hcols Hrun Hback.
  assert (Hlo : (o < length (floats w))%nat) by (by eapply lookup_lt_Some).
  unfold remap.
  erewrite bind_Some by (by apply getF_Some).
  erewrite bind_Some by (by apply lift_Some).
  erewrite bind_Some by (by apply lift_Some).
  erewrite bind_Some
    by (unfold _createIndexMap; cbn [indexMap set_shapes]; rewrite Hm;
        apply ret_Some).
  erewrite bind_Some
    by (cbn [output set_shapes]; rewrite Ho; apply ret_Some).
  erewrite bind_Some by (by apply lift_Some).
  erewrite bind_Some by (by apply lift_Some).
  erewrite bind_Some by (by apply getF_Some).
  erewrite bind_Some by (by apply getI_Some).
  erewrite bind_Some by (by apply lift_Some).
  erewrite bind_Some by (by apply lift_Some).
  erewrite bind_Some by (by apply lift_Some).
  erewrite bind_Some by (by eapply putF_Some).
  erewrite bind_Some.
  2:{ cbn [outbound set_shapes]. eapply readback_run; [|done].
      cbn [floats]. by apply list_lookup_insert_eq. }
  cbn [floats ints]. by rewrite list_insert_insert_eq.
Qed.

Lemma allocF_Some t w :
  allocF t w = Some (length (floats w), mkWorld (floats w ++ [t]) (ints w)).
Proof. done. Qed.

Lemma allocI_Some t w :
  (allocI t : M A loc) w
  = Some (length (ints w), mkWorld (floats w) (ints w ++ [t])).
Proof. done. Qed.

(** The run of [_createIndexMap] when no index map is cached. *)
Lemma createIndexMap_fresh_run L tb (is2D : bool) w osh v :
  indexMap L = None → outputShape L = Some osh →
  indexMap_tensor L tb = Some v →
  _createIndexMap L (Some tb) is2D w
  = Some (set_indexMap L (S (length (ints w))),
          mkWorld (floats w)
            (ints w ++
             [new_Tensor (table_data tb) (table_shape tb);
              createGLTexture
                (if is2D then reshapeTo2D (set_tensor (new_Tensor [] osh) v)
                 else reshapeTo2DSquare (set_tensor (new_Tensor [] osh) v))])).
Proof.
  intros Hm Hosh Hv. unfold _createIndexMap. rewrite Hm.
  erewrite bind_Some by (by apply lift_Some).
  erewrite bind_Some by apply allocI_Some.
  erewrite bind_Some by (by apply lift_Some).
  erewrite bind_Some by apply allocI_Some.
  cbn [floats ints]. rewrite length_app. cbn [length].
  replace (length (ints w) + 1)%nat with (S (length (ints w))) by lia.
  erewrite bind_Some by (by apply lift_Some).
  set (ind := new_Tensor (table_data tb) (table_shape tb)).
  assert (Hlk : ∀ t : Tensor Z,
            ((ints w ++ [ind]) ++ [t]) !! S (length (ints w)) = Some t).
  { intros t. apply list_lookup_middle. rewrite length_app. simpl. lia. }
  assert (Hins : ∀ t t' : Tensor Z,
            <[S (length (ints w)) := t']> ((ints w ++ [ind]) ++ [t])
            = (ints w ++ [ind]) ++ [t']).
  { intros t t'. rewrite insert_app_r_alt by (rewrite length_app; simpl; lia).
    rewrite length_app. simpl.
    by replace (S (length (ints w)) - (length (ints w) + 1))%nat with 0%nat
      by lia. }
  erewrite bind_Some by (apply getI_Some; apply Hlk).
  erewrite bind_Some by (eapply putI_Some; apply Hlk).
  cbn [floats ints]. rewrite Hins.
  erewrite bind_Some by (apply getI_Some; apply Hlk).
  erewrite bind_Some by (eapply putI_Some; apply Hlk).
  cbn [floats ints]. rewrite Hins.
  erewrite bind_Some by (apply getI_Some; apply Hlk).
  erewrite bind_Some by (eapply putI_Some; apply Hlk).
  cbn [floats ints]. rewrite Hins, ret_Some.
  by rewrite <- app_assoc.
Qed.

(** The run of [remap] on a layer that has cached nothing yet. *)
Lemma remap_fresh_run L x xt w ish osh tb v xsh cols ot1 ot2 :
  indexMap L = None → output L = None →
  floats w !! x = Some xt →
  originalShape xt = Some ish →
  (if channels_first L then padded_first L ish else padded_last L ish)
  = Some osh →
  indicesForReshaped xt = Some tb →
  indexMap_tensor (set_shapes L ish osh) tb = Some v →
  glTextureShape xt = Some xsh → xsh !! 1%nat = Some cols →
  let mt := createGLTexture
              (if is2DReshaped xt
               then reshapeTo2D (set_tensor (new_Tensor [] osh) v)
               else reshapeTo2DSquare (set_tensor (new_Tensor [] osh) v)) in
  let ot0 := createGLTexture
               (if is2DReshaped xt then reshapeTo2D (new_Tensor [] osh)
                else reshapeTo2DSquare (new_Tensor [] osh)) in
  runProgram ot0 xt mt cols = Some ot1 →
  readback (outbound L) ot1 = Some ot2 →
  remap L x w
  = Some (set_output
            (set_indexMap (set_shapes L ish osh) (S (length (ints w))))
            (length (floats w)),
          mkWorld (floats w ++ [ot2])
            (ints w ++ [new_Tensor (table_data tb) (table_shape tb); mt])).
Proof.
  intros Hm Ho Hx Hish Hosh Htb Hv Hxsh Hcols mt ot0 Hrun Hback.
  unfold remap.
  erewrite bind_Some by (by apply getF_Some).
  erewrite bind_Some by (by apply lift_Some).
  erewrite bind_Some by (by apply lift_Some).
  rewrite Htb.
  erewrite bind_Some by (by apply createIndexMap_fresh_run).
  erewrite bind_Some.
  2:{ cbn [output set_shapes set_indexMap]. rewrite Ho.
      erewrite bind_Some by apply allocF_Some.
      erewrite bind_Some by (apply getF_Some; apply lookup_snoc_new).
      erewrite bind_Some by (eapply putF_Some; apply lookup_snoc_new).
      cbn [floats ints]. rewrite insert_snoc_new. apply ret_Some. }
  erewrite bind_Some by (by apply lift_Some).
  erewrite bind_Some by (by apply lift_Some).
  erewrite bind_Some by (apply getF_Some; apply lookup_snoc_new).
  erewrite bind_Some.
  2:{ apply getI_Some. cbn [ints]. 
      change (ints w ++ [?a; ?b]) with (ints w ++ [a] ++ [b]).
      rewrite app_assoc. apply list_lookup_middle.
      rewrite length_app. simpl. lia. }
  erewrite bind_Some by (by apply lift_Some).
  erewrite bind_Some by (by apply lift_Some).
  erewrite bind_Some by (by apply lift_Some).
  erewrite bind_Some by (eapply putF_Some; apply lookup_snoc_new).
  cbn [floats ints]. rewrite insert_snoc_new.
  erewrite bind_Some.
  2:{ cbn [outbound set_shapes set_indexMap set_output].
      eapply readback_run; [|done]. apply lookup_snoc_new. }
  cbn [floats ints]. by rewrite insert_snoc_new.
Qed.

Lemma callGPU_run L x xt w :
  floats w !! x = Some xt →
  (glTexture xt = None → fits_square xt = true) →
  _callGPU L x w
  = remap L x (mkWorld (<[x := upload xt]> (floats w)) (ints w)).
Proof.
  intros Hx Hfit. unfold _callGPU.
  by erewrite bind_Some by (by apply ensureGLTexture_run).
Qed.
End gpu.

(** ** What a GPU call computes *)

Lemma layout_nonneg first s0 s1 s2 c :
  0 ≤ s0 → 0 ≤ s1 → 0 ≤ s2 → 0 ≤ c →
  Forall (λ n, 0 ≤ n) (layout first s0 s1 s2 c).
Proof. intros. destruct first; repeat constructor; lia. Qed.

Lemma length_sentinel_map osh start ish table :
  fits start ish osh →
  length (data (sentinel_map osh start ish table))
  = Z.to_nat (shape_size osh).
Proof.
  intros Hfits. unfold sentinel_map. cbn [ndarray_of data].
  unfold assign. rewrite length_write_all. cbn [data].
  rewrite length_assigns. cbn [ndarray_of data]. apply length_replicate.
Qed.

Lemma get_sentinel_map_is_Some osh start ish table idx :
  fits start ish osh → in_box idx osh →
  is_Some (get (sentinel_map osh start ish table) idx).
Proof.
  intros Hfits Hidx. pose proof (dot_row_major_bounds _ _ Hidx).
  pose proof (length_sentinel_map osh start ish table Hfits) as Hl.
  unfold sentinel_map in *. rewrite get_ndarray_of.
  cbn [ndarray_of data] in Hl. apply read_is_Some. lia.
Qed.

Lemma fits_nonneg start ish osh :
  fits start ish osh → Forall (λ n, 0 ≤ n) osh.
Proof. induction 1; constructor; auto; lia. Qed.

(** The tensors the layer allocates are contiguous. *)
Lemma contiguous_sentinel_map osh start ish table :
  fits start ish osh → contiguous (sentinel_map osh start ish table).
Proof.
  intros Hfits. pose proof (length_sentinel_map osh start ish table Hfits) as Hl.
  pose proof (shape_size_nonneg _ (fits_nonneg _ _ _ Hfits)).
  unfold sentinel_map in *. apply contiguous_ndarray_of.
  cbn [ndarray_of data] in Hl. rewrite Hl. lia.
Qed.

Lemma contiguous_new_zero {T} `{TypedArray T} first s0 s1 s2 c :
  0 ≤ s0 → 0 ≤ s1 → 0 ≤ s2 → 0 ≤ c →
  contiguous (tensor (new_Tensor ([] : list T) (layout first s0 s1 s2 c))).
Proof.
  intros. pose proof (shape_size_nonneg _ (layout_nonneg first s0 s1 s2 c
    ltac:(lia) ltac:(lia) ltac:(lia) ltac:(lia))).
  destruct first; unfold layout in *; cbn [new_Tensor tensor];
    apply contiguous_ndarray_of; rewrite length_replicate; lia.
Qed.

Section step.
Context {A : Type} `{TypedArray A}.
Variables (first : bool) (b0 a0 b1 a1 b2 a2 s0 s1 s2 c : Z).
Hypothesis Hpads : 0 ≤ b0 ∧ 0 ≤ a0 ∧ 0 ≤ b1 ∧ 0 ≤ a1 ∧ 0 ≤ b2 ∧ 0 ≤ a2.
Hypothesis Hext : 0 ≤ s0 ∧ 0 ≤ s1 ∧ 0 ≤ s2 ∧ 0 ≤ c.

Local Abbreviation ish := (layout first s0 s1 s2 c).
Local Abbreviation osh :=
  (layout first (s0 + b0 + a0) (s1 + b1 + a1) (s2 + b2 + a2) c).
Local Abbreviation start := (layout first b0 b1 b2 0).

Lemma step_fits : fits start ish osh.
Proof. apply fits_layout; lia. Qed.

Lemma ish_nonneg : Forall (λ n, 0 ≤ n) ish.
Proof. apply layout_nonneg; lia. Qed.

Lemma osh_nonneg : Forall (λ n, 0 ≤ n) osh.
Proof. apply layout_nonneg; lia. Qed.

(** A call with both caches in place: the input is uploaded if need be, the
    output object is overwritten in place with the padded input. *)
Lemma callGPU_cached_step (L : ZeroPadding3D) (x : loc) (xt : Tensor A)
    (w : World A) (m o : loc) (ot : Tensor A) (mt : Tensor Z) :
  channels_first L = first → normalized L b0 a0 b1 a1 b2 a2 →
  indexMap L = Some m → output L = Some o →
  floats w !! x = Some xt → gpu_input ish xt → x ≠ o →
  floats w !! o = Some ot → output_ok osh ot →
  ints w !! m = Some mt → index_map_ok start ish osh mt →
  ∃ ot2 f,
    _callGPU L x w
    = Some (set_shapes L ish osh,
            mkWorld (<[o := ot2]> (<[x := upload xt]> (floats w))) (ints w)) ∧
    output_ok osh ot2 ∧ uploaded osh f ot2 ∧
    pads_to start ish osh (element xt) f ∧
    (outbound L = [] →
     shape (tensor ot2) = osh ∧
     ∀ idx, in_box idx osh → get (tensor ot2) idx = f idx).
Proof.
  intros Hf Hn Hm Ho Hx Hin Hxo Hot Hok Hmt Him.
  pose proof (upload_uploaded _ _ ish_nonneg Hin) as Hup.
  destruct (runProgram_pads _ _ _ _ ot _ mt step_fits Hup Him Hok)
    as (xsh & cols & ot1 & f & Hxsh & Hcols & Hrun & _ & _ & Hok1 & Hup1 & Hp).
  destruct (readback_pads (outbound L) _ _ _ Hup1)
    as (ot2 & Hback & Hup2 & Hok2 & Hhost).
  exists ot2, f. split; [|by auto].
  assert (Hlx : (x < length (floats w))%nat) by (by eapply lookup_lt_Some).
  rewrite (callGPU_run _ _ _ _ Hx (gpu_input_fits_square _ _ Hin)).
  destruct Hup as (tex & rows & cols' & ? & ? & Hos & ? & ?).
  erewrite (remap_cached_run L x (upload xt) _ m o ot mt ish osh); eauto.
  - cbn [floats]. by apply list_lookup_insert_eq.
  - cbn [floats]. by rewrite list_lookup_insert_ne.
  - rewrite <- Hf. by apply padded_layout.
Qed.

Lemma layout_pick (b : bool) {T} (t : Tensor T) `{TypedArray T} :
  (if b then reshapeTo2D t else reshapeTo2DSquare t)
  = (if negb b then reshapeTo2DSquare t else reshapeTo2D t).
Proof. by destruct b. Qed.

Lemma shape_new_zero {T} `{TypedArray T} :
  shape (tensor (new_Tensor ([] : list T) osh)) = osh.
Proof. by destruct first. Qed.

(** The first call of an instance: it builds the index map and the output
    object, and fills the output with the padded input. *)
Lemma callGPU_fresh_step (L : ZeroPadding3D) (x : loc) (xt : Tensor A)
    (w : World A) :
  channels_first L = first → normalized L b0 a0 b1 a1 b2 a2 →
  indexMap L = None → output L = None →
  floats w !! x = Some xt → gpu_input ish xt →
  ∃ ind mt ot2 f,
    _callGPU L x w
    = Some (set_output
              (set_indexMap (set_shapes L ish osh) (S (length (ints w))))
              (length (floats w)),
            mkWorld (<[x := upload xt]> (floats w) ++ [ot2])
                    (ints w ++ [ind; mt])) ∧
    index_map_ok start ish osh mt ∧
    output_ok osh ot2 ∧ uploaded osh f ot2 ∧
    pads_to start ish osh (element xt) f ∧
    (outbound L = [] →
     shape (tensor ot2) = osh ∧
     ∀ idx, in_box idx osh → get (tensor ot2) idx = f idx).
Proof.
  intros Hf Hn Hm Ho Hx Hin.
  pose proof (upload_uploaded _ _ ish_nonneg Hin) as Hup.
  pose proof Hup as (xtex & xrows & xcols & Hxt & Hxs & Hxo & Hxtb & _).
  set (v := sentinel_map osh start ish (ndarray_of (seqZ 0 (shape_size ish)) ish)).
  assert (Hv : indexMap_tensor (set_shapes L ish osh) (linear_table ish) = Some v).
  { apply indexMap_tensor_eq; try done.
    - pose proof (slice_layout L b0 a0 b1 a1 b2 a2 s0 s1 s2 c Hn) as Hsl.
      rewrite <- Hf. exact Hsl.
    - apply step_fits.
    - by destruct first.
    - cbn [linear_table table_data]. by rewrite length_seqZ. }
  set (b := is2DReshaped (upload xt)).
  set (mt := createGLTexture
               (if b then reshapeTo2D (set_tensor (new_Tensor [] osh) v)
                else reshapeTo2DSquare (set_tensor (new_Tensor [] osh) v))).
  set (ot0 := createGLTexture
                (if b then reshapeTo2D (new_Tensor ([] : list A) osh)
                 else reshapeTo2DSquare (new_Tensor [] osh))).
  assert (Him : index_map_ok start ish osh mt).
  { unfold mt. rewrite layout_pick.
    destruct (layout2D_texture (negb b) (set_tensor (new_Tensor [] osh) v))
      as (tex & rows & cols & Ht & _ & _ & _ & _ & Hread);
      [apply osh_nonneg
      |intros _; apply contiguous_sentinel_map, step_fits|].
    exists tex. split; [done|]. intros idx Hidx.
    cbn [tensor set_tensor] in Hread. change (shape v) with osh in Hread.
    rewrite (Hread idx) by done. unfold v.
    by destruct (get_sentinel_map_is_Some osh start ish
                   (ndarray_of (seqZ 0 (shape_size ish)) ish) idx step_fits Hidx)
      as [q ->]. }
  assert (Hok : output_ok osh ot0).
  { unfold ot0. rewrite layout_pick.
    destruct (layout2D_texture (negb b) (new_Tensor ([] : list A) osh))
      as (tex & rows & cols & Ht & Hs & Hsz & Hoo & Hotb & _);
      [rewrite shape_new_zero; apply osh_nonneg
      |intros _; apply contiguous_new_zero; lia|].
    rewrite shape_new_zero in Hsz, Hoo, Hotb.
    by exists tex, rows, cols. }
  destruct (runProgram_pads _ _ _ _ ot0 _ mt step_fits Hup Him Hok)
    as (xsh & cols & ot1 & f & Hxsh & Hcols & Hrun & _ & _ & Hok1 & Hup1 & Hp).
  destruct (readback_pads (outbound L) _ _ _ Hup1)
    as (ot2 & Hback & Hup2 & Hok2 & Hhost).
  exists (new_Tensor (table_data (linear_table ish)) (table_shape (linear_table ish))),
    mt, ot2, f.
  split; [|by auto].
  assert (Hlx : (x < length (floats w))%nat) by (by eapply lookup_lt_Some).
  rewrite (callGPU_run _ _ _ _ Hx (gpu_input_fits_square _ _ Hin)).
  erewrite (remap_fresh_run L x (upload xt) _ ish osh (linear_table ish) v);
    eauto.
  - cbn [floats ints]. by rewrite length_insert.
  - cbn [floats]. by apply list_lookup_insert_eq.
  - rewrite <- Hf. by apply padded_layout.
Qed.
End step.

(** ** The GPU path against the CPU path *)

Lemma zip_add_sub (start idx : list Z) :
  length idx = length start →
  zip_with Z.add start (zip_with Z.sub idx start) = idx.
Proof.
  revert idx. induction start as [|b start IH]; intros [|i idx] Hl;
    simpl in *; try done.
  f_equal; [lia|]. apply IH. lia.
Qed.

Lemma zip_sub_add (start j : list Z) :
  length j = length start →
  zip_with Z.sub (zip_with Z.add start j) start = j.
Proof.
  revert j. induction start as [|b start IH]; intros [|i j] Hl;
    simpl in *; try done.
  f_equal; [lia|]. apply IH. lia.
Qed.

(** The zero-padded tensor is determined on the whole output shape. *)
Lemma pads_to_agree {A} `{TypedArray A} start ish osh
    (src f g : list Z → option A) idx :
  fits start ish osh →
  pads_to start ish osh src f → pads_to start ish osh src g →
  in_box idx osh → f idx = g idx.
Proof.
  intros Hfits [Hf1 Hf2] [Hg1 Hg2] Hidx.
  destruct (fits_lengths _ _ _ Hfits) as [Hl1 Hl2].
  pose proof (in_box_length _ _ Hidx) as Hl3.
  destruct (decide (Forall2 (λ i n, 0 ≤ i < n) (zip_with Z.sub idx start) ish))
    as [Hin|Hout].
  - rewrite <- (zip_add_sub start idx) by lia.
    by rewrite (Hf1 _ Hin), (Hg1 _ Hin).
  - assert (∀ j, in_box j ish → idx ≠ zip_with Z.add start j) as Hne.
    { intros j Hj ->. apply Hout. rewrite zip_sub_add; [done|].
      apply in_box_length in Hj. lia. }
    by rewrite (Hf2 _ Hidx Hne), (Hg2 _ Hidx Hne).
Qed.

Lemma pads_to_ext {A} `{TypedArray A} start ish osh
    (src src' f f' : list Z → option A) :
  fits start ish osh →
  (∀ j, in_box j ish → src' j = src j) →
  (∀ idx, in_box idx osh → f' idx = f idx) →
  pads_to start ish osh src f → pads_to start ish osh src' f'.
Proof.
  intros Hfits Hsrc Hf [H1 H2]. split.
  - intros j Hj. rewrite Hf by eauto using in_box_shift.
    by rewrite H1, Hsrc.
  - intros idx Hidx Hne. rewrite Hf by done. by apply H2.
Qed.

(** The CPU path pads its input, in either axis order. *)
Lemma cpu_pads_to {A} `{TypedArray A} (L : ZeroPadding3D) (x : loc)
    (xt : Tensor A) (w : World A) (b0 a0 b1 a1 b2 a2 s0 s1 s2 c : Z) :
  normalized L b0 a0 b1 a1 b2 a2 →
  floats w !! x = Some xt →
  rank4 (channels_first L) (tensor xt) s0 s1 s2 c →
  in_bounds (tensor xt) = true →
  ∃ v,
    cpu_result L x w = Some v ∧
    shape v = layout (channels_first L)
                (s0 + b0 + a0) (s1 + b1 + a1) (s2 + b2 + a2) c ∧
    pads_to (layout (channels_first L) b0 b1 b2 0)
            (layout (channels_first L) s0 s1 s2 c)
            (layout (channels_first L)
               (s0 + b0 + a0) (s1 + b1 + a1) (s2 + b2 + a2) c)
            (get (tensor xt)) (get v).
Proof.
  intros Hn Hx Hr Hb. unfold cpu_result.
  rewrite (callCPU_result L x xt w b0 a0 b1 a1 b2 a2 s0 s1 s2 c Hn Hx Hr).
  cbn [output set_output floats]. rewrite lookup_snoc_new.
  eexists. split; [reflexivity|]. cbn [tensor set_tensor].
  destruct Hr as (Hsh & Hst & ? & ? & ? & ?).
  pose proof Hn as (_ & ? & ? & ? & ? & ? & ?).
  assert (Hf := fits_last b0 a0 b1 a1 b2 a2 s0 s1 s2 c
    ltac:(lia) ltac:(lia) ltac:(lia) ltac:(lia) ltac:(lia) ltac:(lia)
    ltac:(lia) ltac:(lia) ltac:(lia) ltac:(lia)).
  destruct (channels_first L); unfold layout in *.
  - split; [done|]. split.
    + intros j Hj. pose proof Hj as Hj'. rewrite <- Hsh in Hj'.
      destruct (in_bounds_get _ _ Hb Hj') as [a Ha].
      apply in_box4_inv in Hj as (ch & i & jj & k & -> & ? & ? & ? & ?).
      cbn [zip_with]. rewrite get_permute_3012 by done.
      assert (Hq : in_box [i; jj; k; ch] [s0; s1; s2; c]) by (by apply in_box4).
      pose proof (padded_inside _ _ _ (permute [1; 2; 3; 0]%nat (tensor xt))
                    Hf _ Hq) as Hp.
      cbn [zip_with] in Hp. rewrite Hp.
      rewrite get_permute_1230 by (by rewrite ?Hsh). by rewrite Ha.
    + intros idx Hidx Hne.
      apply in_box4_inv in Hidx as (ch & i & jj & k & -> & ? & ? & ? & ?).
      rewrite get_permute_3012 by done.
      apply (padded_outside _ _ _ _ Hf); [by apply in_box4|].
      intros j Hj Heq.
      apply in_box4_inv in Hj as (i' & j' & k' & ch' & -> & ? & ? & ? & ?).
      cbn [zip_with] in Heq. injection Heq as -> -> -> ->.
      apply (Hne [ch'; i'; j'; k']); [by apply in_box4|done].
  - split; [done|]. split.
    + intros j Hj. rewrite (padded_inside _ _ _ _ Hf _ Hj).
      rewrite <- Hsh in Hj. by destruct (in_bounds_get _ _ Hb Hj) as [a ->].
    + intros idx Hidx Hne. by apply (padded_outside _ _ _ _ Hf).
Qed.

(** A GPU-path instance on its first call, with readback, against a CPU-path
    instance of the same configuration. *)
Lemma fresh_gpu_matches_cpu {A} `{TypedArray A}
    (Lg Lc : ZeroPadding3D) (x : loc) (xt : Tensor A) (w : World A)
    (b0 a0 b1 a1 b2 a2 s0 s1 s2 c : Z) :
  normalized Lg b0 a0 b1 a1 b2 a2 →
  padding Lc = padding Lg → dataFormat Lc = dataFormat Lg →
  fresh_gpu Lg → outbound Lg = [] → gpu Lc = false →
  floats w !! x = Some xt → glTexture xt = None →
  rank4 (channels_first Lg) (tensor xt) s0 s1 s2 c →
  in_bounds (tensor xt) = true →
  contiguous (tensor xt) →
  ∃ vg vc,
    output_of (call Lg x w) = Some vg ∧
    output_of (call Lc x w) = Some vc ∧
    shape vg = shape vc ∧
    ∀ idx, in_box idx (shape vc) → get vg idx = get vc idx.
Proof.
  intros Hn Hpad Hdf (Hg & Hm & Ho) Hob Hc Hx Hnt Hr Hb Hcont.
  assert (Hcf : channels_first Lc = channels_first Lg)
    by (unfold channels_first; by rewrite Hdf).
  assert (Hnc : normalized Lc b0 a0 b1 a1 b2 a2)
    by (unfold normalized in *; by rewrite Hpad).
  pose proof Hr as (Hsh & _ & ? & ? & ? & ?).
  pose proof Hn as (_ & ? & ? & ? & ? & ? & ?).
  rewrite <- Hcf in Hr.
  destruct (cpu_pads_to Lc x xt w b0 a0 b1 a1 b2 a2 s0 s1 s2 c Hnc Hx Hr Hb)
    as (vc & Hvc & Hshc & Hpc).
  rewrite Hcf in Hshc, Hpc.
  assert (Hin : gpu_input (layout (channels_first Lg) s0 s1 s2 c) xt)
    by (unfold gpu_input; by rewrite Hnt).
  destruct (callGPU_fresh_step (channels_first Lg) b0 a0 b1 a1 b2 a2 s0 s1 s2 c
              ltac:(lia) ltac:(lia) Lg x xt w eq_refl Hn Hm Ho Hx Hin)
    as (ind & mt & ot2 & f & Hrun & _ & _ & _ & Hpg & Hhost).
  destruct (Hhost Hob) as [Hshg Hget].
  exists (tensor ot2), vc.
  split.
  { unfold call. rewrite Hg. erewrite bind_Some by exact Hrun.
    cbn [output_of mret M_ret output set_output floats].
    by rewrite list_lookup_middle by (by rewrite length_insert). }
  split.
  { unfold call. rewrite Hc. unfold cpu_result in Hvc.
    destruct (_callCPU Lc x w) as [[L' w']|] eqn:Hcpu; [|done].
    erewrite bind_Some by exact Hcpu. cbn [output_of mret M_ret].
    by destruct (output L'). }
  split; [by rewrite Hshg, Hshc|].
  intros idx Hidx. rewrite Hshc in Hidx. rewrite Hget by done.
  assert (Hel : ∀ j, element xt j = get (tensor xt) j)
    by (intros j; unfold element; by rewrite Hnt).
  eapply pads_to_agree; [| |exact Hpc|exact Hidx].
  - apply fits_layout; lia.
  - eapply pads_to_ext; [apply fits_layout; lia| | |exact Hpg]; [|done].
    intros j _. by rewrite Hel.
Qed.

(** ** Repeated calls on the GPU path *)

Section repeated.
Context {A : Type} `{TypedArray A}.
Variables (first : bool) (b0 a0 b1 a1 b2 a2 s0 s1 s2 c : Z) (w0 : World A).
Hypothesis Hpads : 0 ≤ b0 ∧ 0 ≤ a0 ∧ 0 ≤ b1 ∧ 0 ≤ a1 ∧ 0 ≤ b2 ∧ 0 ≤ a2.
Hypothesis Hext : 0 ≤ s0 ∧ 0 ≤ s1 ∧ 0 ≤ s2 ∧ 0 ≤ c.

Local Abbreviation ish := (layout first s0 s1 s2 c).
Local Abbreviation osh :=
  (layout first (s0 + b0 + a0) (s1 + b1 + a1) (s2 + b2 + a2) c).
Local Abbreviation start := (layout first b0 b1 b2 0).
Local Abbreviation inv := (gpu_inv first b0 a0 b1 a1 b2 a2 s0 s1 s2 c w0).

Lemma upload_keeps (xt xt0 : Tensor A) :
  gpu_input ish xt →
  (∀ idx, in_box idx ish → element xt idx = element xt0 idx) →
  gpu_input ish (upload xt) ∧
  ∀ idx, in_box idx ish → element (upload xt) idx = element xt0 idx.
Proof.
  intros Hin Hel.
  pose proof (upload_uploaded _ _ (ish_nonneg first s0 s1 s2 c Hext) Hin) as Hup.
  split; [by eapply uploaded_gpu_input|].
  intros idx Hidx. rewrite (element_uploaded _ _ _ _ Hup Hidx). by apply Hel.
Qed.

Lemma padded_element (xt xt0 ot : Tensor A) f :
  (∀ idx, in_box idx ish → element xt idx = element xt0 idx) →
  uploaded osh f ot →
  pads_to start ish osh (element xt) f →
  pads_to start ish osh (element xt0) (element ot).
Proof.
  intros Hel Hup Hp.
  eapply pads_to_ext; [by apply step_fits| | |exact Hp].
  - intros j Hj. symmetry. by apply Hel.
  - intros idx Hidx. by apply (element_uploaded _ _ _ _ Hup).
Qed.

(** A call on a cached instance keeps the invariant and pads its input. *)
Lemma cached_call_inv (m o : loc) (L : ZeroPadding3D) (w : World A)
    (x : loc) (xt0 : Tensor A) :
  inv m o L w →
  floats w0 !! x = Some xt0 → gpu_input ish xt0 →
  ∃ L' w' ot,
    call L x w = Some (L', Some o, w') ∧
    inv m o L' w' ∧ outbound L' = outbound L ∧
    ints w' = ints w ∧ length (floats w') = length (floats w) ∧
    floats w' !! o = Some ot ∧
    pads_to start ish osh (element xt0) (element ot) ∧
    (outbound L = [] →
     shape (tensor ot) = osh ∧
     pads_to start ish osh (element xt0) (get (tensor ot))).
Proof.
  intros (Hf & Hn & Hg & Hm & Ho & Hle & (mt & Hmt & Him) & (ot & Hot & Hok)
          & Hkept) Hx0 Hin0.
  destruct (Hkept _ _ Hx0 Hin0) as (xt & Hx & Hin & Hel).
  assert (Hx0lt : (x < length (floats w0))%nat) by (by eapply lookup_lt_Some).
  assert (Hxo : x ≠ o) by lia.
  assert (Hxlt : (x < length (floats w))%nat) by (by eapply lookup_lt_Some).
  assert (Holt : (o < length (floats w))%nat) by (by eapply lookup_lt_Some).
  destruct (callGPU_cached_step first b0 a0 b1 a1 b2 a2 s0 s1 s2 c Hpads Hext
              L x xt w m o ot mt Hf Hn Hm Ho Hx Hin Hxo Hot Hok Hmt Him)
    as (ot2 & f & Hrun & Hok2 & Hup2 & Hp & Hhost).
  eexists _, _, ot2. split.
  { unfold call. rewrite Hg. erewrite bind_Some by exact Hrun.
    cbn [mret M_ret output set_shapes]. by rewrite Ho. }
  assert (Ho2 : <[o:=ot2]> (<[x:=upload xt]> (floats w)) !! o = Some ot2)
    by (apply list_lookup_insert_eq; by rewrite length_insert).
  split.
  { unfold gpu_inv. split_and!; try done.
    - exists mt. by split.
    - exists ot2. by split.
    - intros y yt0 Hy0 Hyin. destruct (Hkept _ _ Hy0 Hyin) as (yt & Hy & Hyi & Hye).
      assert ((y < length (floats w0))%nat) by (by eapply lookup_lt_Some).
      cbn [floats]. rewrite list_lookup_insert_ne by lia.
      destruct (decide (y = x)) as [->|Hne].
      + exists (upload xt). rewrite list_lookup_insert_eq by done.
        split; [done|]. assert (yt0 = xt0) as -> by congruence.
        by apply upload_keeps.
      + exists yt. by rewrite list_lookup_insert_ne. }
  split; [done|]. split; [done|].
  split; [cbn [floats]; by rewrite !length_insert|].
  split; [done|]. split; [by eapply padded_element|].
  intros Hob. destruct (Hhost Hob) as [Hsh Hget]. split; [done|].
  eapply pads_to_ext; [by apply step_fits| | |exact Hp]; [|done].
  intros j Hj. symmetry. by apply Hel.
Qed.

(** Any further sequence of calls on inputs of that shape keeps it. *)
Lemma calls_inv (m o : loc) (xs : list loc) (L : ZeroPadding3D) (w : World A) :
  inv m o L w →
  Forall (λ y, ∃ yt, floats w0 !! y = Some yt ∧ gpu_input ish yt) xs →
  ∃ L' w', calls L xs w = Some (L', w') ∧ inv m o L' w' ∧
           outbound L' = outbound L.
Proof.
  intros Hinv Hall. revert L w Hinv.
  induction Hall as [|x xs (xt0 & Hx0 & Hin0) _ IH]; intros L w Hinv.
  - exists L, w. by split_and!.
  - destruct (cached_call_inv m o L w x xt0 Hinv Hx0 Hin0)
      as (L1 & w1 & ot & Hcall & Hinv1 & Hob1 & _).
    destruct (IH L1 w1 Hinv1) as (L2 & w2 & Hcalls & Hinv2 & Hob2).
    exists L2, w2. split; [|split; [done|congruence]].
    cbn [calls]. by erewrite bind_Some by exact Hcall.
Qed.

(** The first call of a fresh instance establishes the invariant. *)
Lemma first_call_inv (L0 : ZeroPadding3D) (x : loc) (xt0 : Tensor A) :
  fresh_gpu L0 → channels_first L0 = first →
  normalized L0 b0 a0 b1 a1 b2 a2 →
  floats w0 !! x = Some xt0 → gpu_input ish xt0 →
  ∃ L1 w1,
    call L0 x w0 = Some (L1, Some (length (floats w0)), w1) ∧
    inv (S (length (ints w0))) (length (floats w0)) L1 w1 ∧
    outbound L1 = outbound L0.
Proof.
  intros (Hg & Hm & Ho) Hf Hn Hx Hin.
  assert (Hxlt : (x < length (floats w0))%nat) by (by eapply lookup_lt_Some).
  destruct (callGPU_fresh_step first b0 a0 b1 a1 b2 a2 s0 s1 s2 c Hpads Hext
              L0 x xt0 w0 Hf Hn Hm Ho Hx Hin)
    as (ind & mt & ot2 & f & Hrun & Him & Hok & _).
  eexists _, _. split.
  { unfold call. rewrite Hg. erewrite bind_Some by exact Hrun.
    by cbn [mret M_ret output set_output]. }
  split; [|done]. unfold gpu_inv. split_and!; try done.
  - exists mt. split; [|done]. cbn [ints].
    change (ints w0 ++ [ind; mt]) with (ints w0 ++ [ind] ++ [mt]).
    rewrite app_assoc. apply list_lookup_middle.
    rewrite length_app. simpl. lia.
  - exists ot2. split; [|done]. cbn [floats].
    apply list_lookup_middle. by rewrite length_insert.
  - intros y yt0 Hy0 Hyin. cbn [floats].
    assert ((y < length (floats w0))%nat) by (by eapply lookup_lt_Some).
    rewrite lookup_app_l by (by rewrite length_insert).
    destruct (decide (y = x)) as [->|Hne].
    + exists (upload xt0). rewrite list_lookup_insert_eq by done.
      split; [done|]. assert (yt0 = xt0) as -> by congruence.
      by apply upload_keeps.
    + exists yt0. by rewrite list_lookup_insert_ne.
Qed.
End repeated.

(** ** Claims about the GPU path *)

Lemma index_map_is_sentinel_around_table_witness :
  let L := set_shapes gpu_layer [2; 2; 2; 1] [3; 3; 2; 1] in
  let tb := linear_table [2; 2; 2; 1] in
  (normalized L 1 0 0 1 0 0 ∧ 0 ≤ 2 ∧ 0 ≤ 2 ∧ 0 ≤ 2 ∧ 0 ≤ 1 ∧
   inputShape L = Some (layout (channels_first L) 2 2 2 1) ∧
   outputShape L
   = (if channels_first L
      then padded_first L (layout (channels_first L) 2 2 2 1)
      else padded_last L (layout (channels_first L) 2 2 2 1)) ∧
   table_shape tb = layout (channels_first L) 2 2 2 1 ∧
   length (table_data tb)
   = Z.to_nat (shape_size (layout (channels_first L) 2 2 2 1)))
  ∧ ∃ v,
      indexMap_tensor L tb = Some v ∧
      outputShape L = Some (shape v) ∧
      shape v = layout (channels_first L) (2 + 1 + 0) (2 + 0 + 1) (2 + 0 + 0) 1 ∧
      (∀ j, in_box j (layout (channels_first L) 2 2 2 1) →
            get v (zip_with Z.add (layout (channels_first L) 1 0 0 0) j)
            = get (ndarray_of (table_data tb) (table_shape tb)) j) ∧
      (∀ idx, in_box idx (shape v) →
              (∀ j, in_box j (layout (channels_first L) 2 2 2 1) →
                    idx ≠ zip_with Z.add (layout (channels_first L) 1 0 0 0) j) →
              get v idx = Some (-1)).
Proof.
  intros L tb.
  assert (Hn : normalized L 1 0 0 1 0 0)
    by (unfold normalized; repeat split; try reflexivity; lia).
  split; [repeat split; try reflexivity; try apply Hn; lia|].
  apply (index_map_is_sentinel_around_table L tb 1 0 0 1 0 0 2 2 2 1);
    [exact Hn | lia | lia | lia | lia | reflexivity | reflexivity
     | reflexivity | reflexivity].
Defined.

Lemma configured_normalized df b0 a0 b1 a1 b2 a2 g :
  0 ≤ b0 → 0 ≤ a0 → 0 ≤ b1 → 0 ≤ a1 → 0 ≤ b2 → 0 ≤ a2 →
  normalized (configured df b0 a0 b1 a1 b2 a2 g) b0 a0 b1 a1 b2 a2.
Proof. intros. by repeat split. Qed.

(** C3, as stated: for a rank-4 host input that is a strided view of its
    buffer (the counting input with its first two axes exchanged), the
    GPU-path result after readback differs from the CPU-path output: the
    upload copies the buffer as it lies, so the GPU path pads the buffer in
    row-major order and the CPU path pads the view. *)
Lemma strided_input_gpu_differs_from_cpu :
  glTexture strided = None ∧ rank4 false (tensor strided) 2 2 2 1 ∧
  in_bounds (tensor strided) = true ∧
  ∃ vg vc,
    output_of (call (configured None 1 0 0 1 0 0 true) 0%nat strided_world)
    = Some vg ∧
    output_of (call (configured None 1 0 0 1 0 0 false) 0%nat strided_world)
    = Some vc ∧
    in_box [1; 1; 0; 0] (shape vc) ∧
    get vc [1; 1; 0; 0] = get (tensor strided) [0; 1; 0; 0] ∧
    get vg [1; 1; 0; 0] ≠ get vc [1; 1; 0; 0].
Proof.
  split; [reflexivity|]. split; [by repeat split|]. split; [reflexivity|].
  eexists _, _. split; [vm_compute; reflexivity|].
  split; [vm_compute; reflexivity|].
  split; [apply in_box4; cbn; lia|]. split; [reflexivity|].
  vm_compute. discriminate.
Qed.

(** C3, amended. For a rank-4 host input that is the row-major view of its
    whole buffer and a configuration (a non-negative padding spec and either
    axis order), the GPU-path result after readback, in which each output
    texel is the source texel the index map names or zero at the sentinel,
    has the shape of the CPU-path output for that input and configuration
    and the same element at every index. *)
Theorem gpu_result_matches_cpu {A} `{TypedArray A}
    (df : option string) (b0 a0 b1 a1 b2 a2 : Z)
    (x : loc) (xt : Tensor A) (w : World A) (s0 s1 s2 c : Z) :
  0 ≤ b0 → 0 ≤ a0 → 0 ≤ b1 → 0 ≤ a1 → 0 ≤ b2 → 0 ≤ a2 →
  floats w !! x = Some xt → glTexture xt = None →
  rank4 (channels_first (configured df b0 a0 b1 a1 b2 a2 true))
        (tensor xt) s0 s1 s2 c →
  in_bounds (tensor xt) = true →
  contiguous (tensor xt) →
  ∃ vg vc,
    output_of (call (configured df b0 a0 b1 a1 b2 a2 true) x w) = Some vg ∧
    output_of (call (configured df b0 a0 b1 a1 b2 a2 false) x w) = Some vc ∧
    shape vg = shape vc ∧
    ∀ idx, in_box idx (shape vc) → get vg idx = get vc idx.
Proof.
  intros ? ? ? ? ? ? Hx Hnt Hr Hb Hc.
  pose proof (configured_normalized df b0 a0 b1 a1 b2 a2 true) as Hn.
  by apply (fresh_gpu_matches_cpu _ _ x xt w b0 a0 b1 a1 b2 a2 s0 s1 s2 c);
    auto.
Qed.

Lemma gpu_result_matches_cpu_witness :
  (0 ≤ 1 ∧ 0 ≤ 0 ∧ 0 ≤ 0 ∧ 0 ≤ 1 ∧ 0 ≤ 0 ∧ 0 ≤ 0 ∧
   floats three_inputs !! 1%nat = Some counting ∧ glTexture counting = None ∧
   rank4 (channels_first
            (configured (Some "channels_first"%string) 1 0 0 1 0 0 true))
         (tensor counting) 2 2 1 2 ∧
   in_bounds (tensor counting) = true ∧
   contiguous (tensor counting))
  ∧ ∃ vg vc,
      output_of (call (configured (Some "channels_first"%string) 1 0 0 1 0 0 true)
                      1%nat three_inputs) = Some vg ∧
      output_of (call (configured (Some "channels_first"%string) 1 0 0 1 0 0 false)
                      1%nat three_inputs) = Some vc ∧
      shape vg = shape vc ∧
      ∀ idx, in_box idx (shape vc) → get vg idx = get vc idx.
Proof.
  assert (Hr : rank4 (channels_first
                        (configured (Some "channels_first"%string) 1 0 0 1 0 0 true))
                     (tensor counting) 2 2 1 2)
    by (unfold rank4; repeat split; try reflexivity; lia).
  assert (Hc : contiguous (tensor counting)) by (by repeat split).
  split; [split_and!; try reflexivity; try lia; try apply Hr; exact Hc|].
  apply (gpu_result_matches_cpu (Some "channels_first"%string) 1 0 0 1 0 0
           1%nat counting three_inputs 2 2 1 2);
    [lia | lia | lia | lia | lia | lia | reflexivity | reflexivity
     | exact Hr | reflexivity | exact Hc].
Defined.

(** A first call on the scenario input, then a call on an input of another
    shape. *)
Lemma caches_built_once_and_kept_witness :
  ∃ L1 o1 w1 L2 w2,
    (gpu gpu_layer = true ∧
     call gpu_layer 0%nat three_inputs = Some (L1, o1, w1) ∧
     calls L1 [2%nat] w1 = Some (L2, w2))
    ∧ ∃ m o,
        indexMap L1 = Some m ∧ output L1 = Some o ∧
        indexMap L2 = Some m ∧ output L2 = Some o ∧
        ints w2 = ints w1 ∧ length (floats w2) = length (floats w1).
Proof.
  destruct (call gpu_layer 0%nat three_inputs) as [[[L1 o1] w1]|] eqn:H1;
    [|by vm_compute in H1].
  destruct (calls L1 [2%nat] w1) as [[L2 w2]|] eqn:H2.
  - exists L1, o1, w1, L2, w2. split; [by repeat split|].
    by apply (caches_built_once_and_kept gpu_layer L1 L2 0%nat [2%nat] o1
                three_inputs w1 w2).
  - exfalso. vm_compute in H1. injection H1 as <- <- <-.
    by vm_compute in H2.
Defined.

(** C8, as stated: on an instance of the CPU path a second call with the
    same input does not find the output of the first call in place. *)
Lemma cpu_instance_does_not_reuse_output :
  ¬ ∃ L1 w1 L2 w2 o,
      calls scenario_layer [0%nat] scenario_world = Some (L1, w1) ∧
      output L1 = Some o ∧
      call L1 0%nat w1 = Some (L2, Some o, w2) ∧
      length (floats w2) = length (floats w1).
Proof.
  intros (L1 & w1 & L2 & w2 & o & H1 & Ho & H2 & Hl).
  vm_compute in H1. injection H1 as <- <-.
  vm_compute in Ho. injection Ho as <-.
  by vm_compute in H2.
Qed.

(** C8, amended. On an instance of the GPU path, after any non-empty
    sequence of calls on inputs of one shape (host tensors that are the
    row-major views of their whole buffers, or tensors already on the GPU),
    a further call on an input of that shape returns the output object and
    keeps the index map that the first call built, allocates nothing, and
    leaves in the output the zero-padded input: in its texture, and in its
    host tensor when the layer reads back. *)
Theorem gpu_repeated_calls_reuse_caches {A} `{TypedArray A}
    (L0 : ZeroPadding3D) (w0 : World A) (x0 : loc) (xs : list loc) (x : loc)
    (xt0 : Tensor A) (b0 a0 b1 a1 b2 a2 s0 s1 s2 c : Z) :
  fresh_gpu L0 → normalized L0 b0 a0 b1 a1 b2 a2 →
  0 ≤ s0 → 0 ≤ s1 → 0 ≤ s2 → 0 ≤ c →
  Forall (is_input (layout (channels_first L0) s0 s1 s2 c) w0) (x0 :: xs) →
  floats w0 !! x = Some xt0 →
  gpu_input (layout (channels_first L0) s0 s1 s2 c) xt0 →
  ∃ La wa L1 w1 L2 w2 m o ot,
    call L0 x0 w0 = Some (La, Some o, wa) ∧ indexMap La = Some m ∧
    calls L0 (x0 :: xs) w0 = Some (L1, w1) ∧
    indexMap L1 = Some m ∧ output L1 = Some o ∧
    call L1 x w1 = Some (L2, Some o, w2) ∧
    indexMap L2 = Some m ∧ output L2 = Some o ∧
    ints w2 = ints w1 ∧ length (floats w2) = length (floats w1) ∧
    floats w2 !! o = Some ot ∧
    pads_to (layout (channels_first L0) b0 b1 b2 0)
            (layout (channels_first L0) s0 s1 s2 c)
            (layout (channels_first L0)
               (s0 + b0 + a0) (s1 + b1 + a1) (s2 + b2 + a2) c)
            (element xt0) (element ot) ∧
    (outbound L0 = [] →
     pads_to (layout (channels_first L0) b0 b1 b2 0)
             (layout (channels_first L0) s0 s1 s2 c)
             (layout (channels_first L0)
                (s0 + b0 + a0) (s1 + b1 + a1) (s2 + b2 + a2) c)
             (element xt0) (get (tensor ot))).
Proof.
  intros Hfresh Hn ? ? ? ? Hall Hx Hin.
  pose proof Hn as (_ & ? & ? & ? & ? & ? & ?).
  inversion Hall as [|? ? (xt & Hx0 & Hin0) Hrest]; subst.
  destruct (first_call_inv (channels_first L0) b0 a0 b1 a1 b2 a2 s0 s1 s2 c w0
              ltac:(lia) ltac:(lia) L0 x0 xt Hfresh eq_refl Hn Hx0 Hin0)
    as (La & wa & Hfirst & Hinva & Hoba).
  destruct (calls_inv (channels_first L0) b0 a0 b1 a1 b2 a2 s0 s1 s2 c w0
              ltac:(lia) ltac:(lia) _ _ xs La wa Hinva Hrest)
    as (L1 & w1 & Hcalls & Hinv1 & Hob1).
  destruct (cached_call_inv (channels_first L0) b0 a0 b1 a1 b2 a2 s0 s1 s2 c w0
              ltac:(lia) ltac:(lia) _ _ L1 w1 x xt0 Hinv1 Hx Hin)
    as (L2 & w2 & ot & Hcall & Hinv2 & Hob2 & Hints & Hlen & Hot & Hp & Hhost).
  exists La, wa, L1, w1, L2, w2, (S (length (ints w0))), (length (floats w0)), ot.
  pose proof Hinva as (_ & _ & _ & Hma & _).
  destruct Hinv1 as (_ & _ & _ & Hm1 & Ho1 & _).
  destruct Hinv2 as (_ & _ & _ & Hm2 & Ho2 & _).
  split_and!; try done.
  - cbn [calls]. by erewrite bind_Some by exact Hfirst.
  - intros Hob. apply Hhost. congruence.
Qed.

Lemma gpu_repeated_calls_reuse_caches_witness :
  (fresh_gpu gpu_layer ∧ normalized gpu_layer 1 0 0 1 0 0 ∧
   0 ≤ 2 ∧ 0 ≤ 2 ∧ 0 ≤ 2 ∧ 0 ≤ 1 ∧
   Forall (is_input (layout (channels_first gpu_layer) 2 2 2 1) three_inputs)
          [0%nat; 1%nat; 0%nat] ∧
   floats three_inputs !! 1%nat = Some counting ∧
   gpu_input (layout (channels_first gpu_layer) 2 2 2 1) counting)
  ∧ ∃ La wa L1 w1 L2 w2 m o ot,
      call gpu_layer 0%nat three_inputs = Some (La, Some o, wa) ∧
      indexMap La = Some m ∧
      calls gpu_layer [0%nat; 1%nat; 0%nat] three_inputs = Some (L1, w1) ∧
      indexMap L1 = Some m ∧ output L1 = Some o ∧
      call L1 1%nat w1 = Some (L2, Some o, w2) ∧
      indexMap L2 = Some m ∧ output L2 = Some o ∧
      ints w2 = ints w1 ∧ length (floats w2) = length (floats w1) ∧
      floats w2 !! o = Some ot ∧
      pads_to (layout (channels_first gpu_layer) 1 0 0 0)
              (layout (channels_first gpu_layer) 2 2 2 1)
              (layout (channels_first gpu_layer)
                 (2 + 1 + 0) (2 + 0 + 1) (2 + 0 + 0) 1)
              (element counting) (element ot) ∧
      (outbound gpu_layer = [] →
       pads_to (layout (channels_first gpu_layer) 1 0 0 0)
               (layout (channels_first gpu_layer) 2 2 2 1)
               (layout (channels_first gpu_layer)
                  (2 + 1 + 0) (2 + 0 + 1) (2 + 0 + 0) 1)
               (element counting) (get (tensor ot))).
Proof.
  assert (Hn : normalized gpu_layer 1 0 0 1 0 0)
    by (unfold normalized; repeat split; try reflexivity; lia).
  assert (Hfr : fresh_gpu gpu_layer) by (by repeat split).
  assert (H1 : gpu_input (layout (channels_first gpu_layer) 2 2 2 1) ones)
    by (repeat split).
  assert (H2 : gpu_input (layout (channels_first gpu_layer) 2 2 2 1) counting)
    by (repeat split).
  assert (Hall : Forall (is_input (layout (channels_first gpu_layer) 2 2 2 1)
                           three_inputs) [0%nat; 1%nat; 0%nat]).
  { repeat constructor.
    - by exists ones.
    - by exists counting.
    - by exists ones. }
  split; [split_and!; try done; lia|].
  apply (gpu_repeated_calls_reuse_caches gpu_layer three_inputs 0%nat
           [1%nat; 0%nat] 1%nat counting 1 0 0 1 0 0 2 2 2 1);
    [exact Hfr | exact Hn | lia | lia | lia | lia | exact Hall | reflexivity
     | exact H2].
Defined.

(** * Further properties of the layer *)

(** ** Zero-padded tensors *)

Lemma zip_add_assoc (a b j : list Z) :
  zip_with Z.add b (zip_with Z.add a j) = zip_with Z.add (zip_with Z.add a b) j.
Proof.
  revert b j. induction a as [|x a IH]; intros [|y b] [|i j]; simpl; try done.
  f_equal; [lia|apply IH].
Qed.

Lemma zip_add_zero (start j : list Z) :
  Forall (λ b, b = 0) start → length j = length start →
  zip_with Z.add start j = j.
Proof.
  intros Hz. revert j. induction Hz as [|b start -> _ IH]; intros [|i j] Hl;
    simpl in *; try done.
  f_equal. apply IH. lia.
Qed.

Lemma fits_compose start1 start2 ish mid osh :
  fits start1 ish mid → fits start2 mid osh →
  fits (zip_with Z.add start1 start2) ish osh.
Proof.
  intros H1. revert start2 osh.
  induction H1 as [|b s m start1 ish mid Hb _ IH]; intros start2 osh H2.
  - inversion H2; subst. constructor.
  - inversion H2 as [|b' m' o start2' mid' osh' Hb' H2']; subst. simpl.
    constructor; [lia|by apply IH].
Qed.

(** Where a padded tensor lies inside or outside the copied region is
    decided by subtracting the start of the region. *)
Lemma region_dec start ish osh idx :
  fits start ish osh → in_box idx osh →
  (∃ j, in_box j ish ∧ idx = zip_with Z.add start j)
  ∨ (∀ j, in_box j ish → idx ≠ zip_with Z.add start j).
Proof.
  intros Hfits Hidx.
  destruct (fits_lengths _ _ _ Hfits) as [Hl1 Hl2].
  pose proof (in_box_length _ _ Hidx) as Hl3.
  destruct (decide (Forall2 (λ i n, 0 ≤ i < n) (zip_with Z.sub idx start) ish))
    as [Hin|Hout].
  - left. exists (zip_with Z.sub idx start). split; [done|].
    rewrite zip_add_sub; [done|lia].
  - right. intros j Hj ->. apply Hout. rewrite zip_sub_add; [done|].
    apply in_box_length in Hj. lia.
Qed.

(** Padding a padded tensor is padding once, by the sum of the starts. *)
Lemma pads_to_compose {A} `{TypedArray A} start1 start2 ish mid osh
    (src f g : list Z → option A) :
  fits start1 ish mid → fits start2 mid osh →
  pads_to start1 ish mid src f → pads_to start2 mid osh f g →
  pads_to (zip_with Z.add start1 start2) ish osh src g.
Proof.
  intros Hf1 Hf2 [Hin1 Hout1] [Hin2 Hout2]. split.
  - intros j Hj. rewrite <- zip_add_assoc.
    rewrite Hin2 by (by eapply in_box_shift). by apply Hin1.
  - intros idx Hidx Hne.
    destruct (region_dec start2 mid osh idx Hf2 Hidx) as [(k & Hk & ->)|Hfar].
    + rewrite Hin2 by done. apply Hout1; [done|].
      intros j Hj ->. apply (Hne j Hj). by rewrite zip_add_assoc.
    + by apply Hout2.
Qed.

(** Every element of a padded tensor is defined when those of the source
    are. *)
Lemma pads_to_is_Some {A} `{TypedArray A} start ish osh
    (src out : list Z → option A) idx :
  fits start ish osh → pads_to start ish osh src out →
  (∀ j, in_box j ish → is_Some (src j)) →
  in_box idx osh → is_Some (out idx).
Proof.
  intros Hfits [Hin Hout] Hsrc Hidx.
  destruct (region_dec start ish osh idx Hfits Hidx) as [(j & Hj & ->)|Hfar].
  - rewrite Hin by done. by apply Hsrc.
  - rewrite Hout by done. eauto.
Qed.

Lemma in_bounds_intro {A} (v : ndarray A) :
  (∀ idx, in_box idx (shape v) → is_Some (get v idx)) → in_bounds v = true.
Proof.
  intros Hall. unfold in_bounds. apply forallb_forall. intros idx Hidx.
  apply list_elem_of_In, elem_of_indices, Hall in Hidx.
  by destruct Hidx as [a ->].
Qed.

(** ** The run of the CPU path, in either axis order *)

Section cpu_run.
Context {A : Type} `{TypedArray A}.
Variables (L : ZeroPadding3D) (x : loc) (xt : Tensor A) (w : World A).
Variables (b0 a0 b1 a1 b2 a2 s0 s1 s2 c : Z).
Hypothesis Hn : normalized L b0 a0 b1 a1 b2 a2.
Hypothesis Hx : floats w !! x = Some xt.
Hypothesis Hr : rank4 (channels_first L) (tensor xt) s0 s1 s2 c.

Local Abbreviation first := (channels_first L).
Local Abbreviation ish := (layout first s0 s1 s2 c).
Local Abbreviation osh :=
  (layout first (s0 + b0 + a0) (s1 + b1 + a1) (s2 + b2 + a2) c).
Local Abbreviation start := (layout first b0 b1 b2 0).

Lemma cpu_run_fits : fits start ish osh.
Proof.
  destruct Hn as (_ & ? & ? & ? & ? & ? & ?).
  destruct Hr as (_ & _ & ? & ? & ? & ?). by apply fits_layout.
Qed.

(** The layer and the store after the call: one new tensor, of rank 4 in the
    configured axis order, which is the padded input. *)
Lemma cpu_run_pads :
  in_bounds (tensor xt) = true →
  ∃ ot,
    _callCPU L x w
    = Some (set_output
              (set_shapes L [s0; s1; s2; c]
                 [s0 + b0 + a0; s1 + b1 + a1; s2 + b2 + a2; c])
              (length (floats w)),
            mkWorld (floats w ++ [ot]) (ints w)) ∧
    rank4 first (tensor ot) (s0 + b0 + a0) (s1 + b1 + a1) (s2 + b2 + a2) c ∧
    pads_to start ish osh (get (tensor xt)) (get (tensor ot)).
Proof.
  intros Hb.
  destruct (cpu_pads_to L x xt w b0 a0 b1 a1 b2 a2 s0 s1 s2 c Hn Hx Hr Hb)
    as (v & Hv & Hsh & Hp).
  pose proof (callCPU_result L x xt w b0 a0 b1 a1 b2 a2 s0 s1 s2 c Hn Hx Hr)
    as Hrun.
  cbv zeta in Hrun. unfold cpu_result in Hv. rewrite Hrun in Hv.
  cbn [output set_output floats] in Hv. rewrite lookup_snoc_new in Hv.
  cbn [fmap option_fmap option_map tensor set_tensor] in Hv.
  eexists. split; [exact Hrun|]. cbn [tensor set_tensor].
  injection Hv as Hv. rewrite Hv. split; [|done].
  destruct Hn as (_ & ? & ? & ? & ? & ? & ?).
  destruct Hr as (_ & _ & ? & ? & ? & ?).
  unfold rank4. split; [done|]. split; [|lia].
  rewrite <- Hv. by destruct (channels_first L).
Qed.
End cpu_run.

(** ** The CPU path: elements, shapes and composition *)

(** X1. In the channels-first configuration the CPU path returns a tensor of
    shape [c, s0+b0+a0, s1+b1+a1, s2+b2+a2] that holds the input element
    [ch, i, j, k] at [ch, i+b0, j+b1, k+b2] and zero at every index outside
    that region. *)
Theorem cpu_channels_first_copies_input_zero_elsewhere {A} `{TypedArray A}
    (L : ZeroPadding3D) (x : loc) (xt : Tensor A) (w : World A)
    (b0 a0 b1 a1 b2 a2 s0 s1 s2 c : Z) :
  channels_first L = true →
  normalized L b0 a0 b1 a1 b2 a2 →
  floats w !! x = Some xt →
  rank4 true (tensor xt) s0 s1 s2 c →
  in_bounds (tensor xt) = true →
  ∃ L' w' o ot,
    _callCPU L x w = Some (L', w') ∧ output L' = Some o ∧
    floats w' !! o = Some ot ∧
    shape (tensor ot) = [c; s0 + b0 + a0; s1 + b1 + a1; s2 + b2 + a2] ∧
    (∀ ch i j k,
       0 ≤ ch < c → 0 ≤ i < s0 → 0 ≤ j < s1 → 0 ≤ k < s2 →
       get (tensor ot) [ch; i + b0; j + b1; k + b2]
       = get (tensor xt) [ch; i; j; k]) ∧
    (∀ ch i j k,
       0 ≤ ch < c → 0 ≤ i < s0 + b0 + a0 → 0 ≤ j < s1 + b1 + a1 →
       0 ≤ k < s2 + b2 + a2 →
       ¬ (b0 ≤ i < b0 + s0 ∧ b1 ≤ j < b1 + s1 ∧ b2 ≤ k < b2 + s2) →
       get (tensor ot) [ch; i; j; k] = Some zero).
Proof.
  intros Hcf Hn Hx Hr Hb. rewrite <- Hcf in Hr.
  destruct (cpu_run_pads L x xt w b0 a0 b1 a1 b2 a2 s0 s1 s2 c Hn Hx Hr Hb)
    as (ot & Hrun & (Hsh & _) & Hin & Hout).
  rewrite Hcf in Hsh, Hin, Hout. unfold layout in Hsh, Hin, Hout.
  eexists _, _, _, ot. split; [exact Hrun|]. split; [done|].
  split; [apply lookup_snoc_new|]. split; [done|]. split.
  - intros ch i j k ? ? ? ?.
    rewrite <- (Hin [ch; i; j; k]) by (by apply in_box4).
    cbn [zip_with]. f_equal. apply list4_eq; lia.
  - intros ch i j k ? ? ? ? Hfar. apply Hout; [by apply in_box4|].
    intros idx Hidx Heq. apply Hfar.
    apply in_box4_inv in Hidx as (ch' & i' & j' & k' & -> & ? & ? & ? & ?).
    cbn [zip_with] in Heq. injection Heq as -> -> -> ->. lia.
Qed.

(** The scenario input in channels-first order, padded by one on each side
    of every spatial axis. *)
Lemma cpu_channels_first_copies_input_zero_elsewhere_witness :
  let Lf := new_ZeroPadding3D
              {| attr_padding := Some (JNum 1);
                 attr_data_format := Some "channels_first"%string;
                 attr_gpu := false |} in
  let xt : Tensor sample := new_Tensor (Num <$> seqZ 1 8) [1; 2; 2; 2] in
  let w := mkWorld [xt] [] in
  (channels_first Lf = true ∧ normalized Lf 1 1 1 1 1 1
   ∧ floats w !! 0%nat = Some xt ∧ rank4 true (tensor xt) 2 2 2 1
   ∧ in_bounds (tensor xt) = true)
  ∧ ∃ L' w' o ot,
      _callCPU Lf 0%nat w = Some (L', w') ∧ output L' = Some o ∧
      floats w' !! o = Some ot ∧
      shape (tensor ot) = [1; 2 + 1 + 1; 2 + 1 + 1; 2 + 1 + 1] ∧
      (∀ ch i j k,
         0 ≤ ch < 1 → 0 ≤ i < 2 → 0 ≤ j < 2 → 0 ≤ k < 2 →
         get (tensor ot) [ch; i + 1; j + 1; k + 1]
         = get (tensor xt) [ch; i; j; k]) ∧
      (∀ ch i j k,
         0 ≤ ch < 1 → 0 ≤ i < 2 + 1 + 1 → 0 ≤ j < 2 + 1 + 1 →
         0 ≤ k < 2 + 1 + 1 →
         ¬ (1 ≤ i < 1 + 2 ∧ 1 ≤ j < 1 + 2 ∧ 1 ≤ k < 1 + 2) →
         get (tensor ot) [ch; i; j; k] = Some zero).
Proof.
  intros Lf xt w.
  assert (Hn : normalized Lf 1 1 1 1 1 1)
    by (unfold normalized; repeat split; try reflexivity; lia).
  assert (Hr : rank4 true (tensor xt) 2 2 2 1)
    by (unfold rank4; repeat split; try reflexivity; lia).
  split; [repeat split; try reflexivity; try apply Hn; apply Hr|].
  apply (cpu_channels_first_copies_input_zero_elsewhere Lf 0%nat xt w
           1 1 1 1 1 1 2 2 2 1);
    [reflexivity | exact Hn | reflexivity | exact Hr | reflexivity].
Defined.

(** X2. With all six paddings zero the CPU path is the identity transform, in
    either axis order: the output has the shape of the input and the same
    element at every index. *)
Theorem cpu_zero_padding_is_identity {A} `{TypedArray A}
    (L : ZeroPadding3D) (x : loc) (xt : Tensor A) (w : World A)
    (s0 s1 s2 c : Z) :
  normalized L 0 0 0 0 0 0 →
  floats w !! x = Some xt →
  rank4 (channels_first L) (tensor xt) s0 s1 s2 c →
  in_bounds (tensor xt) = true →
  ∃ v, cpu_result L x w = Some v ∧
       shape v = shape (tensor xt) ∧
       ∀ idx, in_box idx (shape (tensor xt)) → get v idx = get (tensor xt) idx.
Proof.
  intros Hn Hx Hr Hb.
  destruct (cpu_pads_to L x xt w 0 0 0 0 0 0 s0 s1 s2 c Hn Hx Hr Hb)
    as (v & Hv & Hsh & Hin & _).
  destruct Hr as (Hshx & _).
  exists v. split; [done|]. rewrite Hsh, Hshx.
  split; [destruct (channels_first L); unfold layout; apply list4_eq; lia|].
  intros idx Hidx. rewrite <- (Hin idx Hidx). f_equal. symmetry.
  apply zip_add_zero.
  - by destruct (channels_first L); repeat constructor.
  - apply in_box_length in Hidx. rewrite Hidx.
    by destruct (channels_first L).
Qed.

Lemma cpu_zero_padding_is_identity_witness :
  let L0 := new_ZeroPadding3D
              {| attr_padding := Some (JNum 0);
                 attr_data_format := None;
                 attr_gpu := false |} in
  (normalized L0 0 0 0 0 0 0
   ∧ floats three_inputs !! 1%nat = Some counting
   ∧ rank4 (channels_first L0) (tensor counting) 2 2 2 1
   ∧ in_bounds (tensor counting) = true)
  ∧ ∃ v, cpu_result L0 1%nat three_inputs = Some v ∧
         shape v = shape (tensor counting) ∧
         ∀ idx, in_box idx (shape (tensor counting)) →
                get v idx = get (tensor counting) idx.
Proof.
  intros L0.
  assert (Hn : normalized L0 0 0 0 0 0 0)
    by (unfold normalized; repeat split; try reflexivity; lia).
  assert (Hr : rank4 (channels_first L0) (tensor counting) 2 2 2 1)
    by (unfold rank4; repeat split; try reflexivity; lia).
  split; [repeat split; try reflexivity; try apply Hn; apply Hr|].
  apply (cpu_zero_padding_is_identity L0 1%nat counting three_inputs 2 2 2 1);
    [exact Hn | reflexivity | exact Hr | reflexivity].
Defined.

(** X3. An input with an empty spatial axis has nothing to copy: the CPU path
    returns a tensor of the padded shape that is zero at every index. *)
Theorem cpu_empty_input_gives_zeros {A} `{TypedArray A}
    (L : ZeroPadding3D) (x : loc) (xt : Tensor A) (w : World A)
    (b0 a0 b1 a1 b2 a2 s0 s1 s2 c : Z) :
  normalized L b0 a0 b1 a1 b2 a2 →
  floats w !! x = Some xt →
  rank4 (channels_first L) (tensor xt) s0 s1 s2 c →
  s0 = 0 ∨ s1 = 0 ∨ s2 = 0 →
  ∃ v, cpu_result L x w = Some v ∧
       shape v = layout (channels_first L)
                   (s0 + b0 + a0) (s1 + b1 + a1) (s2 + b2 + a2) c ∧
       ∀ idx, in_box idx (shape v) → get v idx = Some zero.
Proof.
  intros Hn Hx Hr Hempty.
  assert (Hnone : ∀ j, ¬ in_box j (layout (channels_first L) s0 s1 s2 c)).
  { intros j Hj. destruct (channels_first L); unfold layout in Hj;
      apply in_box4_inv in Hj as (? & ? & ? & ? & _ & ? & ? & ? & ?); lia. }
  assert (Hb : in_bounds (tensor xt) = true).
  { apply in_bounds_intro. intros idx Hidx. destruct Hr as (Hsh & _).
    rewrite Hsh in Hidx. by destruct (Hnone idx). }
  destruct (cpu_pads_to L x xt w b0 a0 b1 a1 b2 a2 s0 s1 s2 c Hn Hx Hr Hb)
    as (v & Hv & Hsh & _ & Hout).
  exists v. split; [done|]. split; [done|].
  intros idx Hidx. rewrite Hsh in Hidx. apply Hout; [done|].
  intros j Hj. by destruct (Hnone j).
Qed.

Lemma cpu_empty_input_gives_zeros_witness :
  let xt : Tensor sample := new_Tensor [] [0; 2; 2; 1] in
  let w := mkWorld [xt] [] in
  (normalized scenario_layer 1 0 0 1 0 0
   ∧ floats w !! 0%nat = Some xt
   ∧ rank4 (channels_first scenario_layer) (tensor xt) 0 2 2 1
   ∧ (0 = 0 ∨ 2 = 0 ∨ 2 = 0))
  ∧ ∃ v, cpu_result scenario_layer 0%nat w = Some v ∧
         shape v = layout (channels_first scenario_layer)
                     (0 + 1 + 0) (2 + 0 + 1) (2 + 0 + 0) 1 ∧
         ∀ idx, in_box idx (shape v) → get v idx = Some zero.
Proof.
  intros xt w.
  assert (Hn : normalized scenario_layer 1 0 0 1 0 0)
    by (unfold normalized; repeat split; try reflexivity; lia).
  assert (Hr : rank4 (channels_first scenario_layer) (tensor xt) 0 2 2 1)
    by (unfold rank4; repeat split; try reflexivity; lia).
  split; [split_and!; [exact Hn | reflexivity | exact Hr | by left]|].
  apply (cpu_empty_input_gives_zeros scenario_layer 0%nat xt w
           1 0 0 1 0 0 0 2 2 1);
    [exact Hn | reflexivity | exact Hr | by left].
Defined.

(** X4. The tensor the CPU path returns is itself a well-formed rank-4 input
    in the configured axis order: every index of its shape names an element
    of its buffer, so it can be handed to a further layer. *)
Theorem cpu_output_is_well_formed {A} `{TypedArray A}
    (L : ZeroPadding3D) (x : loc) (xt : Tensor A) (w : World A)
    (b0 a0 b1 a1 b2 a2 s0 s1 s2 c : Z) :
  normalized L b0 a0 b1 a1 b2 a2 →
  floats w !! x = Some xt →
  rank4 (channels_first L) (tensor xt) s0 s1 s2 c →
  in_bounds (tensor xt) = true →
  ∃ v, cpu_result L x w = Some v ∧
       rank4 (channels_first L) v
         (s0 + b0 + a0) (s1 + b1 + a1) (s2 + b2 + a2) c ∧
       in_bounds v = true.
Proof.
  intros Hn Hx Hr Hb.
  destruct (cpu_run_pads L x xt w b0 a0 b1 a1 b2 a2 s0 s1 s2 c Hn Hx Hr Hb)
    as (ot & Hrun & Hr' & Hp).
  exists (tensor ot). split.
  { unfold cpu_result. rewrite Hrun. cbn [output set_output floats].
    by rewrite lookup_snoc_new. }
  split; [done|]. apply in_bounds_intro. intros idx Hidx.
  destruct Hr' as (Hsh' & _). rewrite Hsh' in Hidx.
  eapply pads_to_is_Some; [by eapply cpu_run_fits|exact Hp| |exact Hidx].
  intros j Hj. apply in_bounds_get; [done|].
  destruct Hr as (Hsh & _). by rewrite Hsh.
Qed.

Lemma cpu_output_is_well_formed_witness :
  (normalized scenario_layer 1 0 0 1 0 0
   ∧ floats scenario_world !! 0%nat = Some ones
   ∧ rank4 (channels_first scenario_layer) (tensor ones) 2 2 2 1
   ∧ in_bounds (tensor ones) = true)
  ∧ ∃ v, cpu_result scenario_layer 0%nat scenario_world = Some v ∧
         rank4 (channels_first scenario_layer) v
           (2 + 1 + 0) (2 + 0 + 1) (2 + 0 + 0) 1 ∧
         in_bounds v = true.
Proof.
  assert (Hn : normalized scenario_layer 1 0 0 1 0 0)
    by (unfold normalized; repeat split; try reflexivity; lia).
  assert (Hr : rank4 (channels_first scenario_layer) (tensor ones) 2 2 2 1)
    by (unfold rank4; repeat split; try reflexivity; lia).
  split; [repeat split; try reflexivity; try apply Hn; apply Hr|].
  apply (cpu_output_is_well_formed scenario_layer 0%nat ones scenario_world
           1 0 0 1 0 0 2 2 2 1);
    [exact Hn | reflexivity | exact Hr | reflexivity].
Defined.

(** X5. Two CPU layers of one axis order applied in sequence pad like a
    single layer whose paddings are the sums: padding by [[b,a]] and then by
    [[b',a']] gives the shape and the elements of padding by [[b+b',a+a']]. *)
Theorem cpu_paddings_compose {A} `{TypedArray A}
    (L1 L2 L12 : ZeroPadding3D) (x : loc) (xt : Tensor A) (w : World A)
    (b0 a0 b1 a1 b2 a2 b0' a0' b1' a1' b2' a2' s0 s1 s2 c : Z) :
  channels_first L2 = channels_first L1 →
  channels_first L12 = channels_first L1 →
  normalized L1 b0 a0 b1 a1 b2 a2 →
  normalized L2 b0' a0' b1' a1' b2' a2' →
  normalized L12 (b0 + b0') (a0 + a0') (b1 + b1') (a1 + a1')
                 (b2 + b2') (a2 + a2') →
  floats w !! x = Some xt →
  rank4 (channels_first L1) (tensor xt) s0 s1 s2 c →
  in_bounds (tensor xt) = true →
  ∃ L1' w1 o1 v2 v12,
    _callCPU L1 x w = Some (L1', w1) ∧ output L1' = Some o1 ∧
    cpu_result L2 o1 w1 = Some v2 ∧
    cpu_result L12 x w = Some v12 ∧
    shape v2 = shape v12 ∧
    ∀ idx, in_box idx (shape v12) → get v2 idx = get v12 idx.
Proof.
  intros Hcf2 Hcf12 Hn1 Hn2 Hn12 Hx Hr Hb.
  pose proof Hr as (Hsh & _ & ? & ? & ? & ?).
  pose proof Hn1 as (_ & ? & ? & ? & ? & ? & ?).
  pose proof Hn2 as (_ & ? & ? & ? & ? & ? & ?).
  destruct (cpu_run_pads L1 x xt w b0 a0 b1 a1 b2 a2 s0 s1 s2 c Hn1 Hx Hr Hb)
    as (ot & Hrun & Hr1 & Hp1).
  set (w1 := mkWorld (floats w ++ [ot]) (ints w)) in *.
  assert (Ho1 : floats w1 !! length (floats w) = Some ot)
    by apply lookup_snoc_new.
  assert (Hb1 : in_bounds (tensor ot) = true).
  { apply in_bounds_intro. intros idx Hidx.
    destruct Hr1 as (Hsh1 & _). rewrite Hsh1 in Hidx.
    eapply pads_to_is_Some; [|exact Hp1| |exact Hidx].
    - apply fits_layout; lia.
    - intros j Hj. apply in_bounds_get; [done|]. by rewrite Hsh. }
  rewrite <- Hcf2 in Hr1.
  destruct (cpu_pads_to L2 _ ot w1 b0' a0' b1' a1' b2' a2' _ _ _ _
              Hn2 Ho1 Hr1 Hb1) as (v2 & Hv2 & Hsh2 & Hp2).
  pose proof Hr as Hr12. rewrite <- Hcf12 in Hr12.
  destruct (cpu_pads_to L12 x xt w _ _ _ _ _ _ s0 s1 s2 c Hn12 Hx Hr12 Hb)
    as (v12 & Hv12 & Hsh12 & Hp12).
  rewrite Hcf2 in Hsh2, Hp2. rewrite Hcf12 in Hsh12, Hp12.
  set (first := channels_first L1) in *.
  assert (Hosh : layout first (s0 + b0 + a0 + b0' + a0')
                   (s1 + b1 + a1 + b1' + a1') (s2 + b2 + a2 + b2' + a2') c
                 = layout first (s0 + (b0 + b0') + (a0 + a0'))
                     (s1 + (b1 + b1') + (a1 + a1'))
                     (s2 + (b2 + b2') + (a2 + a2')) c)
    by (destruct first; unfold layout; apply list4_eq; lia).
  rewrite Hosh in Hsh2, Hp2.
  exists (set_output
            (set_shapes L1 [s0; s1; s2; c]
               [s0 + b0 + a0; s1 + b1 + a1; s2 + b2 + a2; c])
            (length (floats w))), w1, (length (floats w)), v2, v12.
  split; [exact Hrun|]. split; [done|]. split; [done|]. split; [done|].
  split; [by rewrite Hsh2, Hsh12|].
  intros idx Hidx. rewrite Hsh12 in Hidx.
  assert (Hf1 := fits_layout first b0 a0 b1 a1 b2 a2 s0 s1 s2 c
    ltac:(lia) ltac:(lia) ltac:(lia) ltac:(lia) ltac:(lia) ltac:(lia)
    ltac:(lia) ltac:(lia) ltac:(lia) ltac:(lia)).
  assert (Hf2 := fits_layout first b0' a0' b1' a1' b2' a2'
    (s0 + b0 + a0) (s1 + b1 + a1) (s2 + b2 + a2) c
    ltac:(lia) ltac:(lia) ltac:(lia) ltac:(lia) ltac:(lia) ltac:(lia)
    ltac:(lia) ltac:(lia) ltac:(lia) ltac:(lia)).
  rewrite Hosh in Hf2.
  pose proof (pads_to_compose _ _ _ _ _ _ _ _ Hf1 Hf2 Hp1 Hp2) as Hp.
  assert (Hst : zip_with Z.add (layout first b0 b1 b2 0)
                  (layout first b0' b1' b2' 0)
                = layout first (b0 + b0') (b1 + b1') (b2 + b2') 0)
    by (by destruct first).
  rewrite Hst in Hp.
  eapply pads_to_agree; [|exact Hp|exact Hp12|exact Hidx].
  apply fits_layout; lia.
Qed.

(** Padding the scenario input by [[1,0],[0,1],[0,0]] and then by one on
    every side, against padding it by [[2,1],[1,2],[1,1]]. *)
Lemma cpu_paddings_compose_witness :
  let L2 := new_ZeroPadding3D
              {| attr_padding := Some (JNum 1);
                 attr_data_format := None; attr_gpu := false |} in
  let L12 := configured None 2 1 1 2 1 1 false in
  (channels_first L2 = channels_first scenario_layer
   ∧ channels_first L12 = channels_first scenario_layer
   ∧ normalized scenario_layer 1 0 0 1 0 0
   ∧ normalized L2 1 1 1 1 1 1
   ∧ normalized L12 (1 + 1) (0 + 1) (0 + 1) (1 + 1) (0 + 1) (0 + 1)
   ∧ floats scenario_world !! 0%nat = Some ones
   ∧ rank4 (channels_first scenario_layer) (tensor ones) 2 2 2 1
   ∧ in_bounds (tensor ones) = true)
  ∧ ∃ L1' w1 o1 v2 v12,
      _callCPU scenario_layer 0%nat scenario_world = Some (L1', w1) ∧
      output L1' = Some o1 ∧
      cpu_result L2 o1 w1 = Some v2 ∧
      cpu_result L12 0%nat scenario_world = Some v12 ∧
      shape v2 = shape v12 ∧
      ∀ idx, in_box idx (shape v12) → get v2 idx = get v12 idx.
Proof.
  intros L2 L12.
  assert (Hn1 : normalized scenario_layer 1 0 0 1 0 0)
    by (unfold normalized; repeat split; try reflexivity; lia).
  assert (Hn2 : normalized L2 1 1 1 1 1 1)
    by (unfold normalized; repeat split; try reflexivity; lia).
  assert (Hn12 : normalized L12 (1 + 1) (0 + 1) (0 + 1) (1 + 1) (0 + 1) (0 + 1))
    by (unfold normalized; repeat split; try reflexivity; lia).
  assert (Hr : rank4 (channels_first scenario_layer) (tensor ones) 2 2 2 1)
    by (unfold rank4; repeat split; try reflexivity; lia).
  split; [split_and!; try reflexivity; done|].
  apply (cpu_paddings_compose scenario_layer L2 L12 0%nat ones scenario_world
           1 0 0 1 0 0 1 1 1 1 1 1 2 2 2 1);
    [reflexivity | reflexivity | exact Hn1 | exact Hn2 | exact Hn12
     | reflexivity | exact Hr | reflexivity].
Defined.

(** X6. The CPU path records the [inputShape] and [outputShape] fields in
    channels-last order in both configurations: for a channels-first layer
    they are the shapes of the transposed tensors, not the shapes of the
    caller's input and of the returned output. *)
Theorem cpu_records_shapes_channels_last {A} `{TypedArray A}
    (L : ZeroPadding3D) (x : loc) (xt : Tensor A) (w : World A)
    (b0 a0 b1 a1 b2 a2 s0 s1 s2 c : Z) :
  normalized L b0 a0 b1 a1 b2 a2 →
  floats w !! x = Some xt →
  rank4 (channels_first L) (tensor xt) s0 s1 s2 c →
  ∃ L' w' o ot,
    _callCPU L x w = Some (L', w') ∧
    inputShape L' = Some [s0; s1; s2; c] ∧
    outputShape L' = Some [s0 + b0 + a0; s1 + b1 + a1; s2 + b2 + a2; c] ∧
    output L' = Some o ∧ floats w' !! o = Some ot ∧
    shape (tensor ot)
    = (if channels_first L
       then [c; s0 + b0 + a0; s1 + b1 + a1; s2 + b2 + a2]
       else [s0 + b0 + a0; s1 + b1 + a1; s2 + b2 + a2; c]).
Proof.
  intros Hn Hx Hr.
  pose proof (callCPU_result L x xt w b0 a0 b1 a1 b2 a2 s0 s1 s2 c Hn Hx Hr)
    as Hrun.
  cbv zeta in Hrun. eexists _, _, _, _. split; [exact Hrun|].
  cbn [inputShape outputShape output set_output set_shapes floats].
  split; [done|]. split; [done|]. split; [done|].
  split; [apply lookup_snoc_new|].
  cbn [tensor set_tensor]. by destruct (channels_first L).
Qed.

Lemma cpu_records_shapes_channels_last_witness :
  let Lf := new_ZeroPadding3D
              {| attr_padding := Some (JNum 1);
                 attr_data_format := Some "channels_first"%string;
                 attr_gpu := false |} in
  let xt : Tensor sample := new_Tensor (Num <$> seqZ 1 12) [3; 2; 2; 1] in
  let w := mkWorld [xt] [] in
  (normalized Lf 1 1 1 1 1 1 ∧ floats w !! 0%nat = Some xt
   ∧ rank4 (channels_first Lf) (tensor xt) 2 2 1 3)
  ∧ ∃ L' w' o ot,
      _callCPU Lf 0%nat w = Some (L', w') ∧
      inputShape L' = Some [2; 2; 1; 3] ∧
      outputShape L' = Some [2 + 1 + 1; 2 + 1 + 1; 1 + 1 + 1; 3] ∧
      output L' = Some o ∧ floats w' !! o = Some ot ∧
      shape (tensor ot)
      = (if channels_first Lf
         then [3; 2 + 1 + 1; 2 + 1 + 1; 1 + 1 + 1]
         else [2 + 1 + 1; 2 + 1 + 1; 1 + 1 + 1; 3]).
Proof.
  intros Lf xt w.
  assert (Hn : normalized Lf 1 1 1 1 1 1)
    by (unfold normalized; repeat split; try reflexivity; lia).
  assert (Hr : rank4 (channels_first Lf) (tensor xt) 2 2 1 3)
    by (unfold rank4; repeat split; try reflexivity; lia).
  split; [repeat split; try reflexivity; try apply Hn; apply Hr|].
  apply (cpu_records_shapes_channels_last Lf 0%nat xt w 1 1 1 1 1 1 2 2 1 3);
    [exact Hn | reflexivity | exact Hr].
Defined.

(** X19. In the channels-first configuration the tensor the CPU path returns
    is a transposed view: its flat buffer holds the padded elements in
    channels-last order, the element at [ch, i, j, k] at the row-major offset
    of [i, j, k, ch]. *)
Theorem cpu_channels_first_buffer_is_channels_last {A} `{TypedArray A}
    (L : ZeroPadding3D) (x : loc) (xt : Tensor A) (w : World A)
    (b0 a0 b1 a1 b2 a2 s0 s1 s2 c : Z) :
  channels_first L = true →
  normalized L b0 a0 b1 a1 b2 a2 →
  floats w !! x = Some xt →
  rank4 true (tensor xt) s0 s1 s2 c →
  ∃ L' w' o ot,
    _callCPU L x w = Some (L', w') ∧ output L' = Some o ∧
    floats w' !! o = Some ot ∧
    ∀ ch i j k,
      get (tensor ot) [ch; i; j; k]
      = read (data (tensor ot))
             (((i * (s1 + b1 + a1) + j) * (s2 + b2 + a2) + k) * c + ch).
Proof.
  intros Hcf Hn Hx Hr. rewrite <- Hcf in Hr.
  pose proof (callCPU_result L x xt w b0 a0 b1 a1 b2 a2 s0 s1 s2 c Hn Hx Hr)
    as Hrun.
  cbv zeta in Hrun. rewrite Hcf in Hrun.
  eexists _, _, _, _. split; [exact Hrun|]. split; [done|].
  split; [apply lookup_snoc_new|].
  intros ch i j k. cbn [tensor set_tensor].
  rewrite get_permute_3012 by done.
  unfold padded. rewrite get_ndarray_of. cbn [permute data ndarray_of].
  f_equal. cbn [row_major dot]. rewrite !shape_size_cons, shape_size_nil. lia.
Qed.

Lemma cpu_channels_first_buffer_is_channels_last_witness :
  let Lf := new_ZeroPadding3D
              {| attr_padding := Some (JNum 1);
                 attr_data_format := Some "channels_first"%string;
                 attr_gpu := false |} in
  let xt : Tensor sample := new_Tensor (Num <$> seqZ 1 12) [3; 2; 2; 1] in
  let w := mkWorld [xt] [] in
  (channels_first Lf = true ∧ normalized Lf 1 1 1 1 1 1
   ∧ floats w !! 0%nat = Some xt ∧ rank4 true (tensor xt) 2 2 1 3)
  ∧ ∃ L' w' o ot,
      _callCPU Lf 0%nat w = Some (L', w') ∧ output L' = Some o ∧
      floats w' !! o = Some ot ∧
      ∀ ch i j k,
        get (tensor ot) [ch; i; j; k]
        = read (data (tensor ot))
               (((i * (2 + 1 + 1) + j) * (1 + 1 + 1) + k) * 3 + ch).
Proof.
  intros Lf xt w.
  assert (Hn : normalized Lf 1 1 1 1 1 1)
    by (unfold normalized; repeat split; try reflexivity; lia).
  assert (Hr : rank4 true (tensor xt) 2 2 1 3)
    by (unfold rank4; repeat split; try reflexivity; lia).
  split; [repeat split; try reflexivity; try apply Hn; apply Hr|].
  apply (cpu_channels_first_buffer_is_channels_last Lf 0%nat xt w
           1 1 1 1 1 1 2 2 1 3);
    [reflexivity | exact Hn | reflexivity | exact Hr].
Defined.

(** ** The constructor *)

(** X7. A layer built from the per-axis form [p0, p1, p2] pads axis [i] by
    [p_i] on both sides: on the CPU path its output has the extents
    [s_i + p_i + p_i], holds the input at distance [p_i] from the start of
    each spatial axis and is zero elsewhere. *)
Theorem per_axis_padding_pads_both_sides {A} `{TypedArray A}
    (p0 p1 p2 : Z) (df : option string)
    (x : loc) (xt : Tensor A) (w : World A) (s0 s1 s2 c : Z) :
  let L := new_ZeroPadding3D
             {| attr_padding := Some (JArr [JNum p0; JNum p1; JNum p2]);
                attr_data_format := df; attr_gpu := false |} in
  0 ≤ p0 → 0 ≤ p1 → 0 ≤ p2 →
  floats w !! x = Some xt →
  rank4 (channels_first L) (tensor xt) s0 s1 s2 c →
  in_bounds (tensor xt) = true →
  ∃ v, output_of (call L x w) = Some v ∧
       shape v = layout (channels_first L)
                   (s0 + p0 + p0) (s1 + p1 + p1) (s2 + p2 + p2) c ∧
       pads_to (layout (channels_first L) p0 p1 p2 0)
               (layout (channels_first L) s0 s1 s2 c) (shape v)
               (get (tensor xt)) (get v).
Proof.
  intros L ? ? ? Hx Hr Hb.
  assert (Hn : normalized L p0 p0 p1 p1 p2 p2) by (by repeat split).
  destruct (cpu_pads_to L x xt w p0 p0 p1 p1 p2 p2 s0 s1 s2 c Hn Hx Hr Hb)
    as (v & Hv & Hsh & Hp).
  exists v. rewrite Hsh. split; [|done].
  unfold cpu_result in Hv. unfold call. change (gpu L) with false.
  destruct (_callCPU L x w) as [[L' w']|] eqn:Hcpu; [|done].
  erewrite bind_Some by exact Hcpu. cbn [output_of mret M_ret].
  by destruct (output L').
Qed.

Lemma per_axis_padding_pads_both_sides_witness :
  let L := new_ZeroPadding3D
             {| attr_padding := Some (JArr [JNum 1; JNum 0; JNum 2]);
                attr_data_format := None; attr_gpu := false |} in
  (0 ≤ 1 ∧ 0 ≤ 0 ∧ 0 ≤ 2
   ∧ floats three_inputs !! 1%nat = Some counting
   ∧ rank4 (channels_first L) (tensor counting) 2 2 2 1
   ∧ in_bounds (tensor counting) = true)
  ∧ ∃ v, output_of (call L 1%nat three_inputs) = Some v ∧
         shape v = layout (channels_first L)
                     (2 + 1 + 1) (2 + 0 + 0) (2 + 2 + 2) 1 ∧
         pads_to (layout (channels_first L) 1 0 2 0)
                 (layout (channels_first L) 2 2 2 1) (shape v)
                 (get (tensor counting)) (get v).
Proof.
  intros L.
  assert (Hr : rank4 (channels_first L) (tensor counting) 2 2 2 1)
    by (unfold rank4; repeat split; try reflexivity; lia).
  split; [split_and!; try reflexivity; try lia; exact Hr|].
  apply (per_axis_padding_pads_both_sides 1 0 2 None 1%nat counting
           three_inputs 2 2 2 1);
    [lia | lia | lia | reflexivity | exact Hr | reflexivity].
Defined.

(** X8. A layer built without attributes works in channels-last order and
    pads every spatial axis by one on both sides. *)
Theorem default_layer_pads_by_one {A} `{TypedArray A}
    (x : loc) (xt : Tensor A) (w : World A) (s0 s1 s2 c : Z) :
  let L := new_ZeroPadding3D
             {| attr_padding := None; attr_data_format := None;
                attr_gpu := false |} in
  floats w !! x = Some xt →
  rank4 false (tensor xt) s0 s1 s2 c →
  in_bounds (tensor xt) = true →
  ∃ v, output_of (call L x w) = Some v ∧
       shape v = [s0 + 2; s1 + 2; s2 + 2; c] ∧
       (∀ i j k ch,
          0 ≤ i < s0 → 0 ≤ j < s1 → 0 ≤ k < s2 → 0 ≤ ch < c →
          get v [i + 1; j + 1; k + 1; ch] = get (tensor xt) [i; j; k; ch]) ∧
       (∀ i j k ch,
          0 ≤ i < s0 + 2 → 0 ≤ j < s1 + 2 → 0 ≤ k < s2 + 2 → 0 ≤ ch < c →
          ¬ (1 ≤ i ≤ s0 ∧ 1 ≤ j ≤ s1 ∧ 1 ≤ k ≤ s2) →
          get v [i; j; k; ch] = Some zero).
Proof.
  intros L Hx Hr Hb.
  assert (Hn : normalized L 1 1 1 1 1 1) by (by repeat split).
  change false with (channels_first L) in Hr.
  destruct (cpu_pads_to L x xt w 1 1 1 1 1 1 s0 s1 s2 c Hn Hx Hr Hb)
    as (v & Hv & Hsh & Hin & Hout).
  change (channels_first L) with false in Hsh, Hin, Hout.
  unfold layout in Hsh, Hin, Hout.
  exists v. split.
  { unfold cpu_result in Hv. unfold call. change (gpu L) with false.
    destruct (_callCPU L x w) as [[L' w']|] eqn:Hcpu; [|done].
    erewrite bind_Some by exact Hcpu. cbn [output_of mret M_ret].
    by destruct (output L'). }
  split; [rewrite Hsh; apply list4_eq; lia|]. split.
  - intros i j k ch ? ? ? ?.
    rewrite <- (Hin [i; j; k; ch]) by (by apply in_box4).
    cbn [zip_with]. f_equal. apply list4_eq; lia.
  - intros i j k ch ? ? ? ? Hfar. apply Hout; [apply in_box4; lia|].
    intros idx Hidx Heq. apply Hfar.
    apply in_box4_inv in Hidx as (i' & j' & k' & ch' & -> & ? & ? & ? & ?).
    cbn [zip_with] in Heq. injection Heq as -> -> -> ->. lia.
Qed.

Lemma default_layer_pads_by_one_witness :
  let L := new_ZeroPadding3D
             {| attr_padding := None; attr_data_format := None;
                attr_gpu := false |} in
  (floats scenario_world !! 0%nat = Some ones
   ∧ rank4 false (tensor ones) 2 2 2 1
   ∧ in_bounds (tensor ones) = true)
  ∧ ∃ v, output_of (call L 0%nat scenario_world) = Some v ∧
         shape v = [2 + 2; 2 + 2; 2 + 2; 1] ∧
         (∀ i j k ch,
            0 ≤ i < 2 → 0 ≤ j < 2 → 0 ≤ k < 2 → 0 ≤ ch < 1 →
            get v [i + 1; j + 1; k + 1; ch] = get (tensor ones) [i; j; k; ch]) ∧
         (∀ i j k ch,
            0 ≤ i < 2 + 2 → 0 ≤ j < 2 + 2 → 0 ≤ k < 2 + 2 → 0 ≤ ch < 1 →
            ¬ (1 ≤ i ≤ 2 ∧ 1 ≤ j ≤ 2 ∧ 1 ≤ k ≤ 2) →
            get v [i; j; k; ch] = Some zero).
Proof.
  intros L.
  assert (Hr : rank4 false (tensor ones) 2 2 2 1)
    by (unfold rank4; repeat split; try reflexivity; lia).
  split; [split_and!; try reflexivity; exact Hr|].
  apply (default_layer_pads_by_one 0%nat ones scenario_world 2 2 2 1);
    [reflexivity | exact Hr | reflexivity].
Defined.

(** X9. Whatever the attributes, the padding the constructor stores is an
    array whose first entry is an array, and the constructor leaves such a
    padding as it is: building a layer from the stored padding, data format
    and execution path of a layer gives that layer again. *)
Theorem constructor_normalization_is_idempotent (attrs : Attrs) :
  let L := new_ZeroPadding3D attrs in
  isArray (padding L) = true ∧ isArray (js_at (padding L) 0) = true ∧
  new_ZeroPadding3D
    {| attr_padding := Some (padding L);
       attr_data_format := Some (dataFormat L);
       attr_gpu := gpu L |} = L.
Proof.
  destruct attrs as [[[n|l|]|] df g]; cbn.
  - done.
  - destruct l as [|[n|l'|] l]; cbn; done.
  - done.
  - done.
Qed.

(** The padding lookups of a layer whose padding lacks the second or the
    third row. *)
Lemma padded_missing_row L sh :
  js_at (padding L) 1 = JUndef ∨ js_at (padding L) 2 = JUndef →
  padded_last L sh = None ∧ padded_first L sh = None.
Proof.
  intros Hrow.
  assert (Hp : pad L 1 0 = None ∨ pad L 2 0 = None)
    by (unfold pad; destruct Hrow as [-> | ->]; auto).
  unfold padded_last, padded_first.
  destruct (sh !! 0%nat), (sh !! 1%nat), (sh !! 2%nat), (sh !! 3%nat);
    cbn [mbind option_bind]; try done.
  destruct (pad L 0 0), (pad L 0 1); cbn [mbind option_bind]; try done.
  destruct Hp as [-> | Hp]; [done|].
  destruct (pad L 1 0), (pad L 1 1); cbn [mbind option_bind]; try done.
  by rewrite Hp.
Qed.

(** A layer whose output shape cannot be computed returns from neither
    path. *)
Lemma callCPU_no_shape {A} `{TypedArray A} L (x : loc) (w : World A) :
  (∀ sh, padded_last L sh = None) → _callCPU L x w = None.
Proof.
  intros Hlast. destruct (_callCPU L x w) as [r|] eqn:Hrun; [exfalso|done].
  unfold _callCPU, mbind, M_bind, mret, M_ret, getF, putF, allocF, lift
    in Hrun.
  repeat (case_match; simplify_eq; cbn [floats ints] in * ).
  all: match goal with
       | E : padded_last _ _ = Some _ |- _ => by rewrite Hlast in E
       end.
Qed.

Lemma callGPU_no_shape {A} `{TypedArray A} L (x : loc) (w : World A) :
  (∀ sh, padded_last L sh = None) → (∀ sh, padded_first L sh = None) →
  _callGPU L x w = None.
Proof.
  intros Hlast Hfirst. unfold _callGPU, mbind at 1, M_bind at 1.
  destruct (ensureGLTexture x w) as [[[] w1]|]; [|done].
  unfold remap, mbind, M_bind, getF, lift.
  destruct (floats w1 !! x) as [xt|]; [|done].
  destruct (originalShape xt) as [ish|]; [|done].
  rewrite Hlast, Hfirst. by destruct (channels_first L).
Qed.

(** X10. The constructor does not validate a nested padding: an array of
    fewer than three rows is stored as it is, and every call of the layer,
    on either path, then breaks off at the lookup of the missing row. *)
Theorem short_nested_padding_breaks_calls {A} `{TypedArray A}
    (row : list jsval) (rest : list jsval) (df : option string) (g : bool)
    (x : loc) (w : World A) :
  let L := new_ZeroPadding3D
             {| attr_padding := Some (JArr (JArr row :: rest));
                attr_data_format := df; attr_gpu := g |} in
  (length rest < 2)%nat →
  padding L = JArr (JArr row :: rest) ∧ call L x w = None.
Proof.
  intros L Hshort. split; [done|].
  assert (Hrow : js_at (padding L) 1 = JUndef ∨ js_at (padding L) 2 = JUndef).
  { right. destruct rest as [|r1 [|r2 rest]]; [done|done|simpl in Hshort; lia]. }
  clearbody L.
  pose proof (λ sh, proj1 (padded_missing_row L sh Hrow)) as Hlast.
  pose proof (λ sh, proj2 (padded_missing_row L sh Hrow)) as Hfirst.
  unfold call, mbind, M_bind.
  destruct (gpu L).
  - by rewrite callGPU_no_shape.
  - by rewrite callCPU_no_shape.
Qed.

Lemma short_nested_padding_breaks_calls_witness :
  let L := new_ZeroPadding3D
             {| attr_padding := Some (JArr [JArr [JNum 1; JNum 1];
                                            JArr [JNum 1; JNum 1]]);
                attr_data_format := None; attr_gpu := false |} in
  (length [JArr [JNum 1; JNum 1]] < 2)%nat
  ∧ padding L = JArr [JArr [JNum 1; JNum 1]; JArr [JNum 1; JNum 1]]
  ∧ call L 0%nat scenario_world = None.
Proof.
  intros L. split; [simpl; lia|].
  apply (short_nested_padding_breaks_calls [JNum 1; JNum 1]
           [JArr [JNum 1; JNum 1]] None false 0%nat scenario_world).
  simpl. lia.
Defined.

(** ** What a call leaves alone *)

Section frames.
Context {A : Type} `{TypedArray A}.
Implicit Types (L : ZeroPadding3D) (w : World A).

Ltac other_object :=
  repeat first
    [ rewrite list_lookup_insert_ne by (rewrite ?length_insert; lia)
    | rewrite lookup_app_l by (rewrite ?length_insert; lia) ].

(** A CPU call that returns has allocated one tensor, its output, and has
    touched neither the index tensors nor any tensor but its input. *)
Lemma callCPU_frame L x w L' w' :
  _callCPU L x w = Some (L', w') →
  output L' = Some (length (floats w)) ∧
  length (floats w') = S (length (floats w)) ∧
  ints w' = ints w ∧ indexMap L' = indexMap L ∧ gpu L' = gpu L ∧
  ∀ y, y ≠ x → (y < length (floats w))%nat → floats w' !! y = floats w !! y.
Proof.
  intros Hrun.
  unfold _callCPU, mbind, M_bind, mret, M_ret, getF, putF, allocF, lift
    in Hrun.
  repeat (case_match; simplify_eq; cbn [floats ints] in * ).
  all: cbn [indexMap output gpu set_shapes set_output set_indexMap] in *.
  all: rewrite ?length_insert, ?length_app, ?length_insert; cbn [length].
  all: split_and!; try done; try lia.
  all: intros y Hy Hlt; by other_object.
Qed.

(** X11. A CPU-path instance allocates exactly one tensor per call, its
    output, so the outputs of successive calls are distinct objects; it never
    builds an index map, never touches the store of index tensors, and
    leaves every tensor that is not one of its inputs as it was. *)
Theorem cpu_calls_allocate_one_output_each L (xs : list loc) w L' w' :
  gpu L = false →
  calls L xs w = Some (L', w') →
  length (floats w') = (length (floats w) + length xs)%nat ∧
  ints w' = ints w ∧ indexMap L' = indexMap L ∧
  (xs ≠ [] → output L' = Some (length (floats w) + length xs - 1)%nat) ∧
  ∀ y, y ∉ xs → (y < length (floats w))%nat → floats w' !! y = floats w !! y.
Proof.
  revert L w. induction xs as [|x xs IH]; intros L w Hg Hrun.
  - cbn [calls] in Hrun. unfold mret, M_ret in Hrun. simplify_eq.
    cbn [length]. split_and!; done || lia.
  - cbn [calls] in Hrun. unfold call, mbind, M_bind, mret, M_ret in Hrun.
    rewrite Hg in Hrun.
    destruct (_callCPU L x w) as [[L1 w1]|] eqn:Hone; [|done].
    cbn [fst] in Hrun.
    destruct (callCPU_frame _ _ _ _ _ Hone) as (Ho1 & Hl1 & Hi1 & Hm1 & Hg1 & Hk1).
    destruct (IH L1 w1 ltac:(congruence) Hrun) as (Hl & Hi & Hm & Ho & Hk).
    cbn [length]. split_and!; try congruence; try lia.
    + intros _. destruct xs as [|x' xs].
      * cbn [calls] in Hrun. unfold mret, M_ret in Hrun. simplify_eq.
        rewrite Ho1. f_equal. cbn [length]. lia.
      * rewrite Ho by done. f_equal. cbn [length] in *. lia.
    + intros y Hy Hlt. apply not_elem_of_cons in Hy as [Hne Hy].
      rewrite Hk by (done || lia). by apply Hk1.
Qed.

(** The parts of a layer that [_createIndexMap] leaves alone. *)
Lemma createIndexMap_config L tb (is2D : bool) w L1 w1 :
  _createIndexMap L tb is2D w = Some (L1, w1) →
  padding L1 = padding L ∧ dataFormat L1 = dataFormat L ∧
  gpu L1 = gpu L ∧ outbound L1 = outbound L ∧ output L1 = output L.
Proof.
  intros Hrun.
  unfold _createIndexMap, mbind, M_bind, mret, M_ret, getI, putI, allocI, lift
    in Hrun.
  repeat (case_match; simplify_eq; cbn [floats ints] in * ).
  all: done.
Qed.

(** X12. A call never changes the configuration of the layer: on either
    path the padding, the data format, the execution path and the downstream
    consumers are after the call what they were before it, and the value
    returned is the [output] field, which is set. *)
Theorem call_keeps_configuration L (x : loc) w L' o w' :
  call L x w = Some (L', o, w') →
  padding L' = padding L ∧ dataFormat L' = dataFormat L ∧
  gpu L' = gpu L ∧ outbound L' = outbound L ∧
  o = output L' ∧ is_Some o.
Proof.
  intros Hrun.
  unfold call, _callCPU, _callGPU, ensureGLTexture, remap, mbind, M_bind,
    mret, M_ret, getF, putF, getI, allocF, lift in Hrun.
  repeat (case_match; simplify_eq; cbn [floats ints] in * ).
  all: repeat match goal with
         | E : _createIndexMap _ _ _ _ = Some _ |- _ =>
             apply createIndexMap_config in E as (? & ? & ? & ? & ?)
         end.
  all: cbn [padding dataFormat gpu outbound output set_shapes set_output
            set_indexMap] in *.
  all: split_and!; eauto; congruence.
Qed.

(** *** A call of the GPU path that finds both caches *)

Lemma ensureGLTexture_inv (x : loc) w u w1 :
  ensureGLTexture x w = Some (u, w1) →
  ∃ xt, floats w !! x = Some xt ∧
        w1 = mkWorld (<[x := upload xt]> (floats w)) (ints w).
Proof.
  intros Hrun.
  unfold ensureGLTexture, mbind, M_bind, mret, M_ret, getF, putF, lift in Hrun.
  destruct (floats w !! x) as [xt|] eqn:Hx; [|done].
  exists xt. split; [done|]. unfold upload.
  destruct (glTexture xt) as [tex|].
  - injection Hrun as _ <-. rewrite list_insert_id by done. by destruct w.
  - destruct (fits_square xt); [|done]. rewrite Hx in Hrun.
    by injection Hrun as _ <-.
Qed.

Lemma remap_cached_inv L (x : loc) w L' w' m o :
  indexMap L = Some m → output L = Some o →
  remap L x w = Some (L', w') →
  ∃ xt ish osh ot mt xsh cols ot1 ot2,
    floats w !! x = Some xt ∧ originalShape xt = Some ish ∧
    (if channels_first L then padded_first L ish else padded_last L ish)
    = Some osh ∧
    floats w !! o = Some ot ∧ ints w !! m = Some mt ∧
    glTextureShape xt = Some xsh ∧ xsh !! 1%nat = Some cols ∧
    runProgram ot xt mt cols = Some ot1 ∧
    readback (outbound L) ot1 = Some ot2 ∧
    L' = set_shapes L ish osh ∧
    w' = mkWorld (<[o := ot2]> (floats w)) (ints w).
Proof.
  intros Hm Ho Hrun.
  unfold remap, _createIndexMap, mbind, M_bind, mret, M_ret, getF, putF, getI,
    lift in Hrun.
  cbn [indexMap output outbound set_shapes] in Hrun.
  rewrite Hm in Hrun. cbn [indexMap output outbound set_shapes] in Hrun.
  rewrite Ho in Hrun. cbn [indexMap output outbound set_shapes] in Hrun.
  repeat (case_match; simplify_eq; cbn [floats ints] in * ).
  all: try match goal with
         | E : <[?l := _]> _ !! ?l = Some _ |- _ =>
             rewrite list_lookup_insert_eq in E by (by eapply lookup_lt_Some);
             simplify_eq
         end.
  all: eexists _, _, _, _, _, _, _, _, _.
  all: split_and!; try eassumption; try reflexivity.
  all: try (unfold readback;
            match goal with
            | E : transferFromGLTexture _ = Some _ |- _ => rewrite E
            end; cbn [mbind option_bind];
            match goal with
            | E : is2DReshaped _ = _ |- _ => rewrite E
            end; eassumption).
  all: by rewrite list_insert_insert_eq.
Qed.

Lemma callGPU_cached_inv L (x : loc) w L' w' m o :
  indexMap L = Some m → output L = Some o →
  _callGPU L x w = Some (L', w') →
  ∃ xt ish osh ot mt xsh cols ot1 ot2,
    floats w !! x = Some xt ∧ originalShape (upload xt) = Some ish ∧
    (if channels_first L then padded_first L ish else padded_last L ish)
    = Some osh ∧
    <[x := upload xt]> (floats w) !! o = Some ot ∧ ints w !! m = Some mt ∧
    glTextureShape (upload xt) = Some xsh ∧ xsh !! 1%nat = Some cols ∧
    runProgram ot (upload xt) mt cols = Some ot1 ∧
    readback (outbound L) ot1 = Some ot2 ∧
    L' = set_shapes L ish osh ∧
    w' = mkWorld (<[o := ot2]> (<[x := upload xt]> (floats w))) (ints w).
Proof.
  intros Hm Ho Hrun. unfold _callGPU, mbind at 1, M_bind at 1 in Hrun.
  destruct (ensureGLTexture x w) as [[u w1]|] eqn:Hup; [|done].
  apply ensureGLTexture_inv in Hup as (xt & Hx & ->).
  destruct (remap_cached_inv _ _ _ _ _ _ _ Hm Ho Hrun)
    as (xt' & ish & osh & ot & mt & xsh & cols & ot1 & ot2 & Hx' & Hrest).
  cbn [floats ints] in *.
  rewrite list_lookup_insert_eq in Hx' by (by eapply lookup_lt_Some).
  injection Hx' as <-.
  by exists xt, ish, osh, ot, mt, xsh, cols, ot1, ot2.
Qed.

Lemma runProgram_keeps (ot xt : Tensor A) (mt : Tensor Z) cols ot1 :
  runProgram ot xt mt cols = Some ot1 →
  tensor ot1 = tensor ot ∧ originalShape ot1 = originalShape ot ∧
  is_Some (glTexture ot1).
Proof.
  unfold runProgram. intros Hrun.
  destruct (glTextureShape ot), (glTexture ot), (glTexture xt),
    (glTextureShape xt) as [xsh|]; cbn in Hrun; try done.
  destruct (xsh !! 1%nat); cbn in Hrun; [|done].
  destruct (glTexture mt); cbn in Hrun; [|done].
  injection Hrun as <-. cbn. eauto.
Qed.

Lemma readback_shape (ot1 ot2 : Tensor A) sh :
  readback [] ot1 = Some ot2 → originalShape ot1 = Some sh →
  shape (tensor ot2) = sh ∧ originalShape ot2 = Some sh.
Proof.
  unfold readback, transferFromGLTexture, reshapeFrom2D, reshapeFrom2DSquare.
  intros Hback Hsh.
  destruct (glTexture ot1), (glTextureShape ot1); cbn in Hback; try done.
  rewrite Hsh in Hback.
  destruct (is2DReshaped ot1); cbn in Hback; injection Hback as <-;
    by rewrite set_tensor_twice.
Qed.

(** X13. Once the output object is cached, the tensor a reading-back GPU
    call returns has the shape the object was created with, whatever the
    shape of the input: the [inputShape] and [outputShape] fields follow the
    current input, the returned tensor does not. *)
Theorem gpu_cached_output_keeps_its_shape L (x : loc) w L' w' m o ot osh0 :
  indexMap L = Some m → output L = Some o → outbound L = [] → x ≠ o →
  floats w !! o = Some ot → originalShape ot = Some osh0 →
  _callGPU L x w = Some (L', w') →
  ∃ xt' ish osh ot',
    floats w' !! x = Some xt' ∧ originalShape xt' = Some ish ∧
    (if channels_first L then padded_first L ish else padded_last L ish)
    = Some osh ∧
    inputShape L' = Some ish ∧ outputShape L' = Some osh ∧
    floats w' !! o = Some ot' ∧
    shape (tensor ot') = osh0 ∧ originalShape ot' = Some osh0.
Proof.
  intros Hm Ho Hob Hxo Hot Hsh0 Hrun.
  destruct (callGPU_cached_inv _ _ _ _ _ _ _ Hm Ho Hrun)
    as (xt & ish & osh & ot_ & mt & xsh & cols & ot1 & ot2 & Hx & Hish & Hosh
        & Hot' & Hmt & Hxsh & Hcols & Hprog & Hback & -> & ->).
  rewrite list_lookup_insert_ne in Hot' by done.
  assert (ot_ = ot) as -> by congruence.
  destruct (runProgram_keeps _ _ _ _ _ Hprog) as (_ & Hsh1 & _).
  rewrite Hob in Hback. rewrite Hsh0 in Hsh1.
  destruct (readback_shape _ _ _ Hback Hsh1) as [Hshape Hosh2].
  assert (Hlx : (x < length (floats w))%nat) by (by eapply lookup_lt_Some).
  assert (Hlo : (o < length (floats w))%nat) by (by eapply lookup_lt_Some).
  exists (upload xt), ish, osh, ot2. cbn [floats inputShape outputShape set_shapes].
  split_and!; try done.
  - rewrite list_lookup_insert_ne by done. by apply list_lookup_insert_eq.
  - apply list_lookup_insert_eq. by rewrite length_insert.
Qed.

(** X14. A GPU call that finds both caches changes two objects at most: the
    output object, and the input, which is replaced by its square 2D layout
    with a texture when it had no texture and is left as it was when it had
    one. Every other tensor and the whole store of index tensors stay as
    they were. *)
Theorem gpu_cached_call_changes_input_and_output_only
    L (x : loc) w L' w' m o xt :
  indexMap L = Some m → output L = Some o → x ≠ o →
  floats w !! x = Some xt →
  _callGPU L x w = Some (L', w') →
  (glTexture xt = None →
   floats w' !! x = Some (createGLTexture (reshapeTo2DSquare xt))) ∧
  (is_Some (glTexture xt) → floats w' !! x = Some xt) ∧
  (∀ y, y ≠ x → y ≠ o → floats w' !! y = floats w !! y) ∧
  ints w' = ints w.
Proof.
  intros Hm Ho Hxo Hx Hrun.
  destruct (callGPU_cached_inv _ _ _ _ _ _ _ Hm Ho Hrun)
    as (xt_ & ish & osh & ot & mt & xsh & cols & ot1 & ot2 & Hx' & _ & _
        & _ & _ & _ & _ & _ & _ & -> & ->).
  assert (xt_ = xt) as -> by congruence.
  assert (Hlx : (x < length (floats w))%nat) by (by eapply lookup_lt_Some).
  assert (Hup : <[o:=ot2]> (<[x:=upload xt]> (floats w)) !! x
                = Some (upload xt)).
  { rewrite list_lookup_insert_ne by done. by apply list_lookup_insert_eq. }
  cbn [floats ints]. split_and!; try done.
  - intros Hg. by rewrite Hup, (upload_None _ Hg).
  - intros [tex Hg]. by rewrite Hup, (upload_Some _ _ Hg).
  - intros y Hyx Hyo. by rewrite !list_lookup_insert_ne.
Qed.

(** X15. A GPU call of a layer that has downstream consumers does not read
    back: the host buffer of the output object is after the call what it was
    before it, and the result lives in the texture only. *)
Theorem gpu_non_terminal_call_keeps_host_buffer
    L (x : loc) w L' w' m o ot :
  indexMap L = Some m → output L = Some o → outbound L ≠ [] → x ≠ o →
  floats w !! o = Some ot →
  _callGPU L x w = Some (L', w') →
  ∃ ot', floats w' !! o = Some ot' ∧ tensor ot' = tensor ot ∧
         is_Some (glTexture ot').
Proof.
  intros Hm Ho Hob Hxo Hot Hrun.
  destruct (callGPU_cached_inv _ _ _ _ _ _ _ Hm Ho Hrun)
    as (xt & ish & osh & ot_ & mt & xsh & cols & ot1 & ot2 & Hx & _ & _
        & Hot' & _ & _ & _ & Hprog & Hback & -> & ->).
  rewrite list_lookup_insert_ne in Hot' by done.
  assert (ot_ = ot) as -> by congruence.
  destruct (runProgram_keeps _ _ _ _ _ Hprog) as (Ht & _ & Hg).
  unfold readback in Hback. destruct (outbound L) as [|b ob]; [done|].
  injection Hback as <-.
  exists ot1. cbn [floats]. split; [|done].
  apply list_lookup_insert_eq. rewrite length_insert.
  by eapply lookup_lt_Some.
Qed.
End frames.

(** Three calls of the scenario's CPU layer. *)
Lemma cpu_calls_allocate_one_output_each_witness :
  ∃ L' w',
    (gpu scenario_layer = false ∧
     calls scenario_layer [0%nat; 1%nat; 0%nat] three_inputs = Some (L', w'))
    ∧ length (floats w')
      = (length (floats three_inputs) + length [0%nat; 1%nat; 0%nat])%nat ∧
      ints w' = ints three_inputs ∧ indexMap L' = indexMap scenario_layer ∧
      ([0%nat; 1%nat; 0%nat] ≠ [] →
       output L'
       = Some (length (floats three_inputs)
               + length [0%nat; 1%nat; 0%nat] - 1)%nat) ∧
      ∀ y, y ∉ [0%nat; 1%nat; 0%nat] →
           (y < length (floats three_inputs))%nat →
           floats w' !! y = floats three_inputs !! y.
Proof.
  destruct (calls scenario_layer [0%nat; 1%nat; 0%nat] three_inputs)
    as [[L' w']|] eqn:Hrun; [|by vm_compute in Hrun].
  exists L', w'. split; [by split|].
  by apply (cpu_calls_allocate_one_output_each scenario_layer
              [0%nat; 1%nat; 0%nat] three_inputs L' w').
Defined.

Lemma call_keeps_configuration_witness :
  ∃ L' o w',
    call gpu_inner_layer 1%nat three_inputs = Some (L', o, w')
    ∧ padding L' = padding gpu_inner_layer ∧
      dataFormat L' = dataFormat gpu_inner_layer ∧
      gpu L' = gpu gpu_inner_layer ∧ outbound L' = outbound gpu_inner_layer ∧
      o = output L' ∧ is_Some o.
Proof.
  destruct (call gpu_inner_layer 1%nat three_inputs) as [[[L' o] w']|] eqn:Hrun;
    [|by vm_compute in Hrun].
  exists L', o, w'. split; [done|].
  by apply (call_keeps_configuration gpu_inner_layer 1%nat three_inputs L' o w').
Defined.

(** A first call on the scenario input, of shape [2,2,2,1], then a call on
    the input of shape [1,1,2,1]. *)
Lemma gpu_cached_output_keeps_its_shape_witness :
  ∃ L1 w1 ot L2 w2,
    (_callGPU gpu_layer 0%nat three_inputs = Some (L1, w1) ∧
     indexMap L1 = Some 1%nat ∧ output L1 = Some 3%nat ∧ outbound L1 = [] ∧
     2%nat ≠ 3%nat ∧ floats w1 !! 3%nat = Some ot ∧
     originalShape ot = Some [3; 3; 2; 1] ∧
     _callGPU L1 2%nat w1 = Some (L2, w2))
    ∧ ∃ xt' ish osh ot',
        floats w2 !! 2%nat = Some xt' ∧ originalShape xt' = Some ish ∧
        (if channels_first L1 then padded_first L1 ish else padded_last L1 ish)
        = Some osh ∧
        inputShape L2 = Some ish ∧ outputShape L2 = Some osh ∧
        floats w2 !! 3%nat = Some ot' ∧
        shape (tensor ot') = [3; 3; 2; 1] ∧
        originalShape ot' = Some [3; 3; 2; 1].
Proof.
  destruct (_callGPU gpu_layer 0%nat three_inputs) as [[L1 w1]|] eqn:H1;
    [|by vm_compute in H1].
  assert (Hm : indexMap L1 = Some 1%nat)
    by (vm_compute in H1; by injection H1 as <- <-).
  assert (Ho : output L1 = Some 3%nat)
    by (vm_compute in H1; by injection H1 as <- <-).
  assert (Hob : outbound L1 = [])
    by (vm_compute in H1; by injection H1 as <- <-).
  destruct (floats w1 !! 3%nat) as [ot|] eqn:Hot;
    [|exfalso; vm_compute in H1; injection H1 as <- <-; by vm_compute in Hot].
  assert (Hsh : originalShape ot = Some [3; 3; 2; 1]).
  { vm_compute in H1. injection H1 as <- <-. vm_compute in Hot.
    by injection Hot as <-. }
  destruct (_callGPU L1 2%nat w1) as [[L2 w2]|] eqn:H2;
    [|exfalso; vm_compute in H1; injection H1 as <- <-; by vm_compute in H2].
  exists L1, w1, ot, L2, w2. split; [split_and!; try done; lia|].
  apply (gpu_cached_output_keeps_its_shape L1 2%nat w1 L2 w2 1%nat 3%nat ot
           [3; 3; 2; 1]); [exact Hm | exact Ho | exact Hob | lia | exact Hot
                           | exact Hsh | exact H2].
Defined.

(** A first call on the scenario input, then a call on a second host
    tensor. *)
Lemma gpu_cached_call_changes_input_and_output_only_witness :
  ∃ L1 w1 L2 w2,
    (_callGPU gpu_layer 0%nat three_inputs = Some (L1, w1) ∧
     indexMap L1 = Some 1%nat ∧ output L1 = Some 3%nat ∧ 1%nat ≠ 3%nat ∧
     floats w1 !! 1%nat = Some counting ∧
     _callGPU L1 1%nat w1 = Some (L2, w2))
    ∧ (glTexture counting = None →
       floats w2 !! 1%nat = Some (createGLTexture (reshapeTo2DSquare counting))) ∧
      (is_Some (glTexture counting) → floats w2 !! 1%nat = Some counting) ∧
      (∀ y, y ≠ 1%nat → y ≠ 3%nat → floats w2 !! y = floats w1 !! y) ∧
      ints w2 = ints w1.
Proof.
  destruct (_callGPU gpu_layer 0%nat three_inputs) as [[L1 w1]|] eqn:H1;
    [|by vm_compute in H1].
  assert (Hm : indexMap L1 = Some 1%nat)
    by (vm_compute in H1; by injection H1 as <- <-).
  assert (Ho : output L1 = Some 3%nat)
    by (vm_compute in H1; by injection H1 as <- <-).
  assert (Hx : floats w1 !! 1%nat = Some counting)
    by (vm_compute in H1; by injection H1 as <- <-).
  destruct (_callGPU L1 1%nat w1) as [[L2 w2]|] eqn:H2;
    [|exfalso; vm_compute in H1; injection H1 as <- <-; by vm_compute in H2].
  exists L1, w1, L2, w2. split; [split_and!; try done; lia|].
  apply (gpu_cached_call_changes_input_and_output_only L1 1%nat w1 L2 w2
           1%nat 3%nat counting);
    [exact Hm | exact Ho | lia | exact Hx | exact H2].
Defined.

(** Two calls of the scenario's GPU layer inside a pipeline. *)
Lemma gpu_non_terminal_call_keeps_host_buffer_witness :
  ∃ L1 w1 ot L2 w2,
    (_callGPU gpu_inner_layer 0%nat three_inputs = Some (L1, w1) ∧
     indexMap L1 = Some 1%nat ∧ output L1 = Some 3%nat ∧ outbound L1 ≠ [] ∧
     1%nat ≠ 3%nat ∧ floats w1 !! 3%nat = Some ot ∧
     _callGPU L1 1%nat w1 = Some (L2, w2))
    ∧ ∃ ot', floats w2 !! 3%nat = Some ot' ∧ tensor ot' = tensor ot ∧
             is_Some (glTexture ot').
Proof.
  destruct (_callGPU gpu_inner_layer 0%nat three_inputs) as [[L1 w1]|] eqn:H1;
    [|by vm_compute in H1].
  assert (Hm : indexMap L1 = Some 1%nat)
    by (vm_compute in H1; by injection H1 as <- <-).
  assert (Ho : output L1 = Some 3%nat)
    by (vm_compute in H1; by injection H1 as <- <-).
  assert (Hob : outbound L1 ≠ [])
    by (vm_compute in H1; by injection H1 as <- <-).
  destruct (floats w1 !! 3%nat) as [ot|] eqn:Hot;
    [|exfalso; vm_compute in H1; injection H1 as <- <-; by vm_compute in Hot].
  destruct (_callGPU L1 1%nat w1) as [[L2 w2]|] eqn:H2;
    [|exfalso; vm_compute in H1; injection H1 as <- <-; by vm_compute in H2].
  exists L1, w1, ot, L2, w2. split; [split_and!; try done; lia|].
  apply (gpu_non_terminal_call_keeps_host_buffer L1 1%nat w1 L2 w2
           1%nat 3%nat ot);
    [exact Hm | exact Ho | exact Hob | lia | exact Hot | exact H2].
Defined.

(** ** The first call of the GPU path *)

(** X16. The first GPU call of an instance, on a host tensor that is the
    row-major view of its whole buffer or on a tensor that is already a
    texture (the output of an upstream GPU layer): it
    allocates one tensor, the output, and two index tensors, the copy of the
    offset table and the index map; it records the input and output shapes
    in the configured axis order; the output holds the zero-padded input;
    the input is left in its uploaded form, and no other tensor changes. *)
Theorem gpu_first_call_builds_caches_and_pads {A} `{TypedArray A}
    (L : ZeroPadding3D) (x : loc) (xt : Tensor A) (w : World A)
    (b0 a0 b1 a1 b2 a2 s0 s1 s2 c : Z) :
  fresh_gpu L → normalized L b0 a0 b1 a1 b2 a2 →
  0 ≤ s0 → 0 ≤ s1 → 0 ≤ s2 → 0 ≤ c →
  floats w !! x = Some xt →
  gpu_input (layout (channels_first L) s0 s1 s2 c) xt →
  let ish := layout (channels_first L) s0 s1 s2 c in
  let osh := layout (channels_first L)
               (s0 + b0 + a0) (s1 + b1 + a1) (s2 + b2 + a2) c in
  ∃ L' w' ot,
    call L x w = Some (L', Some (length (floats w)), w') ∧
    output L' = Some (length (floats w)) ∧
    indexMap L' = Some (S (length (ints w))) ∧
    inputShape L' = Some ish ∧ outputShape L' = Some osh ∧
    length (floats w') = S (length (floats w)) ∧
    length (ints w') = S (S (length (ints w))) ∧
    floats w' !! length (floats w) = Some ot ∧
    pads_to (layout (channels_first L) b0 b1 b2 0) ish osh
            (element xt) (element ot) ∧
    (glTexture xt = None →
     floats w' !! x = Some (createGLTexture (reshapeTo2DSquare xt))) ∧
    (is_Some (glTexture xt) → floats w' !! x = Some xt) ∧
    (∀ y, y ≠ x → (y < length (floats w))%nat →
          floats w' !! y = floats w !! y).
Proof.
  intros (Hg & Hm & Ho) Hn ? ? ? ? Hx Hin ish osh.
  pose proof Hn as (_ & ? & ? & ? & ? & ? & ?).
  destruct (callGPU_fresh_step (channels_first L) b0 a0 b1 a1 b2 a2 s0 s1 s2 c
              ltac:(lia) ltac:(lia) L x xt w eq_refl Hn Hm Ho Hx Hin)
    as (ind & mt & ot & f & Hrun & _ & _ & Hup & Hp & _).
  assert (Hlx : (x < length (floats w))%nat) by (by eapply lookup_lt_Some).
  assert (Hxup : (<[x:=upload xt]> (floats w) ++ [ot]) !! x = Some (upload xt)).
  { rewrite lookup_app_l by (by rewrite length_insert).
    by apply list_lookup_insert_eq. }
  eexists _, _, ot. split.
  { unfold call. rewrite Hg. erewrite bind_Some by exact Hrun.
    by cbn [mret M_ret output set_output]. }
  cbn [output indexMap inputShape outputShape set_output set_indexMap
       set_shapes floats ints].
  split_and!; try done.
  - rewrite length_app, length_insert. cbn [length]. lia.
  - rewrite length_app. cbn [length]. lia.
  - apply list_lookup_middle. by rewrite length_insert.
  - eapply pads_to_ext; [apply fits_layout; lia| | |exact Hp]; [done|].
    intros idx Hidx. by apply (element_uploaded _ _ _ _ Hup).
  - intros Hnt. by rewrite Hxup, (upload_None _ Hnt).
  - intros [tex Ht]. by rewrite Hxup, (upload_Some _ _ Ht).
  - intros y Hy Hlt. rewrite lookup_app_l by (by rewrite length_insert).
    by rewrite list_lookup_insert_ne.
Qed.

Lemma gpu_first_call_builds_caches_and_pads_witness :
  let ish := layout (channels_first gpu_layer) 2 2 2 1 in
  let osh := layout (channels_first gpu_layer)
               (2 + 1 + 0) (2 + 0 + 1) (2 + 0 + 0) 1 in
  (fresh_gpu gpu_layer ∧ normalized gpu_layer 1 0 0 1 0 0 ∧
   0 ≤ 2 ∧ 0 ≤ 2 ∧ 0 ≤ 2 ∧ 0 ≤ 1 ∧
   floats three_inputs !! 1%nat = Some counting ∧
   gpu_input (layout (channels_first gpu_layer) 2 2 2 1) counting)
  ∧ ∃ L' w' ot,
      call gpu_layer 1%nat three_inputs
      = Some (L', Some (length (floats three_inputs)), w') ∧
      output L' = Some (length (floats three_inputs)) ∧
      indexMap L' = Some (S (length (ints three_inputs))) ∧
      inputShape L' = Some ish ∧ outputShape L' = Some osh ∧
      length (floats w') = S (length (floats three_inputs)) ∧
      length (ints w') = S (S (length (ints three_inputs))) ∧
      floats w' !! length (floats three_inputs) = Some ot ∧
      pads_to (layout (channels_first gpu_layer) 1 0 0 0) ish osh
              (element counting) (element ot) ∧
      (glTexture counting = None →
       floats w' !! 1%nat = Some (createGLTexture (reshapeTo2DSquare counting))) ∧
      (is_Some (glTexture counting) → floats w' !! 1%nat = Some counting) ∧
      (∀ y, y ≠ 1%nat → (y < length (floats three_inputs))%nat →
            floats w' !! y = floats three_inputs !! y).
Proof.
  intros ish osh.
  assert (Hn : normalized gpu_layer 1 0 0 1 0 0)
    by (unfold normalized; repeat split; try reflexivity; lia).
  assert (Hfr : fresh_gpu gpu_layer) by (by repeat split).
  assert (Hin : gpu_input (layout (channels_first gpu_layer) 2 2 2 1) counting)
    by (repeat split).
  split; [split_and!; try done; lia|].
  apply (gpu_first_call_builds_caches_and_pads gpu_layer 1%nat counting
           three_inputs 1 0 0 1 0 0 2 2 2 1);
    [exact Hfr | exact Hn | lia | lia | lia | lia | reflexivity | exact Hin].
Defined.

(** X17. Two GPU layers of one axis order in a pipeline, on a host tensor
    that is the row-major view of its whole buffer or on a tensor that is
    already a texture: the output object of the first, left on the GPU, is
    the input of the second, and the second's output holds the input
    zero-padded by the sums of the two paddings; when the second layer reads
    back, so does its host tensor. *)
Theorem gpu_pipeline_pads_by_the_sum {A} `{TypedArray A}
    (L1 L2 : ZeroPadding3D) (x : loc) (xt : Tensor A) (w : World A)
    (b0 a0 b1 a1 b2 a2 b0' a0' b1' a1' b2' a2' s0 s1 s2 c : Z) :
  fresh_gpu L1 → fresh_gpu L2 →
  channels_first L2 = channels_first L1 →
  normalized L1 b0 a0 b1 a1 b2 a2 →
  normalized L2 b0' a0' b1' a1' b2' a2' →
  0 ≤ s0 → 0 ≤ s1 → 0 ≤ s2 → 0 ≤ c →
  floats w !! x = Some xt →
  gpu_input (layout (channels_first L1) s0 s1 s2 c) xt →
  let first := channels_first L1 in
  let start := layout first (b0 + b0') (b1 + b1') (b2 + b2') 0 in
  let ish := layout first s0 s1 s2 c in
  let osh := layout first (s0 + b0 + a0 + b0' + a0') (s1 + b1 + a1 + b1' + a1')
               (s2 + b2 + a2 + b2' + a2') c in
  ∃ L1' w1 o1 L2' w2 o2 ot2,
    call L1 x w = Some (L1', Some o1, w1) ∧
    call L2 o1 w1 = Some (L2', Some o2, w2) ∧
    floats w2 !! o2 = Some ot2 ∧
    pads_to start ish osh (element xt) (element ot2) ∧
    (outbound L2 = [] →
     shape (tensor ot2) = osh ∧
     pads_to start ish osh (element xt) (get (tensor ot2))).
Proof.
  intros (Hg1 & Hm1 & Ho1) (Hg2 & Hm2 & Ho2) Hcf Hn1 Hn2 ? ? ? ? Hx Hin
    first start ish osh.
  pose proof Hn1 as (_ & ? & ? & ? & ? & ? & ?).
  pose proof Hn2 as (_ & ? & ? & ? & ? & ? & ?).
  destruct (callGPU_fresh_step first b0 a0 b1 a1 b2 a2 s0 s1 s2 c
              ltac:(lia) ltac:(lia) L1 x xt w eq_refl Hn1 Hm1 Ho1 Hx Hin)
    as (ind & mt & ot & f & Hrun1 & _ & _ & Hup & Hp & _).
  set (w1 := mkWorld (<[x:=upload xt]> (floats w) ++ [ot])
                     (ints w ++ [ind; mt])) in *.
  assert (Hot : floats w1 !! length (floats w) = Some ot).
  { cbn [w1 floats]. apply list_lookup_middle. by rewrite length_insert. }
  pose proof (uploaded_gpu_input _ _ _ Hup) as Hin1.
  destruct (callGPU_fresh_step first b0' a0' b1' a1' b2' a2'
              (s0 + b0 + a0) (s1 + b1 + a1) (s2 + b2 + a2) c
              ltac:(lia) ltac:(lia) L2 (length (floats w)) ot w1
              Hcf Hn2 Hm2 Ho2 Hot Hin1)
    as (ind2 & mt2 & ot2 & f2 & Hrun2 & _ & _ & Hup2 & Hp2 & Hhost).
  assert (Hf1 := fits_layout first b0 a0 b1 a1 b2 a2 s0 s1 s2 c
    ltac:(lia) ltac:(lia) ltac:(lia) ltac:(lia) ltac:(lia) ltac:(lia)
    ltac:(lia) ltac:(lia) ltac:(lia) ltac:(lia)).
  assert (Hf2 := fits_layout first b0' a0' b1' a1' b2' a2'
    (s0 + b0 + a0) (s1 + b1 + a1) (s2 + b2 + a2) c
    ltac:(lia) ltac:(lia) ltac:(lia) ltac:(lia) ltac:(lia) ltac:(lia)
    ltac:(lia) ltac:(lia) ltac:(lia) ltac:(lia)).
  assert (Hp1 : pads_to (layout first b0 b1 b2 0) ish
                  (layout first (s0 + b0 + a0) (s1 + b1 + a1) (s2 + b2 + a2) c)
                  (element xt) (element ot)).
  { eapply pads_to_ext; [exact Hf1| | |exact Hp]; [done|].
    intros idx Hidx. by apply (element_uploaded _ _ _ _ Hup). }
  pose proof (pads_to_compose _ _ _ _ _ _ _ _ Hf1 Hf2 Hp1 Hp2) as Hp12.
  assert (Hst : zip_with Z.add (layout first b0 b1 b2 0)
                  (layout first b0' b1' b2' 0) = start)
    by (unfold start; by destruct first).
  rewrite Hst in Hp12.
  assert (Hfits : fits start ish osh).
  { rewrite <- Hst. by eapply fits_compose. }
  eexists _, w1, (length (floats w)), _, _, (length (floats w1)), ot2.
  split.
  { unfold call. rewrite Hg1. erewrite bind_Some by exact Hrun1.
    by cbn [mret M_ret output set_output]. }
  split.
  { unfold call. rewrite Hg2. erewrite bind_Some by exact Hrun2.
    by cbn [mret M_ret output set_output]. }
  split.
  { cbn [floats]. apply list_lookup_middle. by rewrite length_insert. }
  split.
  - eapply pads_to_ext; [exact Hfits| | |exact Hp12]; [done|].
    intros idx Hidx. by apply (element_uploaded _ _ _ _ Hup2).
  - intros Hob. destruct (Hhost Hob) as [Hsh Hget]. split; [done|].
    eapply pads_to_ext; [exact Hfits| | |exact Hp12]; [done|].
    intros idx Hidx. by apply Hget.
Qed.

Lemma gpu_pipeline_pads_by_the_sum_witness :
  let L2 := configured None 1 1 1 1 1 1 true in
  let first := channels_first gpu_inner_layer in
  let start := layout first (1 + 1) (0 + 1) (0 + 1) 0 in
  let ish := layout first 2 2 2 1 in
  let osh := layout first (2 + 1 + 0 + 1 + 1) (2 + 0 + 1 + 1 + 1)
               (2 + 0 + 0 + 1 + 1) 1 in
  (fresh_gpu gpu_inner_layer ∧ fresh_gpu L2 ∧
   channels_first L2 = channels_first gpu_inner_layer ∧
   normalized gpu_inner_layer 1 0 0 1 0 0 ∧ normalized L2 1 1 1 1 1 1 ∧
   0 ≤ 2 ∧ 0 ≤ 2 ∧ 0 ≤ 2 ∧ 0 ≤ 1 ∧
   floats three_inputs !! 1%nat = Some counting ∧
   gpu_input (layout (channels_first gpu_inner_layer) 2 2 2 1) counting)
  ∧ ∃ L1' w1 o1 L2' w2 o2 ot2,
      call gpu_inner_layer 1%nat three_inputs = Some (L1', Some o1, w1) ∧
      call L2 o1 w1 = Some (L2', Some o2, w2) ∧
      floats w2 !! o2 = Some ot2 ∧
      pads_to start ish osh (element counting) (element ot2) ∧
      (outbound L2 = [] →
       shape (tensor ot2) = osh ∧
       pads_to start ish osh (element counting) (get (tensor ot2))).
Proof.
  intros L2 first start ish osh.
  assert (Hn1 : normalized gpu_inner_layer 1 0 0 1 0 0)
    by (unfold normalized; repeat split; try reflexivity; lia).
  assert (Hn2 : normalized L2 1 1 1 1 1 1)
    by (unfold normalized; repeat split; try reflexivity; lia).
  assert (Hf1 : fresh_gpu gpu_inner_layer) by (by repeat split).
  assert (Hf2 : fresh_gpu L2) by (by repeat split).
  assert (Hin : gpu_input (layout (channels_first gpu_inner_layer) 2 2 2 1)
                  counting)
    by (repeat split).
  split; [split_and!; try done; lia|].
  apply (gpu_pipeline_pads_by_the_sum gpu_inner_layer L2 1%nat counting
           three_inputs 1 0 0 1 0 0 1 1 1 1 1 1 2 2 2 1);
    [exact Hf1 | exact Hf2 | reflexivity | exact Hn1 | exact Hn2
     | lia | lia | lia | lia | reflexivity | exact Hin].
Defined.

(** ** The index map as a texture *)

(** X18. Lines 106-142 of [_createIndexMap], for any offset table of the
    input's shape: without a cached index map the method allocates two index
    tensors and touches nothing else; the new index map is laid out like the
    input (row-major or square), records the output shape, and its texture
    holds, at the row-major offset of every output index, the element of the
    index tensor of lines 111-135. A further call is a no-op. *)
Theorem index_map_texture_encodes_index_tensor {A}
    (L : ZeroPadding3D) (tb : IndexTable) (is2D : bool) (w : World A)
    (b0 a0 b1 a1 b2 a2 s0 s1 s2 c : Z) :
  indexMap L = None → normalized L b0 a0 b1 a1 b2 a2 →
  0 ≤ s0 → 0 ≤ s1 → 0 ≤ s2 → 0 ≤ c →
  let ish := layout (channels_first L) s0 s1 s2 c in
  let osh := layout (channels_first L)
               (s0 + b0 + a0) (s1 + b1 + a1) (s2 + b2 + a2) c in
  inputShape L = Some ish → outputShape L = Some osh →
  table_shape tb = ish →
  length (table_data tb) = Z.to_nat (shape_size ish) →
  ∃ v mt w',
    indexMap_tensor L tb = Some v ∧
    _createIndexMap L (Some tb) is2D w
    = Some (set_indexMap L (S (length (ints w))), w') ∧
    floats w' = floats w ∧
    length (ints w') = S (S (length (ints w))) ∧
    (∀ k, (k < length (ints w))%nat → ints w' !! k = ints w !! k) ∧
    ints w' !! S (length (ints w)) = Some mt ∧
    originalShape mt = Some osh ∧ is2DReshaped mt = is2D ∧
    (∃ tex, glTexture mt = Some tex ∧
            ∀ idx, in_box idx osh →
                   read tex (dot (row_major osh) idx) = get v idx) ∧
    ∀ tb' is2D',
      _createIndexMap (set_indexMap L (S (length (ints w)))) tb' is2D' w'
      = Some (set_indexMap L (S (length (ints w))), w').
Proof.
  intros Hm Hn ? ? ? ? ish osh Hish Hosh Hts Htl.
  pose proof Hn as (_ & ? & ? & ? & ? & ? & ?).
  set (start := layout (channels_first L) b0 b1 b2 0).
  assert (Hfits : fits start ish osh) by (apply fits_layout; lia).
  set (v := sentinel_map osh start ish (ndarray_of (table_data tb) ish)).
  assert (Hv : indexMap_tensor L tb = Some v).
  { apply indexMap_tensor_eq; try done.
    - by apply slice_layout with a0 a1 a2.
    - unfold ish. by destruct (channels_first L). }
  set (t := set_tensor (new_Tensor ([] : list Z) osh) v).
  set (mt := createGLTexture
               (if is2D then reshapeTo2D t else reshapeTo2DSquare t)).
  exists v, mt, (mkWorld (floats w)
                   (ints w ++ [new_Tensor (table_data tb) (table_shape tb); mt])).
  split; [done|]. split; [by apply createIndexMap_fresh_run|].
  cbn [floats ints]. split; [done|].
  split; [rewrite length_app; cbn [length]; lia|].
  split; [intros k Hk; by rewrite lookup_app_l|].
  split.
  { change (ints w ++ [?a; ?b]) with (ints w ++ [a] ++ [b]).
    rewrite app_assoc. apply list_lookup_middle.
    rewrite length_app. cbn [length]. lia. }
  assert (Hnn : Forall (λ n, 0 ≤ n) (shape (tensor t)))
    by (apply layout_nonneg; lia).
  split; [unfold mt; by destruct is2D|].
  split; [unfold mt; by destruct is2D|].
  split.
  - unfold mt. rewrite layout_pick.
    destruct (layout2D_texture (negb is2D) t Hnn
                (λ _, contiguous_sentinel_map _ _ _ _ Hfits))
      as (tex & rows & cols & Ht & _ & _ & _ & _ & Hread).
    exists tex. split; [done|]. intros idx Hidx.
    change (shape (tensor t)) with osh in Hread.
    rewrite (Hread idx Hidx). change (tensor t) with v. unfold v.
    by destruct (get_sentinel_map_is_Some osh start ish
                   (ndarray_of (table_data tb) ish) idx Hfits Hidx)
      as [q ->].
  - intros tb' is2D'. unfold _createIndexMap. by cbn [indexMap set_indexMap].
Qed.

Lemma index_map_texture_encodes_index_tensor_witness :
  let L := set_shapes gpu_layer [2; 2; 2; 1] [3; 3; 2; 1] in
  let tb := linear_table [2; 2; 2; 1] in
  let ish := layout (channels_first L) 2 2 2 1 in
  let osh := layout (channels_first L) (2 + 1 + 0) (2 + 0 + 1) (2 + 0 + 0) 1 in
  (indexMap L = None ∧ normalized L 1 0 0 1 0 0 ∧
   0 ≤ 2 ∧ 0 ≤ 2 ∧ 0 ≤ 2 ∧ 0 ≤ 1 ∧
   inputShape L = Some ish ∧ outputShape L = Some osh ∧
   table_shape tb = ish ∧
   length (table_data tb) = Z.to_nat (shape_size ish))
  ∧ ∃ v mt w',
      indexMap_tensor L tb = Some v ∧
      _createIndexMap L (Some tb) false three_inputs
      = Some (set_indexMap L (S (length (ints three_inputs))), w') ∧
      floats w' = floats three_inputs ∧
      length (ints w') = S (S (length (ints three_inputs))) ∧
      (∀ k, (k < length (ints three_inputs))%nat →
            ints w' !! k = ints three_inputs !! k) ∧
      ints w' !! S (length (ints three_inputs)) = Some mt ∧
      originalShape mt = Some osh ∧ is2DReshaped mt = false ∧
      (∃ tex, glTexture mt = Some tex ∧
              ∀ idx, in_box idx osh →
                     read tex (dot (row_major osh) idx) = get v idx) ∧
      ∀ tb' is2D',
        _createIndexMap (set_indexMap L (S (length (ints three_inputs))))
          tb' is2D' w'
        = Some (set_indexMap L (S (length (ints three_inputs))), w').
Proof.
  intros L tb ish osh.
  assert (Hn : normalized L 1 0 0 1 0 0)
    by (unfold normalized; repeat split; try reflexivity; lia).
  split; [split_and!; try reflexivity; try exact Hn; lia|].
  apply (index_map_texture_encodes_index_tensor L tb false three_inputs
           1 0 0 1 0 0 2 2 2 1);
    [reflexivity | exact Hn | lia | lia | lia | lia | reflexivity
     | reflexivity | reflexivity | reflexivity].
Defined.
